(** * christmas-tree-with-photos: animation and gesture logic of [src/App.tsx]

    A shallow embedding of the scene logic of the interactive Christmas tree:
    the procedural layout generators, the per-frame population animators
    (foliage, ornaments, decorations, lights, star), the firework batch
    simulator, the gesture debouncer of [GestureController.predictWebcam],
    the photo lightbox of [Experience], the canvas fireworks of
    [ClassicFireworksBackdrop], and the photo list: the local store, the
    merge of [fetchPhotos] and the deletion of [PhotoManager].

    Conventions.
    - A JavaScript [number] that holds a measurement (coordinate, distance,
      score, time step) is a real number of [R]; arithmetic is exact, the
      rounding of IEEE doubles is not modelled.  What is stated of positions
      and of the foliage progress is stated with the end points included, so
      that it holds of the doubles up to their rounding; [Binary64] runs the
      interpolation in doubles where the difference shows.
    - Counters, array indexes and [Date.now()] milliseconds are [nat] or [Z].
    - [Math.random()] is a parameter of the function that calls it (a draw
      [u] with [0 <= u < 1]), in the order of the calls in the source.
    - React refs and state are fields of an explicit state record; callbacks
      passed as props are recorded as events.
    - A promise that may be rejected returns an [option]; whether a request
      to IndexedDB or to the server succeeds is a parameter of the call.
    - URLs and file names are strings of bytes. *)

From Stdlib Require Import Reals Lra Lia ZArith List Bool String Psatz.
From Stdlib Require Import Sorting.Permutation Sorting.Sorted.
From Stdlib Require Import Ascii DecimalString.
From Stdlib Require Floats.PrimFloat.
Import ListNotations.

Open Scope R_scope.

(** ** JavaScript numbers as reals *)

Module Num.

(** [a < b] and [a <= b] as the booleans a JavaScript test yields. *)
Definition ltb (a b : R) : bool := if Rlt_dec a b then true else false.
Definition leb (a b : R) : bool := if Rle_dec a b then true else false.
Definition gtb (a b : R) : bool := ltb b a.
Definition eqb (a b : R) : bool := if Req_dec_T a b then true else false.

(** A draw of [Math.random()]. *)
Definition unit_draw (u : R) : Prop := 0 <= u < 1.

End Num.

(** ** Scene state and THREE.Vector3 *)

Inductive SceneState : Set := CHAOS | FORMED.

Definition SceneState_eqb (a b : SceneState) : bool :=
  match a, b with
  | CHAOS, CHAOS | FORMED, FORMED => true
  | _, _ => false
  end.

Record Vector3 : Type := mkVector3 { vx : R; vy : R; vz : R }.

(** [Vector3.lerp(v, alpha)]: [this.x += (v.x - this.x) * alpha], and the
    same for [y] and [z]. *)
Definition lerp (this v : Vector3) (alpha : R) : Vector3 :=
  mkVector3 (vx this + (vx v - vx this) * alpha)
            (vy this + (vy v - vy this) * alpha)
            (vz this + (vz v - vz this) * alpha).

(** [Vector3.distanceTo(v)]. *)
Definition distanceTo (a b : Vector3) : R :=
  sqrt ((vx a - vx b) * (vx a - vx b)
        + (vy a - vy b) * (vy a - vy b)
        + (vz a - vz b) * (vz a - vz b)).

(** ** CONFIG *)

Module CONFIG.
Definition tree_height : R := 32.
Definition tree_radius : R := 13.
Definition counts_ornaments : nat := 200.
Definition counts_elements : nat := 500.
Definition counts_lights : nat := 800.
End CONFIG.

(** ** Procedural layout *)

Module Layout.

(** [getTreePosition]: three draws, for the height, the angle and the
    radial distance. *)
Definition getTreePosition (u_y u_theta u_r : R) : Vector3 :=
  let h := CONFIG.tree_height in
  let rBase := CONFIG.tree_radius in
  let y := (u_y * h) - (h / 2) in
  let normalizedY := (y + (h / 2)) / h in
  let currentRadius := rBase * (1 - normalizedY) in
  let theta := u_theta * PI * 2 in
  let r := u_r * currentRadius in
  mkVector3 (r * cos theta) y (r * sin theta).

(** Target of a photo ornament ([PhotoOrnaments], data memo): two draws. *)
Definition ornamentTarget (u_y u_theta : R) : Vector3 :=
  let h := CONFIG.tree_height in
  let y := (u_y * h) - (h / 2) in
  let rBase := CONFIG.tree_radius in
  let currentRadius := (rBase * (1 - (y + (h / 2)) / h)) + 0.5 in
  let theta := u_theta * PI * 2 in
  mkVector3 (currentRadius * cos theta) y (currentRadius * sin theta).

(** Target of a decoration ([ChristmasElements], data memo). *)
Definition elementTarget (u_y u_theta : R) : Vector3 :=
  let h := CONFIG.tree_height in
  let y := (u_y * h) - (h / 2) in
  let rBase := CONFIG.tree_radius in
  let currentRadius := (rBase * (1 - (y + (h / 2)) / h)) * 0.95 in
  let theta := u_theta * PI * 2 in
  mkVector3 (currentRadius * cos theta) y (currentRadius * sin theta).

(** Target of a fairy light ([FairyLights], data memo). *)
Definition lightTarget (u_y u_theta : R) : Vector3 :=
  let h := CONFIG.tree_height in
  let y := (u_y * h) - (h / 2) in
  let rBase := CONFIG.tree_radius in
  let currentRadius := (rBase * (1 - (y + (h / 2)) / h)) + 0.3 in
  let theta := u_theta * PI * 2 in
  mkVector3 (currentRadius * cos theta) y (currentRadius * sin theta).

(** Chaos position of an ornament: [Math.pow(Math.random(), 2.0)] maps to
    the height, two more draws to [x] and [z]. *)
Definition ornamentChaos (u_yRandom u_x u_z : R) : Vector3 :=
  let yRandom := u_yRandom * u_yRandom in
  let yPos := -35 + yRandom * 70 in
  mkVector3 ((u_x - 0.5) * 70) yPos ((u_z - 0.5) * 70).

(** Chaos position of a decoration and of a fairy light (same code). *)
Definition smallChaos (u_yRandom u_x u_z : R) : Vector3 :=
  let yRandom := u_yRandom * u_yRandom in
  let yPos := -30 + yRandom * 60 in
  mkVector3 ((u_x - 0.5) * 60) yPos ((u_z - 0.5) * 60).

(** The formed layout as the specification words it: a height uniform in
    [[-halfHeight, +halfHeight]], the local radius of the cone at that
    height, an angle in [[0, 2 PI)], a radial distance drawn in
    [[0, localRadius]], and an additive radius offset per population. *)
Definition spec_conical (offset u_y u_theta u_r : R) : Vector3 :=
  let height := CONFIG.tree_height in
  let halfHeight := height / 2 in
  let baseRadius := CONFIG.tree_radius in
  let Y := - halfHeight + u_y * height in
  let normalizedHeight := (Y + halfHeight) / height in
  let localRadius := baseRadius * (1 - normalizedHeight) in
  let theta := u_theta * (2 * PI) in
  let radius := u_r * localRadius + offset in
  mkVector3 (radius * cos theta) Y (radius * sin theta).

(** Local radius of the cone at height [y]. *)
Definition localRadius (y : R) : R :=
  CONFIG.tree_radius * (1 - (y + CONFIG.tree_height / 2) / CONFIG.tree_height).

(** Height and angle a draw is mapped to, and the point of radius
    [radius] at height [y] and angle [theta] around the tree axis. *)
Definition height_of (u_y : R) : R :=
  (u_y * CONFIG.tree_height) - (CONFIG.tree_height / 2).
Definition angle_of (u_theta : R) : R := u_theta * PI * 2.
Definition on_cone (radius y theta : R) : Vector3 :=
  mkVector3 (radius * cos theta) y (radius * sin theta).

End Layout.

(** ** Population animator *)

Module Animator.

(** The draws of one photo ornament, in the order of the calls (the draws
    for the border colour and the chaos rotation are visual only). *)
Record OrnamentDraws : Type := {
  od_yRandom : R; od_chaosX : R; od_chaosZ : R;
  od_y : R; od_theta : R;
  od_formedScale : R; od_weight : R;
  od_rotX : R; od_rotY : R; od_rotZ : R;
  od_wobbleOffset : R; od_wobbleSpeed : R
}.

Record OrnamentData : Type := {
  o_chaosPos : Vector3;
  o_targetPos : Vector3;
  o_formedScale : R;
  o_chaosScale : R;
  o_weight : R;
  o_textureIndex : nat;
  o_currentPos : Vector3;
  o_rotationSpeed : Vector3;
  o_wobbleOffset : R;
  o_wobbleSpeed : R
}.

(** One entry of the [data] memo of [PhotoOrnaments]. *)
Definition mkOrnament (texturesLength i : nat) (d : OrnamentDraws) : OrnamentData :=
  let chaosPos := Layout.ornamentChaos (od_yRandom d) (od_chaosX d) (od_chaosZ d) in
  let targetPos := Layout.ornamentTarget (od_y d) (od_theta d) in
  let formedScale := 0.3 + od_formedScale d * 0.2 in
  let depthFactor := (vz chaosPos + 35) / 70 in
  let chaosScale := 1.2 + depthFactor * 2.5 in
  let weight := 0.8 + od_weight d * 1.2 in
  {| o_chaosPos := chaosPos; o_targetPos := targetPos;
     o_formedScale := formedScale; o_chaosScale := chaosScale;
     o_weight := weight;
     o_textureIndex := Nat.modulo i texturesLength;
     o_currentPos := chaosPos;
     o_rotationSpeed := mkVector3 ((od_rotX d - 0.5) * 1.0)
                                  ((od_rotY d - 0.5) * 1.0)
                                  ((od_rotZ d - 0.5) * 1.0);
     o_wobbleOffset := od_wobbleOffset d * 10;
     o_wobbleSpeed := 0.5 + od_wobbleSpeed d * 0.5 |}.

Definition ornament_with_pos (o : OrnamentData) (p : Vector3) : OrnamentData :=
  {| o_chaosPos := o_chaosPos o; o_targetPos := o_targetPos o;
     o_formedScale := o_formedScale o; o_chaosScale := o_chaosScale o;
     o_weight := o_weight o; o_textureIndex := o_textureIndex o;
     o_currentPos := p;
     o_rotationSpeed := o_rotationSpeed o;
     o_wobbleOffset := o_wobbleOffset o; o_wobbleSpeed := o_wobbleSpeed o |}.

(** Body of the [forEach] of [PhotoOrnaments.useFrame], position part. *)
Definition ornamentFrame (state : SceneState) (delta : R) (o : OrnamentData)
  : OrnamentData :=
  let isFormed := SceneState_eqb state FORMED in
  let target := if isFormed then o_targetPos o else o_chaosPos o in
  ornament_with_pos o
    (lerp (o_currentPos o) target
          (delta * (if isFormed then 0.8 * o_weight o else 0.5))).

(** [PhotoOrnaments.useFrame]: nothing happens while the group ref is
    empty; otherwise every child is moved. *)
Definition PhotoOrnaments_useFrame (groupMounted : bool) (state : SceneState)
           (delta : R) (data : list OrnamentData) : list OrnamentData :=
  if groupMounted then map (ornamentFrame state delta) data else data.

(** Decorations and fairy lights keep the same three positions. *)
Record SmallDraws : Type := {
  sd_yRandom : R; sd_chaosX : R; sd_chaosZ : R; sd_y : R; sd_theta : R
}.

Record SmallData : Type := {
  s_chaosPos : Vector3;
  s_targetPos : Vector3;
  s_currentPos : Vector3
}.

Definition mkElement (d : SmallDraws) : SmallData :=
  let chaosPos := Layout.smallChaos (sd_yRandom d) (sd_chaosX d) (sd_chaosZ d) in
  {| s_chaosPos := chaosPos;
     s_targetPos := Layout.elementTarget (sd_y d) (sd_theta d);
     s_currentPos := chaosPos |}.

Definition mkLight (d : SmallDraws) : SmallData :=
  let chaosPos := Layout.smallChaos (sd_yRandom d) (sd_chaosX d) (sd_chaosZ d) in
  {| s_chaosPos := chaosPos;
     s_targetPos := Layout.lightTarget (sd_y d) (sd_theta d);
     s_currentPos := chaosPos |}.

Definition small_with_pos (e : SmallData) (p : Vector3) : SmallData :=
  {| s_chaosPos := s_chaosPos e; s_targetPos := s_targetPos e; s_currentPos := p |}.

(** Body of the [forEach] of [ChristmasElements.useFrame]. *)
Definition elementFrame (state : SceneState) (delta : R) (e : SmallData) : SmallData :=
  let isFormed := SceneState_eqb state FORMED in
  let target := if isFormed then s_targetPos e else s_chaosPos e in
  small_with_pos e (lerp (s_currentPos e) target (delta * 1.5)).

(** Body of the [forEach] of [FairyLights.useFrame]. *)
Definition lightFrame (state : SceneState) (delta : R) (e : SmallData) : SmallData :=
  let isFormed := SceneState_eqb state FORMED in
  let target := if isFormed then s_targetPos e else s_chaosPos e in
  small_with_pos e (lerp (s_currentPos e) target (delta * 2.0)).

Definition ChristmasElements_useFrame (groupMounted : bool) (state : SceneState)
           (delta : R) (data : list SmallData) : list SmallData :=
  if groupMounted then map (elementFrame state delta) data else data.

Definition FairyLights_useFrame (groupMounted : bool) (state : SceneState)
           (delta : R) (data : list SmallData) : list SmallData :=
  if groupMounted then map (lightFrame state delta) data else data.

(** The target a population moves to in a scene state. *)
Definition ornamentActiveTarget (state : SceneState) (o : OrnamentData) : Vector3 :=
  match state with FORMED => o_targetPos o | CHAOS => o_chaosPos o end.

Definition smallActiveTarget (state : SceneState) (e : SmallData) : Vector3 :=
  match state with FORMED => s_targetPos e | CHAOS => s_chaosPos e end.

(** [x] lies on the open segment from [p] to [q]. *)
Definition strictly_between (p q x : Vector3) : Prop :=
  exists s : R, 0 < s < 1 /\ x = lerp p q s.

(** [x] lies on the segment from [p] to [q], the end points included. *)
Definition between (p q x : Vector3) : Prop :=
  exists s : R, 0 <= s <= 1 /\ x = lerp p q s.

(** A step of the share [a] of the way from [p] towards [q] that does not
    pass [q]: it ends on the segment, at the share [1 - a] of the former
    distance to [q]. *)
Definition bounded_step (a : R) (p q x : Vector3) : Prop :=
  x = lerp p q a
  /\ between p q x
  /\ distanceTo x q = (1 - a) * distanceTo p q.

(** The interpolation factor each population passes to [lerp]. *)
Definition ornamentAlpha (state : SceneState) (delta : R) (o : OrnamentData) : R :=
  delta * (match state with FORMED => 0.8 * o_weight o | CHAOS => 0.5 end).
Definition elementAlpha (delta : R) : R := delta * 1.5.
Definition lightAlpha (delta : R) : R := delta * 2.0.

(** All draws of 1/2: a decoration or light in the middle of the scene. *)
Definition half_draws : SmallDraws :=
  {| sd_yRandom := 1/2; sd_chaosX := 1/2; sd_chaosZ := 1/2;
     sd_y := 1/2; sd_theta := 1/2 |}.

Definition half_ornament_draws : OrnamentDraws :=
  {| od_yRandom := 1/2; od_chaosX := 1/2; od_chaosZ := 1/2;
     od_y := 1/2; od_theta := 1/2;
     od_formedScale := 1/2; od_weight := 1/2;
     od_rotX := 1/2; od_rotY := 1/2; od_rotZ := 1/2;
     od_wobbleOffset := 1/2; od_wobbleSpeed := 1/2 |}.

Definition sample_ornament : OrnamentData := mkOrnament 35 0 half_ornament_draws.
Definition sample_element : SmallData := mkElement half_draws.
Definition sample_light : SmallData := mkLight half_draws.

End Animator.

(** ** The arithmetic of doubles *)

Module Binary64.

Import PrimFloat.

(** One coordinate of [Vector3.lerp] in the arithmetic of a JavaScript
    number (binary64, rounding to nearest):
    [this.x += (v.x - this.x) * alpha]. *)
Definition lerp (this v alpha : float) : float :=
  add this (mul (sub v this) alpha).

(** One coordinate of a fairy light ([delta * 2.0]) and of a decoration
    ([delta * 1.5]) over a frame. *)
Definition lightFrame (target delta x : float) : float :=
  lerp x target (mul delta 2.0%float).
Definition elementFrame (target delta x : float) : float :=
  lerp x target (mul delta 1.5%float).

(** A coordinate on its way from 17.5 to 5.5 at 60 frames a second. *)
Definition start : float := 17.5%float.
Definition target : float := 5.5%float.
Definition frameDelta : float := div 1%float 60%float.
Definition afterFrames (n : nat) : float :=
  Nat.iter n (lightFrame target frameDelta) start.

(** The double next above 5.5, and a frame of half a second. *)
Definition aboveTarget : float := next_up target.
Definition halfSecond : float := 0.5%float.

End Binary64.

(** ** Gesture intake: [GestureController.predictWebcam] *)

Module Gesture.

(** One classification of the recognizer. *)
Record Category : Type := { categoryName : string; score : R }.

(** A landmark; [z] may be missing, the code reads it as [(p.z || 0)]. *)
Record NormalizedLandmark : Type := { lm_x : R; lm_y : R; lm_z : option R }.

Definition z_or_0 (p : NormalizedLandmark) : R :=
  match lm_z p with Some v => v | None => 0 end.

(** What [recognizeForVideo] returns: per hand its ranked categories, and
    per hand its landmarks ([landmarks] itself may be undefined). *)
Record GestureRecognizerResult : Type := {
  gestures : list (list Category);
  landmarks : option (list (list NormalizedLandmark))
}.

(** A frame of the loop: the video may not be ready yet, and the
    recognizer may throw an error with a message. *)
Inductive Recognition : Type :=
| Recognized (results : GestureRecognizerResult)
| Failed (message : string).

Record Frame : Type := { videoReady : bool; recognition : Recognition }.

(** The refs of the component. *)
Record Refs : Type := {
  lastGesture : string;
  gestureStableCount : nat;
  pinchState : bool;
  pinchChangeStableCount : nat;
  lastRuntimeError : string
}.

Definition initialRefs : Refs :=
  {| lastGesture := EmptyString; gestureStableCount := 0; pinchState := false;
     pinchChangeStableCount := 0; lastRuntimeError := EmptyString |}.

Record HandPosition : Type := {
  hp_x : R; hp_y : R; hp_z : R;
  hp_visible : bool; hp_gesture : string; isPinching : bool
}.

(** The callbacks the component receives as props. *)
Inductive Event : Type :=
| OnGesture (s : SceneState)
| OnMove (speed : R)
| OnStatus (msg : string)
| OnHandPosition (h : HandPosition).

(** Thresholds of the source, by name. *)
Definition confidenceThreshold : R := 0.35.
Definition stableThreshold : nat := 2.
Definition pinchDownThreshold : R := 0.072.
Definition pinchUpThreshold : R := 0.098.
Definition pinchStableThreshold : nat := 2.

(** Message of the [TypeError] raised by reading a field of [undefined];
    its text depends on the engine. *)
Definition typeErrorMessage : string := "TypeError".

(** Result of a part of the [try] block: it ran to its end, or it threw;
    refs written and callbacks made before the throw stay. *)
Inductive Outcome (A : Type) : Type :=
| Done (a : A) (r : Refs) (evs : list Event)
| Thrown (msg : string) (r : Refs) (evs : list Event).
Arguments Done {A} a r evs.
Arguments Thrown {A} msg r evs.

Definition with_gesture (r : Refs) (name : string) (count : nat) : Refs :=
  {| lastGesture := name; gestureStableCount := count;
     pinchState := pinchState r;
     pinchChangeStableCount := pinchChangeStableCount r;
     lastRuntimeError := lastRuntimeError r |}.

Definition with_pinch (r : Refs) (p : bool) (count : nat) : Refs :=
  {| lastGesture := lastGesture r; gestureStableCount := gestureStableCount r;
     pinchState := p; pinchChangeStableCount := count;
     lastRuntimeError := lastRuntimeError r |}.

(** The scene state a stable label asks for. *)
Definition gestureCommand (name : string) : option SceneState :=
  if String.eqb name "Open_Palm" then Some CHAOS
  else if String.eqb name "Closed_Fist" then Some FORMED
  else None.

(** Label stability and discrete emission, for the top category [c]. *)
Definition gestureUpdate (debugMode : bool) (r : Refs) (c : Category)
  : Refs * list Event :=
  let name := categoryName c in
  let r1 := if String.eqb name (lastGesture r)
            then with_gesture r (lastGesture r) (S (gestureStableCount r))
            else with_gesture r name 0 in
  if Num.gtb (score c) confidenceThreshold
     && (stableThreshold <=? gestureStableCount r1)%nat
  then (r1,
        (if String.eqb name "Open_Palm" then [OnGesture CHAOS] else [])
        ++ (if String.eqb name "Closed_Fist" then [OnGesture FORMED] else [])
        ++ (if debugMode then [OnStatus (String.append "DETECTED: " name)] else []))
  else (r1, []).

(** First part of the [try] block: [name] and [score] of the frame. *)
Definition gestureStage (debugMode : bool) (r : Refs)
           (gs : list (list Category)) : Outcome (string * R) :=
  match gs with
  | [] => Done (EmptyString, 0) r []
  | [] :: _ => Thrown typeErrorMessage r []
  | (c :: _) :: _ =>
      let '(r1, evs) := gestureUpdate debugMode r c in
      Done (categoryName c, score c) r1 evs
  end.

(** [Math.hypot] of three numbers. *)
Definition hypot (a b c : R) : R := sqrt (a * a + b * b + c * c).

(** [v || d] on numbers: [d] replaces a zero. *)
Definition number_or (v d : R) : R := if Num.eqb v 0 then d else v.

(** Thumb tip to index tip distance. *)
Definition pinchDistance (indexFingerTip thumbTip : NormalizedLandmark) : R :=
  let dx := lm_x indexFingerTip - lm_x thumbTip in
  let dy := lm_y indexFingerTip - lm_y thumbTip in
  let dz := z_or_0 indexFingerTip - z_or_0 thumbTip in
  sqrt (dx * dx + dy * dy + dz * dz).

(** [l[9] || l[5] || l[0]]. *)
Definition palmBaseOf (l : list NormalizedLandmark) (wrist : NormalizedLandmark)
  : NormalizedLandmark :=
  match nth_error l 9 with
  | Some p => p
  | None => match nth_error l 5 with
            | Some p => p
            | None => wrist
            end
  end.

Definition palmSizeOf (wrist palmBase : NormalizedLandmark) : R :=
  number_or (hypot (lm_x wrist - lm_x palmBase)
                   (lm_y wrist - lm_y palmBase)
                   (z_or_0 wrist - z_or_0 palmBase))
            1e-6.

Definition tipDistance (wrist tip : NormalizedLandmark) : R :=
  hypot (lm_x wrist - lm_x tip) (lm_y wrist - lm_y tip)
        (z_or_0 wrist - z_or_0 tip).

(** The loop over [opennessTipIds = [8, 12, 16, 20]]. *)
Definition tipSumOf (wrist : NormalizedLandmark) (tips : list NormalizedLandmark) : R :=
  fold_left (fun tipSum tip => tipSum + tipDistance wrist tip) tips 0.

Definition opennessOf (wrist palmBase : NormalizedLandmark)
           (tips : list NormalizedLandmark) : R :=
  (tipSumOf wrist tips / INR (List.length tips)) / palmSizeOf wrist palmBase.

(** The four finger tips used for the openness; [None] when one of them is
    missing, in which case reading it throws. *)
Definition opennessTips (l : list NormalizedLandmark) : option (list NormalizedLandmark) :=
  match nth_error l 8, nth_error l 12, nth_error l 16, nth_error l 20 with
  | Some t8, Some t12, Some t16, Some t20 => Some [t8; t12; t16; t20]
  | _, _, _, _ => None
  end.

(** Hysteresis and debouncing of the pinch, from the values of the frame. *)
Definition pinchUpdate (name : string) (score distance : R) (opennessOk : bool)
           (r : Refs) : Refs :=
  let gestureBlocksPinch :=
    String.eqb name "Closed_Fist" || String.eqb name "Open_Palm" in
  let pinchingByDistance :=
    if pinchState r then Num.ltb distance pinchUpThreshold
    else Num.ltb distance pinchDownThreshold in
  let scoreOk := if String.eqb name EmptyString then true else Num.gtb score 0.5 in
  let rawPinch :=
    negb gestureBlocksPinch && scoreOk && opennessOk && pinchingByDistance in
  if gestureBlocksPinch then with_pinch r false 0
  else if Bool.eqb rawPinch (pinchState r) then with_pinch r (pinchState r) 0
  else
    let count := S (pinchChangeStableCount r) in
    if (pinchStableThreshold <=? count)%nat then with_pinch r rawPinch 0
    else with_pinch r (pinchState r) count.

(** The branch of a visible hand ([l && l.length > 0]). *)
Definition handStage (name : string) (score : R) (r : Refs)
           (l : list NormalizedLandmark) (wrist : NormalizedLandmark)
  : Outcome unit :=
  let speed := (0.5 - lm_x wrist) * 0.15 in
  let move := OnMove (if Num.gtb (Rabs speed) 0.01 then speed else 0) in
  match nth_error l 8, nth_error l 4, opennessTips l with
  | Some indexFingerTip, Some thumbTip, Some tips =>
      let distance := pinchDistance indexFingerTip thumbTip in
      let openness := opennessOf wrist (palmBaseOf l wrist) tips in
      let opennessOk := Num.gtb openness 1.35 && Num.ltb openness 2.25 in
      let r1 := pinchUpdate name score distance opennessOk r in
      Done tt r1
           [move;
            OnHandPosition {| hp_x := lm_x indexFingerTip;
                              hp_y := lm_y indexFingerTip;
                              hp_z := z_or_0 indexFingerTip;
                              hp_visible := true; hp_gesture := name;
                              isPinching := pinchState r1 |}]
  | _, _, _ => Thrown typeErrorMessage r [move]
  end.

Definition hiddenHand (name : string) : HandPosition :=
  {| hp_x := 0; hp_y := 0; hp_z := 0; hp_visible := false;
     hp_gesture := name; isPinching := false |}.

(** The branch without a hand. *)
Definition noHandStage (debugMode : bool) (name : string) (noGesture : bool)
           (r : Refs) : Refs * list Event :=
  let r1 := with_pinch r false 0 in
  let evs := [OnMove 0; OnHandPosition (hiddenHand name)] in
  if noGesture
  then (with_gesture r1 EmptyString 0,
        evs ++ (if debugMode then [OnStatus "AI READY: NO HAND"] else []))
  else (r1, evs).

(** The [try] block. *)
Definition tryBlock (debugMode : bool) (r : Refs)
           (results : GestureRecognizerResult) : Outcome unit :=
  match gestureStage debugMode r (gestures results) with
  | Thrown msg r1 evs => Thrown msg r1 evs
  | Done (name, score) r1 evs =>
      let l := match landmarks results with
               | Some (l :: _) => l
               | _ => []
               end in
      match l with
      | wrist :: _ =>
          match handStage name score r1 l wrist with
          | Done _ r2 evs2 => Done tt r2 (evs ++ evs2)
          | Thrown msg r2 evs2 => Thrown msg r2 (evs ++ evs2)
          end
      | [] =>
          let '(r2, evs2) :=
            noHandStage debugMode name
                        (match gestures results with [] => true | _ => false end)
                        r1 in
          Done tt r2 (evs ++ evs2)
      end
  end.

(** The [catch] block. *)
Definition catchBlock (msg : string) (r : Refs) : Refs * list Event :=
  let fresh := negb (String.eqb (lastRuntimeError r) msg) in
  ({| lastGesture := EmptyString; gestureStableCount := 0; pinchState := false;
      pinchChangeStableCount := 0;
      lastRuntimeError := if fresh then msg else lastRuntimeError r |},
   (if fresh then [OnStatus (String.append "ERROR: " msg)] else [])
   ++ [OnMove 0; OnHandPosition (hiddenHand EmptyString)]).

(** One run of [predictWebcam] with recognizer, video and canvas present. *)
Definition predictWebcam (debugMode : bool) (r : Refs) (f : Frame)
  : Refs * list Event :=
  if videoReady f then
    match recognition f with
    | Failed msg => catchBlock msg r
    | Recognized results =>
        match tryBlock debugMode r results with
        | Done _ r1 evs => (r1, evs)
        | Thrown msg r1 evs =>
            let '(r2, evs2) := catchBlock msg r1 in (r2, evs ++ evs2)
        end
    end
  else (r, []).

(** The state of [GrandTreeApp] the callbacks write. *)
Record App : Type := {
  sceneState : SceneState;
  rotationSpeed : R;
  aiStatus : string;
  handPosition : HandPosition
}.

Definition initialApp : App :=
  {| sceneState := CHAOS; rotationSpeed := 0; aiStatus := "INITIALIZING...";
     handPosition := hiddenHand EmptyString |}.

Definition dispatch (a : App) (e : Event) : App :=
  match e with
  | OnGesture s =>
      {| sceneState := s; rotationSpeed := rotationSpeed a;
         aiStatus := aiStatus a; handPosition := handPosition a |}
  | OnMove v =>
      {| sceneState := sceneState a; rotationSpeed := v;
         aiStatus := aiStatus a; handPosition := handPosition a |}
  | OnStatus m =>
      {| sceneState := sceneState a; rotationSpeed := rotationSpeed a;
         aiStatus := m; handPosition := handPosition a |}
  | OnHandPosition h =>
      {| sceneState := sceneState a; rotationSpeed := rotationSpeed a;
         aiStatus := aiStatus a; handPosition := h |}
  end.

(** One frame of the loop and its effect on the application state. *)
Definition frameStep (debugMode : bool) (st : Refs * App) (f : Frame) : Refs * App :=
  let '(r1, evs) := predictWebcam debugMode (fst st) f in
  (r1, fold_left dispatch evs (snd st)).

Definition runFrames (debugMode : bool) (st : Refs * App) (fs : list Frame)
  : Refs * App :=
  fold_left (frameStep debugMode) fs st.

(** The scene state after each frame of a stream. *)
Fixpoint sceneTrace (debugMode : bool) (st : Refs * App) (fs : list Frame)
  : list SceneState :=
  match fs with
  | [] => []
  | f :: fs' =>
      let st1 := frameStep debugMode st f in
      sceneState (snd st1) :: sceneTrace debugMode st1 fs'
  end.

(** Number of changes of value along [s0 :: trace]. *)
Fixpoint toggles (s0 : SceneState) (trace : list SceneState) : nat :=
  match trace with
  | [] => 0
  | s :: rest => (if SceneState_eqb s0 s then 0 else 1) + toggles s rest
  end.

(** The scene state a list of callbacks leaves. *)
Definition sceneOf (s : SceneState) (e : Event) : SceneState :=
  match e with OnGesture s' => s' | _ => s end.
Definition sceneAfter (s : SceneState) (evs : list Event) : SceneState :=
  fold_left sceneOf evs s.

(** A hand of 21 landmarks spread over the image. *)
Definition sampleHand : list NormalizedLandmark :=
  map (fun k => {| lm_x := 0.5 + INR k / 100; lm_y := 0.9 - INR k / 50;
                   lm_z := Some 0 |})
      (seq 0 21).

(** A frame that shows [name] with a score, on the hand [sampleHand]. *)
Definition gestureFrame (name : string) (score : R) : Frame :=
  {| videoReady := true;
     recognition :=
       Recognized {| gestures := [[ {| categoryName := name; score := score |} ]];
                     landmarks := Some [sampleHand] |} |}.

Definition palmFrame : Frame := gestureFrame "Open_Palm" 0.9.
Definition fistFrame : Frame := gestureFrame "Closed_Fist" 0.9.

Definition appIn (s : SceneState) : App :=
  {| sceneState := s; rotationSpeed := 0; aiStatus := "INITIALIZING...";
     handPosition := hiddenHand EmptyString |}.

(** The values of a frame the pinch detection reads. *)
Record PinchSample : Type := {
  ps_name : string; ps_score : R; ps_distance : R; ps_opennessOk : bool
}.

Definition pinchStep (r : Refs) (s : PinchSample) : Refs :=
  pinchUpdate (ps_name s) (ps_score s) (ps_distance s) (ps_opennessOk s) r.

(** The committed pinch boolean after each sample of a sequence. *)
Fixpoint pinchTrace (r : Refs) (samples : list PinchSample) : list bool :=
  match samples with
  | [] => []
  | s :: rest => let r1 := pinchStep r s in pinchState r1 :: pinchTrace r1 rest
  end.

Fixpoint flips (b0 : bool) (trace : list bool) : nat :=
  match trace with
  | [] => 0
  | b :: rest => (if Bool.eqb b0 b then 0 else 1) + flips b rest
  end.

Definition gestureBlocksPinch (s : PinchSample) : bool :=
  String.eqb (ps_name s) "Closed_Fist" || String.eqb (ps_name s) "Open_Palm".

Definition scoreOk (s : PinchSample) : bool :=
  if String.eqb (ps_name s) EmptyString then true else Num.gtb (ps_score s) 0.5.

(** Nothing but the distance stands against a pinch. *)
Definition clean (s : PinchSample) : Prop :=
  gestureBlocksPinch s = false /\ scoreOk s = true /\ ps_opennessOk s = true.

(** The distance lies in the hysteresis band. *)
Definition inBand (s : PinchSample) : Prop :=
  pinchDownThreshold <= ps_distance s < pinchUpThreshold.

Definition pinching : Refs := with_pinch initialRefs true 0.

Definition fistSample : PinchSample :=
  {| ps_name := "Closed_Fist"; ps_score := 0.9; ps_distance := 0.05;
     ps_opennessOk := true |}.

Definition flatHandSample : PinchSample :=
  {| ps_name := EmptyString; ps_score := 0; ps_distance := 0.05;
     ps_opennessOk := false |}.

Definition bandSample : PinchSample :=
  {| ps_name := EmptyString; ps_score := 0; ps_distance := 0.085;
     ps_opennessOk := true |}.

(** Wrist and palm base at the same point. *)
Definition coincide (p q : NormalizedLandmark) : Prop :=
  lm_x p = lm_x q /\ lm_y p = lm_y q /\ z_or_0 p = z_or_0 q.

(** A hand collapsed into the origin: all 21 landmarks coincide. *)
Definition originLandmark : NormalizedLandmark :=
  {| lm_x := 0; lm_y := 0; lm_z := None |}.
Definition collapsedHand : list NormalizedLandmark := repeat originLandmark 21.

(** A hand of the reference skeleton has its 21 landmarks. *)
Definition wellFormedHand (l : list NormalizedLandmark) : Prop :=
  l = [] \/ (21 <= List.length l)%nat.

(** A ready frame whose top category is [c], with a well-formed hand or
    none. *)
Definition labelled (c : Category) (f : Frame) : Prop :=
  videoReady f = true
  /\ exists rest others lms,
      recognition f = Recognized {| gestures := (c :: rest) :: others;
                                    landmarks := lms |}
      /\ match lms with
         | Some (l :: _) => wellFormedHand l
         | _ => True
         end.

(** The top category of a frame has the name [name]. *)
Definition named (name : string) (f : Frame) : Prop :=
  exists c, categoryName c = name /\ labelled c f.

End Gesture.

(** ** Photo selection and lightbox: [Experience] *)

Module Experience.

Definition MAX_RECENT_HISTORY : nat := 10.
Definition pinchCooldown : Z := 650.

(** Refs and state of the component (the opacity is state of the parent,
    written through [setLightboxOpacity]). *)
Record State : Type := {
  isLightboxOpen : bool;
  lightboxPhotoIndex : option nat;
  hasPinched : bool;
  pinchCooldownUntil : Z;
  fireworkTrigger : bool;
  prevSceneState : SceneState;
  fadeOutTimer : bool;
  recentlyViewedPhotos : list nat;
  lightboxOpacity : R
}.

(** The component before its first effect: [useRef(0)] for the cooldown,
    [useRef(sceneState)] for the previous scene state. *)
Definition initialState (sceneState : SceneState) : State :=
  {| isLightboxOpen := false; lightboxPhotoIndex := None;
     hasPinched := false; pinchCooldownUntil := 0;
     fireworkTrigger := false; prevSceneState := sceneState;
     fadeOutTimer := false; recentlyViewedPhotos := [];
     lightboxOpacity := 1 |}.

(** The effect with dependency [sceneState]; React runs it after the
    first render and after every change of [sceneState]. *)
Definition sceneEffect (now : Z) (sceneState : SceneState) (st : State) : State :=
  {| isLightboxOpen := isLightboxOpen st;
     lightboxPhotoIndex := lightboxPhotoIndex st;
     hasPinched := hasPinched st;
     pinchCooldownUntil := (now + pinchCooldown)%Z;
     fireworkTrigger :=
       if SceneState_eqb (prevSceneState st) CHAOS && SceneState_eqb sceneState FORMED
       then true else fireworkTrigger st;
     prevSceneState := sceneState;
     fadeOutTimer := fadeOutTimer st;
     recentlyViewedPhotos := recentlyViewedPhotos st;
     lightboxOpacity := lightboxOpacity st |}.

(** The component right after mounting at time [t0]. *)
Definition mount (t0 : Z) (sceneState : SceneState) : State :=
  sceneEffect t0 sceneState (initialState sceneState).

Record PhotoDistance : Type := {
  pd_index : nat; pd_distance : R; pd_textureIndex : nat
}.

(** The [forEach] over the children of the photo group. *)
Definition photoDistances (camera : Vector3) (children : list Vector3)
           (photosLength : nat) : list PhotoDistance :=
  map (fun ig => {| pd_index := fst ig;
                    pd_distance := distanceTo camera (snd ig);
                    pd_textureIndex := Nat.modulo (fst ig) photosLength |})
      (combine (seq 0 (List.length children)) children).


(** [sort((a, b) => a.distance - b.distance)]: ascending and stable. *)
Fixpoint insert (x : PhotoDistance) (l : list PhotoDistance) : list PhotoDistance :=
  match l with
  | [] => [x]
  | y :: l' => if Num.leb (pd_distance x) (pd_distance y)
               then x :: l else y :: insert x l'
  end.

Fixpoint sortByDistance (l : list PhotoDistance) : list PhotoDistance :=
  match l with
  | [] => []
  | x :: l' => insert x (sortByDistance l')
  end.

Definition nearestPhotos (sorted : list PhotoDistance) : list PhotoDistance :=
  firstn (Nat.min 5 (List.length sorted)) sorted.

Definition recentlyViewed (recent : list nat) (p : PhotoDistance) : bool :=
  existsb (Nat.eqb (pd_textureIndex p)) recent.

Definition candidatePhotos (recent : list nat) (nearest : list PhotoDistance)
  : list PhotoDistance :=
  let filtered := filter (fun photo => negb (recentlyViewed recent photo)) nearest in
  if (List.length filtered =? 0)%nat then nearest else filtered.

(** [reduce((sum, _, i) => sum + (length - i), 0)]. *)
Definition totalWeight (n : nat) : R :=
  fold_left (fun sum i => sum + INR (n - i)) (seq 0 n) 0.

(** The selection loop from index [i] on, [remaining] candidates left:
    the index at which it breaks, if it does. *)
Fixpoint pickIndex (n remaining i : nat) (randomValue : R) : option nat :=
  match remaining with
  | O => None
  | S remaining' =>
      let weight := INR (n - i) in
      let randomValue' := randomValue - weight in
      if Num.leb randomValue' 0 then Some i
      else pickIndex n remaining' (S i) randomValue'
  end.

(** Weighted choice with the draw [u]; [None] when there is no candidate
    ([selectedPhoto] is then undefined and reading it throws). *)
Definition selectPhoto (u : R) (candidates : list PhotoDistance)
  : option PhotoDistance :=
  let n := List.length candidates in
  let randomValue := u * totalWeight n in
  match pickIndex n n 0 randomValue with
  | Some i => nth_error candidates i
  | None => nth_error candidates 0
  end.

(** [push] and, beyond the capacity, [shift]. *)
Definition pushRecent (recent : list nat) (textureIndex : nat) : list nat :=
  let pushed := recent ++ [textureIndex] in
  if (MAX_RECENT_HISTORY <? List.length pushed)%nat then tl pushed else pushed.

(** [handPosition && handPosition.isPinching === true]. *)
Definition pinchIntent (hand : option Gesture.HandPosition) : bool :=
  match hand with
  | Some h => Gesture.isPinching h
  | None => false
  end.

(** The test that guards the opening of a photo. *)
Definition openGuard (now : Z) (hand : option Gesture.HandPosition) (st : State) : bool :=
  (pinchCooldownUntil st <=? now)%Z && pinchIntent hand
  && negb (isLightboxOpen st) && negb (hasPinched st).

(** What a frame reads besides the state: the clock, the hand, the
    camera position, the positions of the children of the photo group
    ([None] while the group ref is empty), the number of photos and the
    draw of the selection. *)
Record FrameInput : Type := {
  now : Z;
  hand : option Gesture.HandPosition;
  camera : Vector3;
  photoGroup : option (list Vector3);
  photosLength : nat;
  draw : R
}.

Definition sortedOf (i : FrameInput) (children : list Vector3) : list PhotoDistance :=
  sortByDistance (photoDistances (camera i) children (photosLength i)).

Definition candidatesOf (i : FrameInput) (children : list Vector3) (st : State)
  : list PhotoDistance :=
  candidatePhotos (recentlyViewedPhotos st) (nearestPhotos (sortedOf i children)).

(** The opening of a photo (first block of the frame callback); [None]
    when it throws. *)
Definition openBlock (i : FrameInput) (st : State) : option State :=
  if openGuard (now i) (hand i) st then
    match photoGroup i with
    | None => Some st
    | Some children =>
        match selectPhoto (draw i) (candidatesOf i children st) with
        | None => None
        | Some selectedPhoto =>
            let textureIndex := pd_textureIndex selectedPhoto in
            Some {| isLightboxOpen := true;
                    lightboxPhotoIndex := Some textureIndex;
                    hasPinched := true;
                    pinchCooldownUntil := pinchCooldownUntil st;
                    fireworkTrigger := fireworkTrigger st;
                    prevSceneState := prevSceneState st;
                    fadeOutTimer := false;
                    recentlyViewedPhotos :=
                      pushRecent (recentlyViewedPhotos st) textureIndex;
                    lightboxOpacity := 0 |}
        end
    end
  else Some st.

(** The release of the pinch (second block); [wasOpen] is the value of
    [isLightboxOpen] the callback was created with. *)
Definition closeBlock (i : FrameInput) (wasOpen : bool) (st : State) : State :=
  if negb (pinchIntent (hand i)) then
    let starts := wasOpen && negb (fadeOutTimer st) in
    {| isLightboxOpen := isLightboxOpen st;
       lightboxPhotoIndex := lightboxPhotoIndex st;
       hasPinched := false;
       pinchCooldownUntil := pinchCooldownUntil st;
       fireworkTrigger := fireworkTrigger st;
       prevSceneState := prevSceneState st;
       fadeOutTimer := if starts then true else fadeOutTimer st;
       recentlyViewedPhotos := recentlyViewedPhotos st;
       lightboxOpacity := if starts then 0 else lightboxOpacity st |}
  else st.

(** The frame callback of [Experience] (lightbox part). *)
Definition useFrame (i : FrameInput) (st : State) : option State :=
  match openBlock i st with
  | None => None
  | Some st1 => Some (closeBlock i (isLightboxOpen st) st1)
  end.

(** The timers. *)
Definition fadeOutFires (st : State) : State :=
  if fadeOutTimer st then
    {| isLightboxOpen := false; lightboxPhotoIndex := None;
       hasPinched := hasPinched st;
       pinchCooldownUntil := pinchCooldownUntil st;
       fireworkTrigger := fireworkTrigger st;
       prevSceneState := prevSceneState st;
       fadeOutTimer := false;
       recentlyViewedPhotos := recentlyViewedPhotos st;
       lightboxOpacity := lightboxOpacity st |}
  else st.

Definition fadeInFires (st : State) : State :=
  {| isLightboxOpen := isLightboxOpen st;
     lightboxPhotoIndex := lightboxPhotoIndex st;
     hasPinched := hasPinched st;
     pinchCooldownUntil := pinchCooldownUntil st;
     fireworkTrigger := fireworkTrigger st;
     prevSceneState := prevSceneState st;
     fadeOutTimer := fadeOutTimer st;
     recentlyViewedPhotos := recentlyViewedPhotos st;
     lightboxOpacity := 1 |}.

Definition fireworkResetFires (st : State) : State :=
  {| isLightboxOpen := isLightboxOpen st;
     lightboxPhotoIndex := lightboxPhotoIndex st;
     hasPinched := hasPinched st;
     pinchCooldownUntil := pinchCooldownUntil st;
     fireworkTrigger := false;
     prevSceneState := prevSceneState st;
     fadeOutTimer := fadeOutTimer st;
     recentlyViewedPhotos := recentlyViewedPhotos st;
     lightboxOpacity := lightboxOpacity st |}.

(** What can happen to the mounted component. *)
Inductive Event : Type :=
| Frame (i : FrameInput)
| SceneChange (at_ : Z) (sceneState : SceneState)
| FadeOutFires
| FadeInFires
| FireworkResetFires.

Definition step (st : State) (e : Event) : option State :=
  match e with
  | Frame i => useFrame i st
  | SceneChange t s => Some (sceneEffect t s st)
  | FadeOutFires => Some (fadeOutFires st)
  | FadeInFires => Some (fadeInFires st)
  | FireworkResetFires => Some (fireworkResetFires st)
  end.

Fixpoint run (st : State) (events : list Event) : option State :=
  match events with
  | [] => Some st
  | e :: rest => match step st e with
                 | None => None
                 | Some st1 => run st1 rest
                 end
  end.

(** The lightbox goes from closed to opening on this frame. *)
Definition opens (st : State) (result : option State) : Prop :=
  isLightboxOpen st = false
  /\ exists st1, result = Some st1 /\ isLightboxOpen st1 = true.

(** An event of the first 650 ms after a mount at [t0]. *)
Definition early (t0 : Z) (e : Event) : Prop :=
  match e with
  | Frame i => (now i < t0 + pinchCooldown)%Z
  | SceneChange t _ => (t0 <= t)%Z
  | _ => True
  end.

(** Closed, nothing selected, and the cooldown not before [t0 + 650]. *)
Definition still_cooling (t0 : Z) (st : State) : Prop :=
  isLightboxOpen st = false /\ lightboxPhotoIndex st = None
  /\ (t0 + pinchCooldown <= pinchCooldownUntil st)%Z.

(** Cumulated weight of the ranks below [k] among [n] candidates. *)
Fixpoint cumWeight (n k : nat) : R :=
  match k with
  | O => 0
  | S k' => cumWeight n k' + INR (n - k')
  end.

Definition pinchingHand : Gesture.HandPosition :=
  {| Gesture.hp_x := 0.5; Gesture.hp_y := 0.5; Gesture.hp_z := 0;
     Gesture.hp_visible := true; Gesture.hp_gesture := EmptyString;
     Gesture.isPinching := true |}.


(** A pinch in front of one ornament at the origin. *)
Definition pinchAtOrnament (t : Z) : FrameInput :=
  {| now := t; hand := Some pinchingHand; camera := mkVector3 0 8 60;
     photoGroup := Some [mkVector3 0 0 0]; photosLength := 35; draw := 0 |}.




End Experience.

(** ** Firework batches: [ParticleEffect] *)

Module Particles.

Definition maxBatches : nat := 8.
Definition spawnInterval : Z := 300.

(** A batch; the colours are visual only and left out. *)
Record Batch : Type := {
  launchPos : Vector3;
  explosionPos : Vector3;
  velocities : list Vector3;
  explosionTime : list R;
  lifetime : R;
  startTime : Z;
  isFirework : bool
}.

(** The draws of one particle and of one firework, in the order of the
    calls; [fd_launchY] is drawn in photo mode only, and [fd_particles]
    gives the draws of the particle of each index. *)
Record ParticleDraws : Type := {
  pd_theta : R; pd_phi : R; pd_speed : R; pd_delay : R
}.

Record FireworkDraws : Type := {
  fd_launchX : R; fd_launchY : R; fd_launchZ : R;
  fd_height : R; fd_speed : R;
  fd_particles : nat -> ParticleDraws
}.

(** [createFirework(isPhotoMode)] at the time [now] of [Date.now()]. *)
Definition createFirework (isPhotoMode : bool) (now : Z) (d : FireworkDraws) : Batch :=
  let count := if isPhotoMode then 400%nat else 600%nat in
  let launchX := if isPhotoMode then (fd_launchX d - 0.5) * 20
                 else (fd_launchX d - 0.5) * 30 in
  let launchY := if isPhotoMode then 5 + (fd_launchY d - 0.5) * 10 else -15 in
  let launchZ := if isPhotoMode then 45 + fd_launchZ d * 15
                 else 40 + fd_launchZ d * 20 in
  let explosionHeight := if isPhotoMode then launchY + 3 + fd_height d * 8
                         else 15 + fd_height d * 15 in
  let launchSpeed := if isPhotoMode then 15 + fd_speed d * 10
                     else 20 + fd_speed d * 15 in
  let timeToExplode := Rabs (explosionHeight - launchY) / launchSpeed in
  let velocity (p : ParticleDraws) :=
    let theta := pd_theta p * PI * 2 in
    let phi := pd_phi p * PI in
    let explosionSpeed := if isPhotoMode then 12 + pd_speed p * 20
                          else 8 + pd_speed p * 15 in
    mkVector3 (sin phi * cos theta * explosionSpeed)
              (cos phi * explosionSpeed * (if isPhotoMode then 0.4 else 0.3))
              (sin phi * sin theta * explosionSpeed) in
  {| launchPos := mkVector3 launchX launchY launchZ;
     explosionPos := mkVector3 launchX explosionHeight launchZ;
     velocities := map (fun i => velocity (fd_particles d i)) (seq 0 count);
     explosionTime :=
       map (fun i => timeToExplode + pd_delay (fd_particles d i) * 0.15) (seq 0 count);
     lifetime := timeToExplode + (if isPhotoMode then 2.5 else 3.0);
     startTime := now;
     isFirework := true |}.

(** Refs and state of the component. *)
Record State : Type := {
  particleBatches : list Batch;
  nextSpawnTime : Z;
  isActive : bool;
  effectStart : Z
}.

Definition initialState : State :=
  {| particleBatches := []; nextSpawnTime := 0; isActive := false; effectStart := 0 |}.

(** The effect of the formed tree: one firework.  The timer that switches
    the component off two seconds later ([setTimeout(() => setIsActive(false),
    2000)]) is left out: the state holds no pending timer. *)
Definition treeFormEffect (triggerTreeForm isPhotoOpen : bool) (now : Z)
           (d : FireworkDraws) (st : State) : State :=
  if triggerTreeForm && negb isPhotoOpen then
    {| particleBatches := [createFirework false now d];
       nextSpawnTime := nextSpawnTime st;
       isActive := true; effectStart := now |}
  else st.

(** The effect of the open photo: ambient fireworks start or stop. *)
Definition photoEffect (isPhotoOpen triggerTreeForm : bool) (now : Z)
           (d : FireworkDraws) (st : State) : State :=
  if isPhotoOpen then
    {| particleBatches := [createFirework true now d];
       nextSpawnTime := now;
       isActive := true; effectStart := now |}
  else if negb triggerTreeForm then
    {| particleBatches := []; nextSpawnTime := nextSpawnTime st;
       isActive := false; effectStart := effectStart st |}
  else st.

(** The test of the filter: [(now - batch.startTime) / 1000 < batch.lifetime]. *)
Definition alive (now : Z) (b : Batch) : bool :=
  Num.ltb (IZR (now - startTime b) / 1000) (lifetime b).

(** The test that guards the ambient spawn. *)
Definition spawns (isPhotoOpen : bool) (now : Z) (st : State) : bool :=
  isPhotoOpen && (nextSpawnTime st <=? now)%Z
  && (List.length (particleBatches st) <? maxBatches)%nat.

Definition spawnBlock (isPhotoOpen : bool) (now : Z) (d : FireworkDraws)
           (st : State) : State :=
  if spawns isPhotoOpen now st then
    {| particleBatches := particleBatches st ++ [createFirework true now d];
       nextSpawnTime := (now + spawnInterval)%Z;
       isActive := isActive st; effectStart := effectStart st |}
  else st.

(** The frame callback, up to the render buffer; [mounted] tells whether
    the points object exists. *)
Definition useFrame (mounted isPhotoOpen : bool) (now : Z) (d : FireworkDraws)
           (st : State) : State :=
  if negb mounted || negb (isActive st) then st
  else
    let st1 := spawnBlock isPhotoOpen now d st in
    {| particleBatches := filter (alive now) (particleBatches st1);
       nextSpawnTime := nextSpawnTime st1;
       isActive := isActive st1; effectStart := effectStart st1 |}.

(** Position of a particle [elapsed] seconds after the start of its
    batch; [None] once it is left out of the buffer. *)
Definition particlePosition (b : Batch) (elapsed : R) (velocity : Vector3)
           (tExplode : R) : option Vector3 :=
  if Num.ltb elapsed tExplode then
    let launchSpeed := (vy (explosionPos b) - vy (launchPos b)) / tExplode in
    Some (mkVector3 (vx (launchPos b))
                    (vy (launchPos b) + launchSpeed * elapsed)
                    (vz (launchPos b)))
  else
    let t := elapsed - tExplode in
    if Num.ltb t 3.0 then
      Some (mkVector3 (vx (explosionPos b) + vx velocity * t)
                      (vy (explosionPos b) + vy velocity * t + 0.5 * (-12) * t * t)
                      (vz (explosionPos b) + vz velocity * t))
    else None.

(** The position buffer of a frame. *)
Definition allPositions (now : Z) (batches : list Batch) : list Vector3 :=
  flat_map
    (fun b =>
       let elapsed := IZR (now - startTime b) / 1000 in
       flat_map (fun vt => match particlePosition b elapsed (fst vt) (snd vt) with
                           | Some p => [p]
                           | None => []
                           end)
                (combine (velocities b) (explosionTime b)))
    batches.

(** Ambient frames at the given times, all with the same draws. *)
Definition ambientFrames (d : FireworkDraws) (times : list Z) (st : State) : State :=
  fold_left (fun s t => useFrame true true t d s) times st.

(** A firework with all draws of 1/2. *)
Definition halfFirework : FireworkDraws :=
  {| fd_launchX := 1/2; fd_launchY := 1/2; fd_launchZ := 1/2;
     fd_height := 1/2; fd_speed := 1/2;
     fd_particles := fun _ => {| pd_theta := 1/2; pd_phi := 1/2;
                                 pd_speed := 1/2; pd_delay := 1/2 |} |}.

(** The photo has been open since time 0 and a frame has come every
    300 ms up to 1800 ms. *)
Definition crowded : State :=
  ambientFrames halfFirework [0; 300; 600; 900; 1200; 1500; 1800]%Z
                (photoEffect true false 0 halfFirework initialState).

(** Ambient state whose batches were started at the times [starts]. *)
Definition stateWith (starts : list Z) (next : Z) : State :=
  {| particleBatches := map (fun t => createFirework true t halfFirework) starts;
     nextSpawnTime := next; isActive := true; effectStart := 0 |}.

(** The draws of a firework are draws of [Math.random()]. *)
Definition unit_draws (d : FireworkDraws) : Prop :=
  Num.unit_draw (fd_launchX d) /\ Num.unit_draw (fd_launchY d)
  /\ Num.unit_draw (fd_launchZ d) /\ Num.unit_draw (fd_height d)
  /\ Num.unit_draw (fd_speed d).

End Particles.

(** ** The component of the photo ornaments *)

Module PhotoOrnamentsComponent.

(** What a render returns and what it did on the way: the textures it
    asked [useTexture] for and the entities it built. *)
Inductive Element : Type :=
| Null
| Group (children : list Animator.OrnamentData).

Record Render : Type := {
  element : Element;
  texturesRequested : list string;
  entitiesBuilt : nat
}.

(** [PhotoOrnaments]: the guard for a missing or empty photo list comes
    before [useTexture] and before the [data] memo. *)
Definition PhotoOrnaments (photos : option (list string))
           (draws : nat -> Animator.OrnamentDraws) : Render :=
  match photos with
  | None | Some [] =>
      {| element := Null; texturesRequested := []; entitiesBuilt := 0 |}
  | Some photos =>
      let textures := photos in
      let count := CONFIG.counts_ornaments in
      let data := map (fun i => Animator.mkOrnament (List.length textures) i (draws i))
                      (seq 0 count) in
      {| element := Group data; texturesRequested := textures;
         entitiesBuilt := List.length data |}
  end.

(** The children the photo group ref gives to [Experience]. *)
Definition photoGroupOf (r : Render) : option (list Vector3) :=
  match element r with
  | Null => None
  | Group data => Some (map Animator.o_currentPos data)
  end.

End PhotoOrnamentsComponent.

(** ** Foliage progress: [MathUtils.damp] and [Foliage.useFrame] *)

Module MathUtils.

(** [MathUtils.lerp(x, y, t)] of three.js: [(1 - t) * x + t * y]. *)
Definition lerp (x y t : R) : R := (1 - t) * x + t * y.

(** [MathUtils.damp(x, y, lambda, dt)] of three.js:
    [lerp(x, y, 1 - Math.exp(-lambda * dt))]. *)
Definition damp (x y lambda dt : R) : R := lerp x y (1 - exp (- lambda * dt)).

End MathUtils.

Module Foliage.

(** The uniforms of the foliage material the frame callback writes. *)
Record Material : Type := { uTime : R; uProgress : R }.

(** [shaderMaterial({ uTime: 0, ..., uProgress: 0 })]. *)
Definition initialMaterial : Material := {| uTime := 0; uProgress := 0 |}.

Definition targetProgress (state : SceneState) : R :=
  if SceneState_eqb state FORMED then 1 else 0.

(** [Foliage.useFrame]; [mounted] tells whether [materialRef.current] is
    set. *)
Definition useFrame (mounted : bool) (state : SceneState)
           (elapsedTime delta : R) (m : Material) : Material :=
  if mounted then
    {| uTime := elapsedTime;
       uProgress := MathUtils.damp (uProgress m) (targetProgress state) 1.5 delta |}
  else m.

(** A frame of the render loop: the scene state of the render, the clock
    and the time step. *)
Record FrameInput : Type := { f_state : SceneState; f_elapsed : R; f_delta : R }.

Definition run (frames : list FrameInput) (m : Material) : Material :=
  fold_left (fun m f => useFrame true (f_state f) (f_elapsed f) (f_delta f) m)
            frames m.

(** Sum of the time steps of the frames. *)
Definition totalDelta (frames : list FrameInput) : R :=
  fold_right (fun f acc => f_delta f + acc) 0 frames.

End Foliage.

(** ** Runs of the population animators *)

Module AnimatorRuns.

(** A frame of the render loop: the scene state of the render and the time
    step. *)
Record FrameInput : Type := { f_state : SceneState; f_delta : R }.

Definition ornamentsRun (frames : list FrameInput) (data : list Animator.OrnamentData)
  : list Animator.OrnamentData :=
  fold_left (fun d f => Animator.PhotoOrnaments_useFrame true (f_state f) (f_delta f) d)
            frames data.

Definition elementsRun (frames : list FrameInput) (data : list Animator.SmallData)
  : list Animator.SmallData :=
  fold_left (fun d f => Animator.ChristmasElements_useFrame true (f_state f) (f_delta f) d)
            frames data.

Definition lightsRun (frames : list FrameInput) (data : list Animator.SmallData)
  : list Animator.SmallData :=
  fold_left (fun d f => Animator.FairyLights_useFrame true (f_state f) (f_delta f) d)
            frames data.

(** [x] lies on the closed segment from [p] to [q]. *)
Definition on_segment (p q x : Vector3) : Prop :=
  exists s : R, 0 <= s <= 1 /\ x = lerp p q s.

(** The time step keeps every interpolation factor within [[0, 1]]. *)
Definition gentle (f : FrameInput) : Prop := 0 <= f_delta f <= 1 / 2.

(** [n] frames of the same scene state and time step. *)
Definition steady (state : SceneState) (delta : R) (n : nat) : list FrameInput :=
  repeat {| f_state := state; f_delta := delta |} n.

(** Squared distance of a point from the axis of the tree. *)
Definition radial2 (v : Vector3) : R := vx v * vx v + vz v * vz v.

(** The draws of an ornament are draws of [Math.random()]. *)
Definition unit_ornament_draws (d : Animator.OrnamentDraws) : Prop :=
  Num.unit_draw (Animator.od_yRandom d) /\ Num.unit_draw (Animator.od_chaosX d)
  /\ Num.unit_draw (Animator.od_chaosZ d) /\ Num.unit_draw (Animator.od_y d)
  /\ Num.unit_draw (Animator.od_theta d) /\ Num.unit_draw (Animator.od_formedScale d)
  /\ Num.unit_draw (Animator.od_weight d) /\ Num.unit_draw (Animator.od_rotX d)
  /\ Num.unit_draw (Animator.od_rotY d) /\ Num.unit_draw (Animator.od_rotZ d)
  /\ Num.unit_draw (Animator.od_wobbleOffset d)
  /\ Num.unit_draw (Animator.od_wobbleSpeed d).

(** An ornament as the animator keeps it: the weight of its construction
    and a position on the segment from chaos to target. *)
Definition ornament_ok (o : Animator.OrnamentData) : Prop :=
  0.8 <= Animator.o_weight o < 2
  /\ on_segment (Animator.o_chaosPos o) (Animator.o_targetPos o)
                (Animator.o_currentPos o).

Definition small_ok (e : Animator.SmallData) : Prop :=
  on_segment (Animator.s_chaosPos e) (Animator.s_targetPos e)
             (Animator.s_currentPos e).








End AnimatorRuns.

(** ** Runs of the firework batches *)

Module ParticleRuns.

(** A frame of [ParticleEffect.useFrame]: the value of [isPhotoOpen] of the
    render, the clock and the draws of a firework it may create. *)
Record FrameInput : Type := {
  f_open : bool; f_now : Z; f_draws : Particles.FireworkDraws
}.

Definition run (frames : list FrameInput) (st : Particles.State) : Particles.State :=
  fold_left (fun s f => Particles.useFrame true (f_open f) (f_now f) (f_draws f) s)
            frames st.

(** The clock of the last frame. *)
Definition lastTime (frames : list FrameInput) : Z := last (map f_now frames) 0%Z.

(** The delays of the particles are draws of [Math.random()]. *)
Definition unit_particles (d : Particles.FireworkDraws) : Prop :=
  forall i, Num.unit_draw (Particles.pd_delay (Particles.fd_particles d i)).

(** Number of particles of a firework. *)
Definition particleCount (isPhotoMode : bool) : nat :=
  if isPhotoMode then 400%nat else 600%nat.

(** The two effects of the component, in the order of their definition;
    both depend on [triggerTreeForm] and [isPhotoOpen], so both run when
    either changes. *)
Definition propsEffect (triggerTreeForm isPhotoOpen : bool) (now : Z)
           (d1 d2 : Particles.FireworkDraws) (st : Particles.State)
  : Particles.State :=
  Particles.photoEffect isPhotoOpen triggerTreeForm now d2
    (Particles.treeFormEffect triggerTreeForm isPhotoOpen now d1 st).

(** Delay after which [Experience] lowers [fireworkTrigger] again. *)
Definition triggerPulse : Z := 100.

End ParticleRuns.

(** ** States and events of the lightbox *)

Module Lightbox.


(** The hand keeps pinching on every frame among the events. *)
Definition pinchHeld (e : Experience.Event) : Prop :=
  match e with
  | Experience.Frame i => Experience.pinchIntent (Experience.hand i) = true
  | _ => True
  end.

(** The event is a frame. *)
Definition isFrame (e : Experience.Event) : Prop :=
  match e with
  | Experience.Frame _ => True
  | _ => False
  end.

(** Every frame among the events sees [n] photos. *)
Definition photosAre (n : nat) (e : Experience.Event) : Prop :=
  match e with
  | Experience.Frame i => Experience.photosLength i = n
  | _ => True
  end.

(** The photo indexes the state holds are below [n]. *)
Definition indexesBelow (n : nat) (st : Experience.State) : Prop :=
  (forall k, Experience.lightboxPhotoIndex st = Some k -> (k < n)%nat)
  /\ Forall (fun k => (k < n)%nat) (Experience.recentlyViewedPhotos st).

(** A lightbox that shows the first photo, and a frame without a hand. *)
Definition showing : Experience.State :=
  {| Experience.isLightboxOpen := true;
     Experience.lightboxPhotoIndex := Some 0%nat;
     Experience.hasPinched := true;
     Experience.pinchCooldownUntil := 800;
     Experience.fireworkTrigger := false;
     Experience.prevSceneState := CHAOS;
     Experience.fadeOutTimer := false;
     Experience.recentlyViewedPhotos := [0%nat];
     Experience.lightboxOpacity := 1 |}.

Definition noHand (t : Z) : Experience.FrameInput :=
  {| Experience.now := t; Experience.hand := None;
     Experience.camera := mkVector3 0 8 60;
     Experience.photoGroup := Some [mkVector3 0 0 0];
     Experience.photosLength := 35; Experience.draw := 0 |}.

End Lightbox.

(** ** What a frame of the gesture loop leaves in the application *)

Module GestureRuns.

Import Gesture.

(** The wrist of the first hand, [results.landmarks?.[0][0]]. *)
Definition wristOfResults (results : GestureRecognizerResult)
  : option NormalizedLandmark :=
  match landmarks results with
  | Some ((w :: _) :: _) => Some w
  | _ => None
  end.

Definition wristOf (f : Frame) : option NormalizedLandmark :=
  match recognition f with
  | Recognized results => wristOfResults results
  | Failed _ => None
  end.

(** What each kind of callback leaves in the state of [GrandTreeApp]. *)
Definition speedOf (v : R) (e : Event) : R :=
  match e with OnMove v' => v' | _ => v end.
Definition handOf (h : HandPosition) (e : Event) : HandPosition :=
  match e with OnHandPosition h' => h' | _ => h end.
Definition statusOf (m : string) (e : Event) : string :=
  match e with OnStatus m' => m' | _ => m end.

(** The callbacks of the label stage and of the debug display. *)
Definition labelEvent (debugMode : bool) (e : Event) : Prop :=
  match e with
  | OnGesture _ => True
  | OnStatus _ => debugMode = true
  | _ => False
  end.

(** The message the [catch] block receives on this frame, if any. *)
Definition failure (debugMode : bool) (r : Refs) (f : Frame) : option string :=
  if videoReady f then
    match recognition f with
    | Failed msg => Some msg
    | Recognized results =>
        match tryBlock debugMode r results with
        | Thrown msg _ _ => Some msg
        | Done _ _ _ => None
        end
    end
  else None.

(** The refs the [catch] block leaves. *)
Definition failedRefs (msg : string) : Refs :=
  {| lastGesture := EmptyString; gestureStableCount := 0; pinchState := false;
     pinchChangeStableCount := 0; lastRuntimeError := msg |}.

(** The pinch the application sees is the pinch the controller holds, and
    a hidden hand does not pinch. *)
Definition linked (st : Refs * App) : Prop :=
  isPinching (handPosition (snd st)) = pinchState (fst st)
  /\ (hp_visible (handPosition (snd st)) = false ->
      isPinching (handPosition (snd st)) = false).

(** The recognizer throws. *)
Definition brokenFrame (msg : string) : Frame :=
  {| videoReady := true; recognition := Failed msg |}.

End GestureRuns.

(** ** The photos the ornaments carry *)

Module PhotoCoverage.

(** The ornaments a render built. *)
Definition ornamentsOf (r : PhotoOrnamentsComponent.Render)
  : list Animator.OrnamentData :=
  match PhotoOrnamentsComponent.element r with
  | PhotoOrnamentsComponent.Null => []
  | PhotoOrnamentsComponent.Group data => data
  end.

(** Some ornament carries the photo of index [k]. *)
Definition shown (r : PhotoOrnamentsComponent.Render) (k : nat) : Prop :=
  exists o, In o (ornamentsOf r) /\ Animator.o_textureIndex o = k.

End PhotoCoverage.

(** ** Photos kept in the browser: the local key-value store *)

Module LocalPhotos.

(** What the store holds under the key [localPhotosV1]: nothing, an array
    of strings, or a value that is no array. *)
Inductive Stored : Type :=
| Absent
| Photos (value : list string)
| NotAnArray.

(** A request to IndexedDB succeeds or fails; [ok] tells which, for the
    request of the call.  [None] is a rejected promise. *)
Definition localKvGet (ok : bool) (store : Stored) : option Stored :=
  if ok then Some store else None.

Definition localKvSet (ok : bool) (value : list string) (store : Stored)
  : option unit * Stored :=
  if ok then (Some tt, Photos value) else (None, store).

Definition localKvDelete (ok : bool) (store : Stored) : option unit * Stored :=
  if ok then (Some tt, Absent) else (None, store).

(** What the [FileReader] does with a file: it loads it, with a result
    that may be missing, or it reports an error. *)
Inductive File : Type :=
| Loaded (result : option string)
| Unreadable.

(** [String(reader.result || '')], or a rejection. *)
Definition readFileAsDataUrl (file : File) : option string :=
  match file with
  | Loaded (Some url) => Some url
  | Loaded None => Some EmptyString
  | Unreadable => None
  end.

(** [Promise.all(files.map(readFileAsDataUrl))]. *)
Fixpoint readAll (files : list File) : option (list string) :=
  match files with
  | [] => Some []
  | file :: rest =>
      match readFileAsDataUrl file, readAll rest with
      | Some url, Some urls => Some (url :: urls)
      | _, _ => None
      end
  end.

(** [filter(Boolean)] on strings keeps the non-empty ones. *)
Definition truthy (s : string) : bool :=
  match s with EmptyString => false | _ => true end.

(** [getLocalPhotos] never rejects. *)
Definition getLocalPhotos (getOk : bool) (store : Stored) : list string :=
  match localKvGet getOk store with
  | Some (Photos value) => value
  | _ => []
  end.

Definition addLocalPhotos (getOk setOk : bool) (files : list File) (store : Stored)
  : option (list string) * Stored :=
  let existing := getLocalPhotos getOk store in
  match readAll files with
  | None => (None, store)
  | Some urls =>
      let dataUrls := filter truthy urls in
      let next := dataUrls ++ existing in
      match localKvSet setOk next store with
      | (Some _, store1) => (Some next, store1)
      | (None, store1) => (None, store1)
      end
  end.

Definition deleteLocalPhoto (getOk setOk : bool) (photoUrl : string) (store : Stored)
  : option (list string) * Stored :=
  let existing := getLocalPhotos getOk store in
  let next := filter (fun u => negb (String.eqb u photoUrl)) existing in
  match localKvSet setOk next store with
  | (Some _, store1) => (Some next, store1)
  | (None, store1) => (None, store1)
  end.

Definition resetLocalPhotos (ok : bool) (store : Stored) : option unit * Stored :=
  localKvDelete ok store.

(** Files the reader loads with the given data URLs. *)
Definition loaded (urls : list string) : list File :=
  map (fun url => Loaded (Some url)) urls.

End LocalPhotos.

(** ** The photo list of [GrandTreeApp] *)

Module PhotoList.

Definition TOTAL_NUMBERED_PHOTOS : nat := 34.

(** A number in a template string. *)
Definition decimal (n : nat) : string := NilZero.string_of_uint (Nat.to_uint n).

Definition asset (BASE_URL p : string) : string := String.append BASE_URL p.

(** The default photos: [top.jpg] and [1.jpg] to [34.jpg]. *)
Definition numberedPhoto (i : nat) : string :=
  String.append "backup_photos/" (String.append (decimal (i + 1)) ".jpg").

Definition bodyPhotoPaths (BASE_URL : string) : list string :=
  asset BASE_URL "backup_photos/top.jpg"
  :: map (fun i => asset BASE_URL (numberedPhoto i)) (seq 0 TOTAL_NUMBERED_PHOTOS).

(** [new Set(merged)]: the elements are inserted in order, and
    [Array.from] lists them in the order of insertion. *)
Definition setAdd (set : list string) (x : string) : list string :=
  if existsb (String.eqb x) set then set else set ++ [x].

Definition setFrom (l : list string) : list string := fold_left setAdd l [].

(** [Array.from(new Set(merged)).filter(Boolean)]. *)
Definition dedupe (merged : list string) : list string :=
  filter LocalPhotos.truthy (setFrom merged).

(** The answer to [fetch(api/photos)] once parsed: the request or the
    parsing fails, or the JSON value is an array of names or something
    else. *)
Inductive Response : Type :=
| FetchFailed
| Json (files : option (list string)).

(** [fetchPhotos]: the list given to [setPhotos].  [getLocalPhotos] never
    rejects, so the two [catch] handlers behind it are never run. *)
Definition fetchPhotos (BASE_URL : string) (response : Response) (timestamp : nat)
           (getOk : bool) (store : LocalPhotos.Stored) : list string :=
  let local := LocalPhotos.getLocalPhotos getOk store in
  match response with
  | Json files =>
      let serverPaths :=
        match files with
        | Some fs =>
            map (fun f => String.append BASE_URL
                            (String.append f (String.append "?t=" (decimal timestamp))))
                fs
        | None => []
        end in
      let merged :=
        local ++ (if (0 <? List.length serverPaths)%nat then serverPaths else [])
              ++ bodyPhotoPaths BASE_URL in
      dedupe merged
  | FetchFailed => dedupe (local ++ bodyPhotoPaths BASE_URL)
  end.

End PhotoList.

(** ** Deleting a photo: [PhotoManager.handleDelete] *)

Module PhotoManager.

(** [s.includes(sub)]. *)
Fixpoint includes (s sub : string) : bool :=
  if String.prefix sub s then true
  else match s with
       | EmptyString => false
       | String _ s' => includes s' sub
       end.

(** [s.split(c)] for a separator of one character. *)
Fixpoint split (c : ascii) (s : string) : list string :=
  match s with
  | EmptyString => [EmptyString]
  | String a s' =>
      if Ascii.eqb a c then EmptyString :: split c s'
      else match split c s' with
           | h :: t => String a h :: t
           | [] => [String a EmptyString]
           end
  end.

(** What the handler does: it refuses, it is not confirmed, it deletes
    from the local store, it finds no file name, or it sends a [DELETE]
    request for a file name. *)
Inductive Outcome : Type :=
| DefaultPhotoRefused
| NotConfirmed
| LocalDelete (photoUrl : string)
| NoFilename
| ServerDelete (filename : string).

(** The URL of the request of a [ServerDelete]:
    [`${BASE_URL}api/photos?filename=${filename}`].  The name goes into the
    query as it is, without [encodeURIComponent]; what the server reads
    from the query is not modelled. *)
Definition requestUrl (BASE_URL filename : string) : string :=
  String.append BASE_URL (String.append "api/photos?filename=" filename).

Definition requestOf (BASE_URL : string) (o : Outcome) : option string :=
  match o with
  | ServerDelete filename => Some (requestUrl BASE_URL filename)
  | _ => None
  end.

Definition filenameOf (photoUrl : string) : string :=
  last (split "/" (hd EmptyString (split "?" photoUrl))) EmptyString.

Definition handleDelete (confirm : bool) (photoUrl : string) : Outcome :=
  if includes photoUrl "backup_photos" || includes photoUrl "top.jpg"
  then DefaultPhotoRefused
  else if negb confirm then NotConfirmed
  else if String.prefix "data:" photoUrl then LocalDelete photoUrl
  else
    let filename := filenameOf photoUrl in
    if LocalPhotos.truthy filename then ServerDelete filename else NoFilename.

(** The character [c] does not occur in [s]. *)
Fixpoint without (c : ascii) (s : string) : Prop :=
  match s with
  | EmptyString => True
  | String a s' => a <> c /\ without c s'
  end.

(** The URL [fetchPhotos] builds for the file [f] of a directory. *)
Definition serverUrl (BASE_URL dir f query : string) : string :=
  String.append BASE_URL
    (String.append dir (String "/" (String.append f (String "?" query)))).

End PhotoManager.

(** ** The canvas fireworks behind the lightbox: [ClassicFireworksBackdrop] *)

Module Backdrop.

(** [config]. *)
Definition density : nat := 160.
Definition speed : R := 10.
Definition gravity : R := 0.12.
Definition maxFireworks : nat := 14.
Definition spawnInterval : R := 180.

(** A particle; colour, size and trail are used for drawing only and are
    left out. *)
Record Particle : Type := {
  p_x : R; p_y : R; p_vx : R; p_vy : R; p_alpha : R; p_decay : R
}.

(** [new Particle(x, y, color, velocity)] with the draw of the decay. *)
Definition Particle_new (x y vx vy decayDraw : R) : Particle :=
  {| p_x := x; p_y := y; p_vx := vx; p_vy := vy;
     p_alpha := 1; p_decay := decayDraw * 0.02 + 0.01 |}.

Definition Particle_update (p : Particle) : Particle :=
  let vy := p_vy p + gravity in
  {| p_x := p_x p + p_vx p; p_y := p_y p + vy; p_vx := p_vx p; p_vy := vy;
     p_alpha := p_alpha p - p_decay p; p_decay := p_decay p |}.

Definition Particle_isDead (p : Particle) : bool := Num.leb (p_alpha p) 0.

Record Firework : Type := {
  f_x : R; f_y : R; f_targetY : R; f_vy : R;
  f_exploded : bool; f_particles : list Particle
}.

(** The draws of an explosion, by index of the particle. *)
Record ExplosionDraws : Type := {
  ed_speed : nat -> R;
  ed_decay : nat -> R
}.

Definition explode (f : Firework) (d : ExplosionDraws) : Firework :=
  let particleCount := density in
  {| f_x := f_x f; f_y := f_y f; f_targetY := f_targetY f; f_vy := f_vy f;
     f_exploded := true;
     f_particles :=
       f_particles f
       ++ map (fun i =>
                 let angle := (PI * 2 * INR i) / INR particleCount in
                 let speed := ed_speed d i * 7 + 3 in
                 Particle_new (f_x f) (f_y f) (cos angle * speed) (sin angle * speed)
                              (ed_decay d i))
              (seq 0 particleCount) |}.

(** [new Firework(x, y, instantExplode)]. *)
Definition Firework_new (x y : R) (instantExplode : bool) (innerHeight : R)
           (d : ExplosionDraws) : Firework :=
  if instantExplode then
    explode {| f_x := x; f_y := y; f_targetY := y; f_vy := 0;
               f_exploded := true; f_particles := [] |} d
  else
    {| f_x := x; f_y := innerHeight; f_targetY := y; f_vy := - speed;
       f_exploded := false; f_particles := [] |}.

(** [particles.filter(p => { p.update(); return !p.isDead() })]. *)
Definition updateParticles (ps : list Particle) : list Particle :=
  filter (fun p => negb (Particle_isDead p)) (map Particle_update ps).

Definition Firework_update (d : ExplosionDraws) (f : Firework) : Firework :=
  if negb (f_exploded f) then
    let vy := f_vy f + 0.05 in
    let y := f_y f + vy in
    let f1 := {| f_x := f_x f; f_y := y; f_targetY := f_targetY f; f_vy := vy;
                 f_exploded := f_exploded f; f_particles := f_particles f |} in
    if Num.leb y (f_targetY f) then explode f1 d else f1
  else
    {| f_x := f_x f; f_y := f_y f; f_targetY := f_targetY f; f_vy := f_vy f;
       f_exploded := f_exploded f;
       f_particles := updateParticles (f_particles f) |}.

Definition Firework_isDead (f : Firework) : bool :=
  f_exploded f && (List.length (f_particles f) =? 0)%nat.

(** The list of fireworks and the time of the last spawn. *)
Record State : Type := {
  fireworks : list Firework;
  lastSpawnAt : R
}.

(** The draws of a spawn. *)
Record SpawnDraws : Type := {
  sd_x : R; sd_y : R; sd_explosion : ExplosionDraws
}.

Definition spawn (innerWidth innerHeight : R) (d : SpawnDraws) (st : State) : State :=
  let x := sd_x d * innerWidth in
  let y := innerHeight * (0.15 + sd_y d * 0.6) in
  let pushed := fireworks st ++ [Firework_new x y true innerHeight (sd_explosion d)] in
  {| fireworks := if (maxFireworks <? List.length pushed)%nat then tl pushed else pushed;
     lastSpawnAt := lastSpawnAt st |}.

(** What a frame reads: the time stamp, the size of the window, the draws
    of its spawn and the draws of the explosions its updates start, by
    index in the list. *)
Record FrameInput : Type := {
  t : R; innerWidth : R; innerHeight : R;
  spawnDraws : SpawnDraws;
  explosionDraws : nat -> ExplosionDraws
}.

(** [animate], without the drawing. *)
Definition animate (i : FrameInput) (st : State) : State :=
  let st1 :=
    if Num.gtb (t i - lastSpawnAt st) spawnInterval
    then spawn (innerWidth i) (innerHeight i) (spawnDraws i)
               {| fireworks := fireworks st; lastSpawnAt := t i |}
    else st in
  {| fireworks :=
       filter (fun f => negb (Firework_isDead f))
              (map (fun kf => Firework_update (explosionDraws i (fst kf)) (snd kf))
                   (combine (seq 0 (List.length (fireworks st1))) (fireworks st1)));
     lastSpawnAt := lastSpawnAt st1 |}.

(** The effect that starts the backdrop: an empty list and three spawns. *)
Definition start (innerWidth innerHeight : R) (d1 d2 d3 : SpawnDraws) : State :=
  spawn innerWidth innerHeight d3
    (spawn innerWidth innerHeight d2
       (spawn innerWidth innerHeight d1 {| fireworks := []; lastSpawnAt := 0 |})).

Definition run (st : State) (frames : list FrameInput) : State :=
  fold_left (fun s i => animate i s) frames st.

(** [n] updates of a particle, of a list of particles, of a firework. *)
Definition particleAfter (n : nat) (p : Particle) : Particle :=
  Nat.iter n Particle_update p.
Definition particlesAfter (n : nat) (ps : list Particle) : list Particle :=
  Nat.iter n updateParticles ps.
Definition fireworkAfter (n : nat) (d : ExplosionDraws) (f : Firework) : Firework :=
  Nat.iter n (Firework_update d) f.

(** The draws of an explosion are draws of [Math.random()]. *)
Definition unit_explosion (d : ExplosionDraws) : Prop :=
  forall i, Num.unit_draw (ed_speed d i) /\ Num.unit_draw (ed_decay d i).

(** What holds of the list of fireworks after every frame. *)
Definition bounded (st : State) : Prop :=
  (List.length (fireworks st) <= maxFireworks)%nat
  /\ Forall (fun f => f_exploded f = true
                      /\ (List.length (f_particles f) <= density)%nat
                      /\ Forall (fun p => 0 < p_alpha p) (f_particles f))
            (fireworks st).

Definition half_explosion : ExplosionDraws :=
  {| ed_speed := fun _ => 1/2; ed_decay := fun _ => 1/2 |}.

Definition half_spawn : SpawnDraws :=
  {| sd_x := 1/2; sd_y := 1/2; sd_explosion := half_explosion |}.

End Backdrop.

(** * Verified properties *)

Lemma Num_ltb_spec a b : Num.ltb a b = true <-> a < b.
Proof. unfold Num.ltb; destruct (Rlt_dec a b); split; intros; auto; discriminate. Qed.

Lemma Num_ltb_false a b : Num.ltb a b = false <-> b <= a.
Proof.
  unfold Num.ltb; destruct (Rlt_dec a b); split; intros; auto; try discriminate; lra.
Qed.

Lemma Num_leb_spec a b : Num.leb a b = true <-> a <= b.
Proof. unfold Num.leb; destruct (Rle_dec a b); split; intros; auto; discriminate. Qed.

Lemma Num_leb_false a b : Num.leb a b = false <-> b < a.
Proof.
  unfold Num.leb; destruct (Rle_dec a b); split; intros; auto; try discriminate; lra.
Qed.

Lemma Num_eqb_spec a b : Num.eqb a b = true <-> a = b.
Proof. unfold Num.eqb; destruct (Req_dec_T a b); split; intros; auto; discriminate. Qed.

Lemma Num_eqb_false a b : Num.eqb a b = false <-> a <> b.
Proof.
  unfold Num.eqb; destruct (Req_dec_T a b); split; intros; auto; try discriminate.
  contradiction.
Qed.

(** ** Interpolation toward the active target *)

Section LerpFacts.

Variables p q : Vector3.

Lemma lerp_zero : lerp p q 0 = p.
Proof. destruct p; unfold lerp; simpl; f_equal; lra. Qed.

Lemma lerp_one : lerp p q 1 = q.
Proof. destruct p, q; unfold lerp; simpl; f_equal; lra. Qed.

Lemma Vector3_eq_inv (a b : Vector3) :
  a = b -> vx a = vx b /\ vy a = vy b /\ vz a = vz b.
Proof. intros ->; auto. Qed.

End LerpFacts.

Lemma strictly_between_lerp p q s :
  0 < s < 1 -> Animator.strictly_between p q (lerp p q s).
Proof. intros Hs; exists s; auto. Qed.

(** On distinct end points the factor of a point of the segment is unique. *)
Lemma lerp_factor_unique p q a s : p <> q -> lerp p q a = lerp p q s -> a = s.
Proof.
  intros Hpq H. apply Vector3_eq_inv in H. destruct p as [px py pz], q as [qx qy qz].
  simpl in H. destruct H as (Hx & Hy & Hz).
  destruct (Req_dec_T px qx) as [Ex | Nx].
  - destruct (Req_dec_T py qy) as [Ey | Ny].
    + destruct (Req_dec_T pz qz) as [Ez | Nz].
      * exfalso; apply Hpq; subst; reflexivity.
      * assert (H0 : (qz - pz) * (a - s) = 0) by lra.
        apply Rmult_integral in H0. destruct H0; lra.
    + assert (H0 : (qy - py) * (a - s) = 0) by lra.
      apply Rmult_integral in H0. destruct H0; lra.
  - assert (H0 : (qx - px) * (a - s) = 0) by lra.
    apply Rmult_integral in H0. destruct H0; lra.
Qed.

(** The update lands on the open segment exactly when the factor handed to
    [lerp] is strictly between 0 and 1. *)
Lemma strictly_between_iff p q a :
  p <> q -> (Animator.strictly_between p q (lerp p q a) <-> 0 < a < 1).
Proof.
  intros Hpq; split.
  - intros (s & Hs & E). apply (lerp_factor_unique p q a s Hpq) in E. subst; exact Hs.
  - apply strictly_between_lerp.
Qed.

Lemma ornamentFrame_pos state delta o :
  Animator.o_currentPos (Animator.ornamentFrame state delta o)
  = lerp (Animator.o_currentPos o) (Animator.ornamentActiveTarget state o)
         (Animator.ornamentAlpha state delta o).
Proof. destruct state; reflexivity. Qed.

Lemma elementFrame_pos state delta e :
  Animator.s_currentPos (Animator.elementFrame state delta e)
  = lerp (Animator.s_currentPos e) (Animator.smallActiveTarget state e)
         (Animator.elementAlpha delta).
Proof. destruct state; reflexivity. Qed.

Lemma lightFrame_pos state delta e :
  Animator.s_currentPos (Animator.lightFrame state delta e)
  = lerp (Animator.s_currentPos e) (Animator.smallActiveTarget state e)
         (Animator.lightAlpha delta).
Proof. destruct state; reflexivity. Qed.

(** Every ornament built from draws of [Math.random()] has a weight in
    [[0.8, 2.0)]. *)
Lemma mkOrnament_weight n i d :
  Num.unit_draw (Animator.od_weight d) ->
  0.8 <= Animator.o_weight (Animator.mkOrnament n i d) < 2.
Proof. unfold Num.unit_draw; simpl; lra. Qed.

(** With frames of at most half a second every factor is in [[0, 1]]. *)
Lemma short_frame_factors state delta o :
  0 <= delta <= 1 / 2 -> 0.8 <= Animator.o_weight o < 2 ->
  0 <= Animator.ornamentAlpha state delta o <= 1
  /\ 0 <= Animator.elementAlpha delta <= 1
  /\ 0 <= Animator.lightAlpha delta <= 1.
Proof.
  intros Hd Hw.
  unfold Animator.ornamentAlpha, Animator.elementAlpha, Animator.lightAlpha.
  destruct state; repeat split; nra.
Qed.

(** The update moves the whole population, entity by entity. *)
Lemma PhotoOrnaments_useFrame_nth state delta data i o :
  nth_error data i = Some o ->
  nth_error (Animator.PhotoOrnaments_useFrame true state delta data) i
  = Some (Animator.ornamentFrame state delta o).
Proof. intros H; simpl. rewrite nth_error_map, H; reflexivity. Qed.

(** A step of the share [a] leaves the share [1 - a] of the distance. *)
Lemma lerp_distance p q a :
  a <= 1 -> distanceTo (lerp p q a) q = (1 - a) * distanceTo p q.
Proof.
  intros Ha. destruct p as [px py pz], q as [qx qy qz].
  unfold distanceTo, lerp. simpl.
  replace ((px + (qx - px) * a - qx) * (px + (qx - px) * a - qx)
           + (py + (qy - py) * a - qy) * (py + (qy - py) * a - qy)
           + (pz + (qz - pz) * a - qz) * (pz + (qz - pz) * a - qz))
    with ((1 - a) * (1 - a)
          * ((px - qx) * (px - qx) + (py - qy) * (py - qy) + (pz - qz) * (pz - qz)))
    by ring.
  assert (H1 : 0 <= (1 - a) * (1 - a)) by (apply Rle_0_sqr).
  assert (H2 : 0 <= (px - qx) * (px - qx) + (py - qy) * (py - qy)
                    + (pz - qz) * (pz - qz)).
  { pose proof (Rle_0_sqr (px - qx)) as Hx. pose proof (Rle_0_sqr (py - qy)) as Hy.
    pose proof (Rle_0_sqr (pz - qz)) as Hz. unfold Rsqr in *. lra. }
  rewrite (sqrt_mult _ _ H1 H2).
  rewrite sqrt_square by lra. reflexivity.
Qed.

Lemma bounded_step_lerp p q a :
  0 <= a <= 1 -> Animator.bounded_step a p q (lerp p q a).
Proof.
  intros Ha. split; [reflexivity|]. split.
  - exists a. split; [exact Ha | reflexivity].
  - apply lerp_distance. lra.
Qed.

Lemma Forall2_map_self (A : Type) (P : A -> A -> Prop) (f : A -> A) l :
  Forall (fun x => P x (f x)) l -> Forall2 P l (map f l).
Proof.
  induction 1 as [|x l Hx _ IH]; simpl; constructor; assumption.
Qed.

(** C1 (as amended): in each of the three populations one frame moves the
    [currentPosition] of every entity by the share [delta * rate] of the
    way to the active target, and as long as that factor is in [[0, 1]] the
    new position lies on the segment between the previous position and the
    target, its distance to the target being the share [1 - delta * rate]
    of the previous one: the update does not overshoot and does not move
    away from the target.  Nothing is said of strictness:
    a factor of 0 leaves the position where it is, a factor of 1 puts it on
    the target, and in the arithmetic of doubles a position a few units in
    the last place from its target stays where it is or lands on it
    ([Binary64]). *)
Theorem population_update_between
        (state : SceneState) (delta : R)
        (ornaments : list Animator.OrnamentData)
        (elements lights : list Animator.SmallData) :
  Forall (fun o => 0 <= Animator.ornamentAlpha state delta o <= 1) ornaments ->
  0 <= Animator.elementAlpha delta <= 1 ->
  0 <= Animator.lightAlpha delta <= 1 ->
  Forall2 (fun o o' =>
             Animator.bounded_step (Animator.ornamentAlpha state delta o)
                                   (Animator.o_currentPos o)
                                   (Animator.ornamentActiveTarget state o)
                                   (Animator.o_currentPos o'))
          ornaments
          (Animator.PhotoOrnaments_useFrame true state delta ornaments)
  /\ Forall2 (fun e e' =>
                Animator.bounded_step (Animator.elementAlpha delta)
                                      (Animator.s_currentPos e)
                                      (Animator.smallActiveTarget state e)
                                      (Animator.s_currentPos e'))
             elements
             (Animator.ChristmasElements_useFrame true state delta elements)
  /\ Forall2 (fun l l' =>
                Animator.bounded_step (Animator.lightAlpha delta)
                                      (Animator.s_currentPos l)
                                      (Animator.smallActiveTarget state l)
                                      (Animator.s_currentPos l'))
             lights
             (Animator.FairyLights_useFrame true state delta lights).
Proof.
  intros Ho He Hl.
  unfold Animator.PhotoOrnaments_useFrame, Animator.ChristmasElements_useFrame,
    Animator.FairyLights_useFrame.
  split; [|split].
  - apply Forall2_map_self. eapply Forall_impl; [|exact Ho].
    intros o Ha. rewrite ornamentFrame_pos. apply bounded_step_lerp. exact Ha.
  - apply Forall2_map_self. apply Forall_forall. intros e _.
    rewrite elementFrame_pos. apply bounded_step_lerp. exact He.
  - apply Forall2_map_self. apply Forall_forall. intros l _.
    rewrite lightFrame_pos. apply bounded_step_lerp. exact Hl.
Qed.

Lemma population_update_between_witness :
  Forall2 (fun o o' =>
             Animator.bounded_step
               (Animator.ornamentAlpha FORMED (1/2) o)
               (Animator.o_currentPos o)
               (Animator.ornamentActiveTarget FORMED o)
               (Animator.o_currentPos o'))
          [Animator.sample_ornament]
          (Animator.PhotoOrnaments_useFrame true FORMED (1/2) [Animator.sample_ornament])
  /\ Forall2 (fun e e' =>
                Animator.bounded_step (Animator.elementAlpha (1/2))
                                      (Animator.s_currentPos e)
                                      (Animator.smallActiveTarget FORMED e)
                                      (Animator.s_currentPos e'))
             [Animator.sample_element]
             (Animator.ChristmasElements_useFrame true FORMED (1/2)
                                                  [Animator.sample_element])
  /\ Forall2 (fun l l' =>
                Animator.bounded_step (Animator.lightAlpha (1/2))
                                      (Animator.s_currentPos l)
                                      (Animator.smallActiveTarget FORMED l)
                                      (Animator.s_currentPos l'))
             [Animator.sample_light]
             (Animator.FairyLights_useFrame true FORMED (1/2) [Animator.sample_light]).
Proof.
  apply (population_update_between FORMED (1/2) [Animator.sample_ornament]
                                   [Animator.sample_element] [Animator.sample_light]).
  - apply Forall_cons; [|apply Forall_nil].
    unfold Animator.ornamentAlpha; simpl; lra.
  - unfold Animator.elementAlpha; lra.
  - unfold Animator.lightAlpha; lra.
Defined.

(** C1 (as stated) fails: a fairy light built from draws of 1/2 sits at
    height -15 and aims at height 0.  A frame of one second moves it to
    height 15, past the target; a frame of half a second puts it exactly on
    the target; a frame of zero seconds leaves it where it was. *)
Lemma population_update_overshoots :
  (0 <= 1
   /\ ~ Animator.strictly_between
        (Animator.s_currentPos Animator.sample_light)
        (Animator.smallActiveTarget FORMED Animator.sample_light)
        (Animator.s_currentPos (Animator.lightFrame FORMED 1 Animator.sample_light)))
  /\ (0 <= 1 / 2
      /\ Animator.s_currentPos Animator.sample_light
         <> Animator.smallActiveTarget FORMED Animator.sample_light
      /\ Animator.s_currentPos (Animator.lightFrame FORMED (1 / 2) Animator.sample_light)
         = Animator.smallActiveTarget FORMED Animator.sample_light)
  /\ (0 <= 0
      /\ Animator.s_currentPos (Animator.lightFrame FORMED 0 Animator.sample_light)
         = Animator.s_currentPos Animator.sample_light)
  /\ vy (Animator.s_currentPos Animator.sample_light) = -15
  /\ vy (Animator.smallActiveTarget FORMED Animator.sample_light) = 0
  /\ vy (Animator.s_currentPos (Animator.lightFrame FORMED 1 Animator.sample_light)) = 15.
Proof.
  set (l := Animator.sample_light).
  set (cur := Animator.s_currentPos l).
  set (tgt := Animator.smallActiveTarget FORMED l).
  assert (Hne : cur <> tgt).
  { intros E. apply (f_equal vy) in E. simpl in E. lra. }
  repeat split; try lra.
  - rewrite lightFrame_pos. fold cur tgt.
    rewrite (strictly_between_iff cur tgt _ Hne).
    unfold Animator.lightAlpha. lra.
  - exact Hne.
  - rewrite lightFrame_pos. fold cur tgt.
    replace (Animator.lightAlpha (1 / 2)) with 1
      by (unfold Animator.lightAlpha; lra).
    apply lerp_one.
  - rewrite lightFrame_pos. fold cur tgt.
    replace (Animator.lightAlpha 0) with 0
      by (unfold Animator.lightAlpha; lra).
    apply lerp_zero.
  - simpl; lra.
  - simpl; lra.
  - simpl; lra.
Qed.

(** In doubles the approach ends short of the target: a coordinate that
    leaves 17.5 for 5.5 at 60 frames a second, with the factor of a fairy
    light, is still moving after 1000 frames, and after 1200 frames it
    rests at a value that is not the target and that a further frame
    leaves unchanged; and from the double next above the target a frame of
    half a second of a decoration (factor 0.75) lands exactly on the
    target. *)
Example lerp_in_doubles :
  PrimFloat.eqb (Binary64.afterFrames 1001) (Binary64.afterFrames 1000) = false
  /\ PrimFloat.eqb (Binary64.afterFrames 1200) Binary64.target = false
  /\ Binary64.afterFrames 1201 = Binary64.afterFrames 1200
  /\ PrimFloat.eqb Binary64.aboveTarget Binary64.target = false
  /\ Binary64.elementFrame Binary64.target Binary64.halfSecond Binary64.aboveTarget
     = Binary64.target.
Proof. repeat split; vm_compute; reflexivity. Qed.

(** ** Formed layout *)

Lemma unit_circle_radius r t :
  (r * cos t) * (r * cos t) + (r * sin t) * (r * sin t) = r * r.
Proof.
  pose proof (sin2_cos2 t) as H. unfold Rsqr in H. nra.
Qed.

(** The foliage generator is the procedure of the specification, draw by
    draw, with no offset. *)
Lemma getTreePosition_refines u_y u_theta u_r :
  Layout.getTreePosition u_y u_theta u_r = Layout.spec_conical 0 u_y u_theta u_r.
Proof.
  unfold Layout.getTreePosition, Layout.spec_conical,
    CONFIG.tree_height, CONFIG.tree_radius.
  replace (u_theta * PI * 2) with (u_theta * (2 * PI)) by lra.
  f_equal; lra.
Qed.

(** Ornaments and lights take the whole local radius (the radial draw of the
    procedure replaced by the constant 1) and add 0.5 or 0.3. *)
Lemma ornamentTarget_on_surface u_y u_theta :
  Layout.ornamentTarget u_y u_theta = Layout.spec_conical 0.5 u_y u_theta 1.
Proof.
  unfold Layout.ornamentTarget, Layout.spec_conical,
    CONFIG.tree_height, CONFIG.tree_radius.
  replace (u_theta * PI * 2) with (u_theta * (2 * PI)) by lra.
  f_equal; lra.
Qed.

Lemma lightTarget_on_surface u_y u_theta :
  Layout.lightTarget u_y u_theta = Layout.spec_conical 0.3 u_y u_theta 1.
Proof.
  unfold Layout.lightTarget, Layout.spec_conical,
    CONFIG.tree_height, CONFIG.tree_radius.
  replace (u_theta * PI * 2) with (u_theta * (2 * PI)) by lra.
  f_equal; lra.
Qed.

(** Decorations scale the local radius by 0.95 and add nothing. *)
Lemma elementTarget_scaled u_y u_theta :
  Layout.elementTarget u_y u_theta = Layout.spec_conical 0 u_y u_theta 0.95.
Proof.
  unfold Layout.elementTarget, Layout.spec_conical,
    CONFIG.tree_height, CONFIG.tree_radius.
  replace (u_theta * PI * 2) with (u_theta * (2 * PI)) by lra.
  f_equal; lra.
Qed.

(** Height, local radius and angle of a generated position. *)
Lemma conical_ranges u_y u_theta :
  Num.unit_draw u_y -> Num.unit_draw u_theta ->
  (- (CONFIG.tree_height / 2) <= Layout.height_of u_y < CONFIG.tree_height / 2)
  /\ Layout.localRadius (Layout.height_of u_y) = CONFIG.tree_radius * (1 - u_y)
  /\ 0 < Layout.localRadius (Layout.height_of u_y) <= CONFIG.tree_radius
  /\ 0 <= Layout.angle_of u_theta < 2 * PI.
Proof.
  unfold Num.unit_draw, Layout.localRadius, Layout.height_of, Layout.angle_of,
    CONFIG.tree_height, CONFIG.tree_radius.
  intros Hy Ht.
  pose proof PI_RGT_0 as Hpi.
  assert (E : 13 * (1 - (u_y * 32 - 32 / 2 + 32 / 2) / 32) = 13 * (1 - u_y)) by field.
  rewrite E.
  repeat split; try lra; nra.
Qed.

Lemma spec_conical_on_cone offset u_y u_theta u_r :
  Layout.spec_conical offset u_y u_theta u_r
  = Layout.on_cone (u_r * Layout.localRadius (Layout.height_of u_y) + offset)
                   (Layout.height_of u_y) (Layout.angle_of u_theta).
Proof.
  unfold Layout.spec_conical, Layout.on_cone, Layout.localRadius,
    Layout.height_of, Layout.angle_of, CONFIG.tree_height, CONFIG.tree_radius.
  replace (u_theta * PI * 2) with (u_theta * (2 * PI)) by lra.
  f_equal; lra.
Qed.

(** C7 (as amended): every formed position has a height drawn in
    [[-halfHeight, halfHeight)] and an angle drawn in [[0, 2 PI)] and lies
    at that height and angle around the axis.  Only the foliage generator
    [getTreePosition] draws the radial distance, inside [[0, localRadius)];
    photo ornaments and fairy lights sit at the radius [localRadius + 0.5]
    and [localRadius + 0.3], decorations at [0.95 * localRadius]. *)
Theorem formed_layout_positions (u_y u_theta u_r : R) :
  Num.unit_draw u_y -> Num.unit_draw u_theta -> Num.unit_draw u_r ->
  (- (CONFIG.tree_height / 2) <= Layout.height_of u_y < CONFIG.tree_height / 2)
  /\ (0 <= Layout.angle_of u_theta < 2 * PI)
  /\ Layout.localRadius (Layout.height_of u_y)
     = CONFIG.tree_radius
       * (1 - (Layout.height_of u_y + CONFIG.tree_height / 2) / CONFIG.tree_height)
  /\ (0 < Layout.localRadius (Layout.height_of u_y) <= CONFIG.tree_radius)
  /\ (Layout.getTreePosition u_y u_theta u_r
      = Layout.on_cone (u_r * Layout.localRadius (Layout.height_of u_y))
                       (Layout.height_of u_y) (Layout.angle_of u_theta)
      /\ 0 <= u_r * Layout.localRadius (Layout.height_of u_y)
           < Layout.localRadius (Layout.height_of u_y))
  /\ Layout.ornamentTarget u_y u_theta
     = Layout.on_cone (Layout.localRadius (Layout.height_of u_y) + 0.5)
                      (Layout.height_of u_y) (Layout.angle_of u_theta)
  /\ Layout.lightTarget u_y u_theta
     = Layout.on_cone (Layout.localRadius (Layout.height_of u_y) + 0.3)
                      (Layout.height_of u_y) (Layout.angle_of u_theta)
  /\ Layout.elementTarget u_y u_theta
     = Layout.on_cone (Layout.localRadius (Layout.height_of u_y) * 0.95)
                      (Layout.height_of u_y) (Layout.angle_of u_theta).
Proof.
  intros Hy Ht Hr.
  destruct (conical_ranges u_y u_theta Hy Ht) as (Hh & HR & HRpos & Hang).
  split; [exact Hh|]. split; [exact Hang|]. split; [reflexivity|].
  split; [exact HRpos|].
  split; [split|].
  - reflexivity.
  - unfold Num.unit_draw in Hr. nra.
  - repeat split; reflexivity.
Qed.

Lemma formed_layout_positions_witness :
  (- (CONFIG.tree_height / 2) <= Layout.height_of (1/2) < CONFIG.tree_height / 2)
  /\ (0 <= Layout.angle_of (1/4) < 2 * PI)
  /\ Layout.localRadius (Layout.height_of (1/2))
     = CONFIG.tree_radius
       * (1 - (Layout.height_of (1/2) + CONFIG.tree_height / 2) / CONFIG.tree_height)
  /\ (0 < Layout.localRadius (Layout.height_of (1/2)) <= CONFIG.tree_radius)
  /\ (Layout.getTreePosition (1/2) (1/4) (3/4)
      = Layout.on_cone (3/4 * Layout.localRadius (Layout.height_of (1/2)))
                       (Layout.height_of (1/2)) (Layout.angle_of (1/4))
      /\ 0 <= 3/4 * Layout.localRadius (Layout.height_of (1/2))
           < Layout.localRadius (Layout.height_of (1/2)))
  /\ Layout.ornamentTarget (1/2) (1/4)
     = Layout.on_cone (Layout.localRadius (Layout.height_of (1/2)) + 0.5)
                      (Layout.height_of (1/2)) (Layout.angle_of (1/4))
  /\ Layout.lightTarget (1/2) (1/4)
     = Layout.on_cone (Layout.localRadius (Layout.height_of (1/2)) + 0.3)
                      (Layout.height_of (1/2)) (Layout.angle_of (1/4))
  /\ Layout.elementTarget (1/2) (1/4)
     = Layout.on_cone (Layout.localRadius (Layout.height_of (1/2)) * 0.95)
                      (Layout.height_of (1/2)) (Layout.angle_of (1/4)).
Proof.
  apply (formed_layout_positions (1/2) (1/4) (3/4));
    unfold Num.unit_draw; lra.
Defined.

(** C7 (as stated) fails for the photo ornaments: at mid height (draw 1/2,
    local radius 6.5) and angle 0 the ornament is at (7, 0, 0) whatever else
    is drawn, while the procedure of the specification spreads the points of
    that height and angle over a whole range of radii: no offset makes the
    two agree for every radial draw. *)
Lemma ornament_radius_not_sampled :
  Layout.ornamentTarget (1/2) 0 = mkVector3 7 0 0
  /\ Layout.localRadius (Layout.height_of (1/2)) = 6.5
  /\ ~ (exists offset : R,
          forall u_r : R, Num.unit_draw u_r ->
            Layout.ornamentTarget (1/2) 0 = Layout.spec_conical offset (1/2) 0 u_r).
Proof.
  assert (Ha : Layout.angle_of 0 = 0) by (unfold Layout.angle_of; lra).
  assert (HR : Layout.localRadius (Layout.height_of (1/2)) = 6.5).
  { unfold Layout.localRadius, Layout.height_of, CONFIG.tree_height,
      CONFIG.tree_radius. lra. }
  assert (Hh : Layout.height_of (1/2) = 0).
  { unfold Layout.height_of, CONFIG.tree_height. lra. }
  assert (Ho : Layout.ornamentTarget (1/2) 0 = mkVector3 7 0 0).
  { rewrite ornamentTarget_on_surface, spec_conical_on_cone, Ha, HR, Hh.
    unfold Layout.on_cone. rewrite cos_0, sin_0. f_equal; lra. }
  split; [exact Ho|]. split; [exact HR|].
  intros [offset H].
  assert (H0 := H 0). assert (H1 := H (1/2)).
  rewrite Ho, spec_conical_on_cone, Ha, HR, Hh in H0, H1.
  unfold Layout.on_cone in H0, H1. rewrite cos_0, sin_0 in H0, H1.
  apply (f_equal vx) in H0; [|unfold Num.unit_draw; lra].
  apply (f_equal vx) in H1; [|unfold Num.unit_draw; lra].
  simpl in H0, H1. lra.
Qed.

(** ** Pinch hysteresis and debouncing *)

Section PinchFacts.

Import Gesture.

Ltac pinch_cases r s :=
  unfold clean, inBand in *;
  unfold pinchStep, pinchUpdate, gestureBlocksPinch, scoreOk,
    pinchDownThreshold, pinchUpThreshold, pinchStableThreshold in *;
  destruct r as [lg gc ps pc le]; destruct s as [nm sc ds ok]; simpl in *;
  destruct (String.eqb nm "Closed_Fist"); destruct (String.eqb nm "Open_Palm");
  destruct (String.eqb nm EmptyString); destruct ok; destruct ps;
  simpl in *.

(** The stored count never reaches the commit threshold. *)
Lemma pinchStep_count_small r s :
  (pinchChangeStableCount (pinchStep r s) <= 1)%nat.
Proof.
  unfold pinchStep, pinchUpdate, pinchStableThreshold.
  destruct (_ || _); simpl; [lia|].
  destruct (Bool.eqb _ _); simpl; [lia|].
  destruct (pinchChangeStableCount r) as [|n]; simpl; lia.
Qed.

(** A rise is committed only by a clean sample under the lower threshold
    that follows a pending disagreement. *)
Lemma pinch_rise r s :
  pinchState r = false -> pinchState (pinchStep r s) = true ->
  ps_distance s < pinchDownThreshold
  /\ clean s /\ (1 <= pinchChangeStableCount r)%nat.
Proof.
  intros H0 H1. pinch_cases r s; try discriminate;
    unfold Num.gtb, Num.ltb in *;
    repeat match goal with
           | H : context [Rlt_dec ?a ?b] |- _ => destruct (Rlt_dec a b); simpl in H
           | |- context [Rlt_dec ?a ?b] => destruct (Rlt_dec a b); simpl
           end;
    try discriminate;
    destruct pc as [|pc']; simpl in *; try discriminate;
    repeat split; auto; try lra; lia.
Qed.

(** A fall is either forced by a blocking label or committed, after a
    pending disagreement, by a sample that is not a pinch. *)
Lemma pinch_fall r s :
  pinchState r = true -> pinchState (pinchStep r s) = false ->
  gestureBlocksPinch s = true
  \/ ((1 <= pinchChangeStableCount r)%nat
      /\ (pinchUpThreshold <= ps_distance s
          \/ scoreOk s = false \/ ps_opennessOk s = false)).
Proof.
  intros H0 H1. pinch_cases r s; try discriminate; auto;
    unfold Num.gtb, Num.ltb in *;
    repeat match goal with
           | H : context [Rlt_dec ?a ?b] |- _ => destruct (Rlt_dec a b); simpl in H
           | |- context [Rlt_dec ?a ?b] => destruct (Rlt_dec a b); simpl
           end;
    try discriminate;
    destruct pc as [|pc']; simpl in *; try discriminate;
    right; (split; [lia|]); auto; try (left; lra).
Qed.

(** A pending disagreement is left only by a sample that disagrees with
    the committed value, which it leaves as it was. *)
Lemma pinch_pending r s :
  (1 <= pinchChangeStableCount (pinchStep r s))%nat ->
  pinchState (pinchStep r s) = pinchState r
  /\ gestureBlocksPinch s = false
  /\ (pinchState r = false -> ps_distance s < pinchDownThreshold /\ clean s)
  /\ (pinchState r = true ->
      pinchUpThreshold <= ps_distance s
      \/ scoreOk s = false \/ ps_opennessOk s = false).
Proof.
  intros H. pinch_cases r s; try lia;
    unfold Num.gtb, Num.ltb in *;
    repeat match goal with
           | H : context [Rlt_dec ?a ?b] |- _ => destruct (Rlt_dec a b); simpl in H
           | |- context [Rlt_dec ?a ?b] => destruct (Rlt_dec a b); simpl
           end;
    try lia;
    destruct pc as [|pc']; simpl in *; try lia;
    repeat split; auto; try discriminate; try lra;
    intros _; auto; try (left; lra).
Qed.

End PinchFacts.

Section PinchTraces.

Import Gesture.

Lemma band_keeps_released r s :
  inBand s -> pinchState r = false -> pinchState (pinchStep r s) = false.
Proof.
  intros Hb H0. destruct (pinchState (pinchStep r s)) eqn:E; [|reflexivity].
  destruct (pinch_rise r s H0 E) as (Hd & _). unfold inBand in Hb. lra.
Qed.

Lemma band_keeps_clean_pinch r s :
  inBand s -> clean s -> pinchState r = true -> pinchState (pinchStep r s) = true.
Proof.
  intros Hb (Hg & Hs & Ho) H1.
  destruct (pinchState (pinchStep r s)) eqn:E; [reflexivity|].
  destruct (pinch_fall r s H1 E) as [Hblk | (_ & [Hd | [Hsc | Hop]])];
    try congruence.
  unfold inBand in Hb. lra.
Qed.

Lemma band_no_rise samples : forall r,
  Forall inBand samples -> pinchState r = false ->
  Forall (eq false) (pinchTrace r samples).
Proof.
  induction samples as [|s rest IH]; intros r Hb H0; simpl; constructor.
  - symmetry. apply band_keeps_released; [inversion Hb; assumption | exact H0].
  - apply IH; [inversion Hb; assumption|].
    apply band_keeps_released; [inversion Hb; assumption | exact H0].
Qed.

Lemma band_clean_constant samples : forall r,
  Forall inBand samples -> Forall clean samples ->
  Forall (eq (pinchState r)) (pinchTrace r samples).
Proof.
  induction samples as [|s rest IH]; intros r Hb Hc; simpl; constructor.
  - inversion Hb; inversion Hc; subst.
    destruct (pinchState r) eqn:E.
    + symmetry; apply band_keeps_clean_pinch; assumption.
    + symmetry; apply band_keeps_released; assumption.
  - inversion Hb; inversion Hc; subst.
    assert (E : pinchState (pinchStep r s) = pinchState r).
    { destruct (pinchState r) eqn:E.
      + apply band_keeps_clean_pinch; assumption.
      + apply band_keeps_released; assumption. }
    rewrite <- E. apply IH; assumption.
Qed.

Lemma flips_all_false trace :
  Forall (eq false) trace -> flips false trace = 0%nat.
Proof.
  induction 1 as [|b rest Hb _ IH]; simpl; [reflexivity|].
  subst b; simpl. exact IH.
Qed.

Lemma band_flips samples : forall r,
  Forall inBand samples ->
  (flips (pinchState r) (pinchTrace r samples) <= 1)%nat.
Proof.
  induction samples as [|s rest IH]; intros r Hb; simpl; [lia|].
  inversion Hb as [|? ? Hs Hrest]; subst.
  destruct (pinchState r) eqn:E0.
  - destruct (pinchState (pinchStep r s)) eqn:E1; simpl.
    + specialize (IH (pinchStep r s) Hrest). rewrite E1 in IH. exact IH.
    + rewrite flips_all_false; [lia|].
      apply band_no_rise; assumption.
  - rewrite (band_keeps_released r s Hs E0); simpl.
    rewrite flips_all_false; [lia|].
    apply band_no_rise; [assumption|].
    apply band_keeps_released; assumption.
Qed.

(** Two frames in a row stand behind every committed rise. *)
Lemma pinch_rise_two_frames r s1 s2 :
  pinchState (pinchStep r s1) = false ->
  pinchState (pinchStep (pinchStep r s1) s2) = true ->
  (ps_distance s1 < pinchDownThreshold /\ clean s1)
  /\ (ps_distance s2 < pinchDownThreshold /\ clean s2).
Proof.
  intros H1 H2.
  destruct (pinch_rise _ _ H1 H2) as (Hd2 & Hc2 & Hcount).
  destruct (pinch_pending r s1 Hcount) as (Hsame & _ & Hlow & _).
  rewrite H1 in Hsame. split; [apply Hlow; congruence | split; assumption].
Qed.

(** Two frames in a row stand behind every fall that no label forces. *)
Lemma pinch_fall_two_frames r s1 s2 :
  pinchState (pinchStep r s1) = true ->
  pinchState (pinchStep (pinchStep r s1) s2) = false ->
  gestureBlocksPinch s2 = false ->
  (pinchUpThreshold <= ps_distance s1
   \/ scoreOk s1 = false \/ ps_opennessOk s1 = false)
  /\ (pinchUpThreshold <= ps_distance s2
      \/ scoreOk s2 = false \/ ps_opennessOk s2 = false).
Proof.
  intros H1 H2 Hnb.
  destruct (pinch_fall _ _ H1 H2) as [Hb | (Hcount & Hwhy)]; [congruence|].
  destruct (pinch_pending r s1 Hcount) as (Hsame & _ & _ & Hhigh).
  rewrite H1 in Hsame. split; [apply Hhigh; congruence | exact Hwhy].
Qed.

End PinchTraces.

(** C2 (as amended): the committed pinch boolean rises only on a frame whose
    distance is below 0.072 (with nothing else against a pinch) after a
    frame of the same kind; it falls either at once, when the label of the
    frame is [Closed_Fist] or [Open_Palm], or after two frames in a row that
    are no pinch, because the distance is at least 0.098 or because score or
    openness fail.  Along distances that stay in [[0.072, 0.098)] it never
    rises, changes at most once, and does not change at all when nothing but
    the distance stands against a pinch. *)
Theorem pinch_hysteresis (r : Gesture.Refs) (samples : list Gesture.PinchSample) :
  Forall Gesture.inBand samples ->
  (Gesture.pinchState r = false ->
   Forall (eq false) (Gesture.pinchTrace r samples))
  /\ (Forall Gesture.clean samples ->
      Forall (eq (Gesture.pinchState r)) (Gesture.pinchTrace r samples))
  /\ (Gesture.flips (Gesture.pinchState r) (Gesture.pinchTrace r samples) <= 1)%nat
  /\ (forall r0 s1 s2,
        Gesture.pinchState (Gesture.pinchStep r0 s1) = false ->
        Gesture.pinchState (Gesture.pinchStep (Gesture.pinchStep r0 s1) s2) = true ->
        (Gesture.ps_distance s1 < Gesture.pinchDownThreshold /\ Gesture.clean s1)
        /\ (Gesture.ps_distance s2 < Gesture.pinchDownThreshold /\ Gesture.clean s2))
  /\ (forall r0 s,
        Gesture.pinchState r0 = true ->
        Gesture.pinchState (Gesture.pinchStep r0 s) = false ->
        Gesture.gestureBlocksPinch s = true
        \/ ((1 <= Gesture.pinchChangeStableCount r0)%nat
            /\ (Gesture.pinchUpThreshold <= Gesture.ps_distance s
                \/ Gesture.scoreOk s = false \/ Gesture.ps_opennessOk s = false)))
  /\ (forall r0 s1 s2,
        Gesture.pinchState (Gesture.pinchStep r0 s1) = true ->
        Gesture.pinchState (Gesture.pinchStep (Gesture.pinchStep r0 s1) s2) = false ->
        Gesture.gestureBlocksPinch s2 = false ->
        (Gesture.pinchUpThreshold <= Gesture.ps_distance s1
         \/ Gesture.scoreOk s1 = false \/ Gesture.ps_opennessOk s1 = false)
        /\ (Gesture.pinchUpThreshold <= Gesture.ps_distance s2
            \/ Gesture.scoreOk s2 = false \/ Gesture.ps_opennessOk s2 = false)).
Proof.
  intros Hband.
  split; [intros H0; apply band_no_rise; assumption|].
  split; [intros Hc; apply band_clean_constant; assumption|].
  split; [apply band_flips; assumption|].
  split; [exact pinch_rise_two_frames|].
  split; [exact pinch_fall|exact pinch_fall_two_frames].
Qed.

Lemma pinch_hysteresis_witness :
  Forall Gesture.inBand [Gesture.bandSample; Gesture.bandSample]
  /\ Forall (eq true)
       (Gesture.pinchTrace Gesture.pinching [Gesture.bandSample; Gesture.bandSample]).
Proof.
  assert (Hb : Gesture.inBand Gesture.bandSample).
  { unfold Gesture.inBand, Gesture.pinchDownThreshold, Gesture.pinchUpThreshold;
      simpl; lra. }
  assert (Hc : Gesture.clean Gesture.bandSample).
  { repeat split. }
  assert (Hbs : Forall Gesture.inBand [Gesture.bandSample; Gesture.bandSample]).
  { apply Forall_cons; [exact Hb | apply Forall_cons; [exact Hb | apply Forall_nil]]. }
  split; [exact Hbs|].
  apply (pinch_hysteresis Gesture.pinching
                          [Gesture.bandSample; Gesture.bandSample] Hbs).
  apply Forall_cons; [exact Hc | apply Forall_cons; [exact Hc | apply Forall_nil]].
Defined.

(** C2 (as stated) fails: while pinching, one frame labelled [Closed_Fist]
    releases the pinch at once although thumb and index are 0.05 apart; and
    two frames of a hand too flat for a pinch (openness out of its band)
    release it at the same distance of 0.05, below the upper threshold. *)
Lemma pinch_released_below_threshold :
  Gesture.pinchState Gesture.pinching = true
  /\ Gesture.ps_distance Gesture.fistSample < Gesture.pinchUpThreshold
  /\ Gesture.pinchState (Gesture.pinchStep Gesture.pinching Gesture.fistSample) = false
  /\ Gesture.ps_distance Gesture.flatHandSample < Gesture.pinchUpThreshold
  /\ Gesture.pinchState
       (Gesture.pinchStep (Gesture.pinchStep Gesture.pinching Gesture.flatHandSample)
                          Gesture.flatHandSample) = false.
Proof.
  unfold Gesture.pinchUpThreshold; simpl.
  repeat split; try lra; reflexivity.
Qed.

(** ** Openness of the hand *)

Section Openness.

Import Gesture.

Lemma hypot_nonneg a b c : 0 <= hypot a b c.
Proof. unfold hypot; apply sqrt_pos. Qed.

Lemma hypot_zero a b c : hypot a b c = 0 <-> a = 0 /\ b = 0 /\ c = 0.
Proof.
  unfold hypot; split.
  - intros H. apply sqrt_eq_0 in H; [|nra].
    repeat split; nra.
  - intros (-> & -> & ->).
    replace (0 * 0 + 0 * 0 + 0 * 0) with 0 by lra. apply sqrt_0.
Qed.

Lemma number_or_pos v d : 0 <= v -> 0 < d -> 0 < number_or v d.
Proof.
  intros Hv Hd. unfold number_or, Num.eqb.
  destruct (Req_dec_T v 0); lra.
Qed.

Lemma palmSizeOf_pos wrist palmBase : 0 < palmSizeOf wrist palmBase.
Proof.
  unfold palmSizeOf. apply number_or_pos; [apply hypot_nonneg | lra].
Qed.

Lemma palmSizeOf_coincide wrist palmBase :
  coincide wrist palmBase -> palmSizeOf wrist palmBase = 1e-6.
Proof.
  intros (Hx & Hy & Hz). unfold palmSizeOf, number_or, Num.eqb.
  destruct (Req_dec_T _ 0) as [E | N]; [reflexivity|].
  exfalso; apply N. apply hypot_zero. repeat split; lra.
Qed.

(** A palm size other than zero is used as it is. *)
Lemma palmSizeOf_regular wrist palmBase :
  ~ coincide wrist palmBase ->
  palmSizeOf wrist palmBase
  = hypot (lm_x wrist - lm_x palmBase) (lm_y wrist - lm_y palmBase)
          (z_or_0 wrist - z_or_0 palmBase).
Proof.
  intros Hn. unfold palmSizeOf, number_or, Num.eqb.
  destruct (Req_dec_T _ 0) as [E | N]; [|reflexivity].
  exfalso; apply Hn. apply hypot_zero in E. destruct E as (Hx & Hy & Hz).
  repeat split; lra.
Qed.

Lemma tipSum_from acc wrist tips :
  0 <= acc ->
  0 <= fold_left (fun tipSum tip => tipSum + tipDistance wrist tip) tips acc.
Proof.
  revert acc; induction tips as [|t rest IH]; intros acc Hacc; simpl; [exact Hacc|].
  apply IH. pose proof (hypot_nonneg (lm_x wrist - lm_x t) (lm_y wrist - lm_y t)
                                     (z_or_0 wrist - z_or_0 t)).
  unfold tipDistance. lra.
Qed.

Lemma tipSumOf_nonneg wrist tips : 0 <= tipSumOf wrist tips.
Proof. unfold tipSumOf; apply tipSum_from; lra. Qed.

Lemma nth_error_in_hand (l : list NormalizedLandmark) k :
  (21 <= List.length l)%nat -> (k < 21)%nat -> exists p, nth_error l k = Some p.
Proof.
  intros Hl Hk. destruct (nth_error l k) as [p|] eqn:E; [exists p; reflexivity|].
  apply nth_error_None in E. lia.
Qed.

Lemma opennessTips_full l :
  (21 <= List.length l)%nat ->
  exists t8 t12 t16 t20,
    nth_error l 8 = Some t8 /\ opennessTips l = Some [t8; t12; t16; t20].
Proof.
  intros Hl. unfold opennessTips.
  destruct (nth_error_in_hand l 8 Hl) as [t8 E8]; [lia|].
  destruct (nth_error_in_hand l 12 Hl) as [t12 E12]; [lia|].
  destruct (nth_error_in_hand l 16 Hl) as [t16 E16]; [lia|].
  destruct (nth_error_in_hand l 20 Hl) as [t20 E20]; [lia|].
  exists t8, t12, t16, t20. rewrite E8, E12, E16, E20. split; reflexivity.
Qed.

Lemma handStage_done name score r l wrist :
  (21 <= List.length l)%nat ->
  exists r1 evs, handStage name score r l wrist = Done tt r1 evs.
Proof.
  intros Hl. unfold handStage.
  destruct (opennessTips_full l Hl) as (t8 & t12 & t16 & t20 & E8 & Et).
  destruct (nth_error_in_hand l 4 Hl) as [t4 E4]; [lia|].
  rewrite E8, E4, Et. eexists; eexists; reflexivity.
Qed.

End Openness.

(** C9: for every hand of 21 landmarks the openness is computed without a
    division by zero: the palm size that divides is positive (a palm size of
    zero, wrist and palm base at one point, is replaced by 1e-6), the
    openness is the quotient of the mean tip distance by it and is not
    negative, and the branch of the visible hand runs to its end. *)
Theorem openness_total (l : list Gesture.NormalizedLandmark)
        (wrist : Gesture.NormalizedLandmark)
        (name : string) (score : R) (r : Gesture.Refs) :
  (21 <= List.length l)%nat ->
  exists tips,
    Gesture.opennessTips l = Some tips
    /\ List.length tips = 4%nat
    /\ 0 < Gesture.palmSizeOf wrist (Gesture.palmBaseOf l wrist)
    /\ (Gesture.coincide wrist (Gesture.palmBaseOf l wrist) ->
        Gesture.palmSizeOf wrist (Gesture.palmBaseOf l wrist) = 1e-6)
    /\ Gesture.opennessOf wrist (Gesture.palmBaseOf l wrist) tips
       * Gesture.palmSizeOf wrist (Gesture.palmBaseOf l wrist)
       = Gesture.tipSumOf wrist tips / 4
    /\ 0 <= Gesture.opennessOf wrist (Gesture.palmBaseOf l wrist) tips
    /\ exists r1 evs, Gesture.handStage name score r l wrist = Gesture.Done tt r1 evs.
Proof.
  intros Hl.
  destruct (opennessTips_full l Hl) as (t8 & t12 & t16 & t20 & _ & Et).
  exists [t8; t12; t16; t20].
  pose proof (palmSizeOf_pos wrist (Gesture.palmBaseOf l wrist)) as Hp.
  pose proof (tipSumOf_nonneg wrist [t8; t12; t16; t20]) as Hs.
  split; [exact Et|]. split; [reflexivity|]. split; [exact Hp|].
  split; [apply palmSizeOf_coincide|].
  unfold Gesture.opennessOf.
  replace (INR (List.length [t8; t12; t16; t20])) with 4 by (simpl; lra).
  split; [field; lra|].
  split; [|apply handStage_done; exact Hl].
  apply Rmult_le_pos; [lra|].
  left; apply Rinv_0_lt_compat; exact Hp.
Qed.

Lemma openness_total_witness :
  exists tips,
    Gesture.opennessTips Gesture.collapsedHand = Some tips
    /\ List.length tips = 4%nat
    /\ 0 < Gesture.palmSizeOf Gesture.originLandmark
             (Gesture.palmBaseOf Gesture.collapsedHand Gesture.originLandmark)
    /\ (Gesture.coincide Gesture.originLandmark
          (Gesture.palmBaseOf Gesture.collapsedHand Gesture.originLandmark) ->
        Gesture.palmSizeOf Gesture.originLandmark
          (Gesture.palmBaseOf Gesture.collapsedHand Gesture.originLandmark) = 1e-6)
    /\ Gesture.opennessOf Gesture.originLandmark
         (Gesture.palmBaseOf Gesture.collapsedHand Gesture.originLandmark) tips
       * Gesture.palmSizeOf Gesture.originLandmark
           (Gesture.palmBaseOf Gesture.collapsedHand Gesture.originLandmark)
       = Gesture.tipSumOf Gesture.originLandmark tips / 4
    /\ 0 <= Gesture.opennessOf Gesture.originLandmark
              (Gesture.palmBaseOf Gesture.collapsedHand Gesture.originLandmark) tips
    /\ exists r1 evs,
        Gesture.handStage EmptyString 0 Gesture.initialRefs
                          Gesture.collapsedHand Gesture.originLandmark
        = Gesture.Done tt r1 evs.
Proof.
  apply (openness_total Gesture.collapsedHand Gesture.originLandmark
                        EmptyString 0 Gesture.initialRefs).
  simpl; lia.
Defined.

(** ** Debouncing of the gesture label *)

Section Debounce.

Import Gesture.

Variable debugMode : bool.

Lemma sceneState_dispatch evs : forall a,
  sceneState (fold_left dispatch evs a) = sceneAfter (sceneState a) evs.
Proof.
  unfold sceneAfter.
  induction evs as [|e evs IH]; intros a; simpl; [reflexivity|].
  rewrite IH. destruct e; reflexivity.
Qed.

Lemma sceneAfter_app s evs1 evs2 :
  sceneAfter s (evs1 ++ evs2) = sceneAfter (sceneAfter s evs1) evs2.
Proof. unfold sceneAfter. apply fold_left_app. Qed.

Lemma pinchUpdate_gesture name sc d ok r :
  lastGesture (pinchUpdate name sc d ok r) = lastGesture r
  /\ gestureStableCount (pinchUpdate name sc d ok r) = gestureStableCount r.
Proof.
  unfold pinchUpdate.
  destruct (_ || _); [split; reflexivity|].
  destruct (Bool.eqb _ _); [split; reflexivity|].
  destruct (_ <=? _)%nat; split; reflexivity.
Qed.

Lemma handStage_shape name sc r l wrist :
  (21 <= List.length l)%nat ->
  exists r1 evs,
    handStage name sc r l wrist = Done tt r1 evs
    /\ lastGesture r1 = lastGesture r
    /\ gestureStableCount r1 = gestureStableCount r
    /\ forall s, sceneAfter s evs = s.
Proof.
  intros Hl. unfold handStage.
  destruct (opennessTips_full l Hl) as (t8 & t12 & t16 & t20 & E8 & Et).
  destruct (nth_error_in_hand l 4 Hl) as [t4 E4]; [lia|].
  rewrite E8, E4, Et.
  eexists; eexists. split; [reflexivity|].
  split; [apply pinchUpdate_gesture|].
  split; [apply pinchUpdate_gesture|].
  intros s; reflexivity.
Qed.

(** A labelled frame runs the label stage and then touches neither the
    label refs nor the scene state. *)
Lemma predictWebcam_labelled r c f :
  labelled c f ->
  exists r2 evs2,
    predictWebcam debugMode r f
    = (r2, snd (gestureUpdate debugMode r c) ++ evs2)
    /\ lastGesture r2 = lastGesture (fst (gestureUpdate debugMode r c))
    /\ gestureStableCount r2
       = gestureStableCount (fst (gestureUpdate debugMode r c))
    /\ forall s, sceneAfter s evs2 = s.
Proof.
  destruct f as [vr rc]. intros (Hv & rest & others & lms & Hrec & Hwf).
  simpl in Hv, Hrec. subst vr rc.
  unfold predictWebcam, tryBlock, gestureStage; simpl.
  destruct (gestureUpdate debugMode r c) as [r1 evs1]; simpl.
  assert (Hnone :
            exists r2 evs2,
              (let '(r2, evs2) := noHandStage debugMode (categoryName c) false r1 in
               (r2, evs1 ++ evs2)) = (r2, evs1 ++ evs2)
              /\ lastGesture r2 = lastGesture r1
              /\ gestureStableCount r2 = gestureStableCount r1
              /\ forall s, sceneAfter s evs2 = s).
  { simpl. eexists; eexists. split; [reflexivity|].
    repeat split. }
  destruct lms as [[|l ls]|]; simpl; try exact Hnone.
  destruct Hwf as [-> | Hlen]; [exact Hnone|].
  destruct l as [|wrist l']; [simpl in Hlen; lia|].
  destruct (handStage_shape (categoryName c) (score c) r1 (wrist :: l') wrist Hlen)
    as (r2 & evs2 & E & Hg & Hc & Hs).
  rewrite E. exists r2, evs2. repeat split; assumption.
Qed.

(** Scene state and label refs after a labelled frame. *)
Lemma frameStep_labelled r a c f :
  labelled c f ->
  let st := frameStep debugMode (r, a) f in
  let r1 := fst (gestureUpdate debugMode r c) in
  lastGesture (fst st) = lastGesture r1
  /\ gestureStableCount (fst st) = gestureStableCount r1
  /\ sceneState (snd st)
     = sceneAfter (sceneState a) (snd (gestureUpdate debugMode r c)).
Proof.
  intros Hl. destruct (predictWebcam_labelled r c f Hl) as (r2 & evs2 & E & Hg & Hc & Hs).
  unfold frameStep; simpl. rewrite E; simpl.
  rewrite sceneState_dispatch, sceneAfter_app, Hs. auto.
Qed.

Lemma gestureCommand_cases name :
  (name = "Open_Palm"%string /\ gestureCommand name = Some CHAOS)
  \/ (name = "Closed_Fist"%string /\ gestureCommand name = Some FORMED)
  \/ (String.eqb name "Open_Palm" = false
      /\ String.eqb name "Closed_Fist" = false /\ gestureCommand name = None).
Proof.
  unfold gestureCommand.
  destruct (String.eqb name "Open_Palm") eqn:E1.
  - left. apply String.eqb_eq in E1. auto.
  - destruct (String.eqb name "Closed_Fist") eqn:E2.
    + right; left. apply String.eqb_eq in E2. auto.
    + right; right. auto.
Qed.

(** What the label stage does to the refs. *)
Lemma gestureUpdate_refs r c :
  let r1 := fst (gestureUpdate debugMode r c) in
  lastGesture r1 = categoryName c
  /\ gestureStableCount r1
     = if String.eqb (categoryName c) (lastGesture r)
       then S (gestureStableCount r) else 0%nat.
Proof.
  unfold gestureUpdate.
  destruct (String.eqb (categoryName c) (lastGesture r)) eqn:E;
    destruct (_ && _); simpl; split; auto.
  all: apply String.eqb_eq in E; auto.
Qed.

(** What the label stage does to the scene state. *)
Lemma gestureUpdate_scene r c s :
  sceneAfter s (snd (gestureUpdate debugMode r c))
  = if Num.gtb (score c) confidenceThreshold
       && (stableThreshold
           <=? gestureStableCount (fst (gestureUpdate debugMode r c)))%nat
    then match gestureCommand (categoryName c) with
         | Some cmd => cmd
         | None => s
         end
    else s.
Proof.
  pose proof (gestureUpdate_refs r c) as (_ & Hcount). simpl in Hcount.
  rewrite Hcount. unfold gestureUpdate.
  destruct (String.eqb (categoryName c) (lastGesture r)); simpl;
    destruct (_ && _); simpl; try reflexivity.
  all: destruct (gestureCommand_cases (categoryName c))
      as [(-> & ->) | [(-> & ->) | (E1 & E2 & ->)]];
    [ | | rewrite E1, E2 ]; simpl; destruct debugMode; reflexivity.
Qed.

End Debounce.

Section DebounceRuns.

Import Gesture.

Variable debugMode : bool.

(** One frame whose top category is [c]. *)
Lemma labelled_step r a c f :
  labelled c f ->
  let st := frameStep debugMode (r, a) f in
  let count := if String.eqb (categoryName c) (lastGesture r)
               then S (gestureStableCount r) else 0%nat in
  lastGesture (fst st) = categoryName c
  /\ gestureStableCount (fst st) = count
  /\ sceneState (snd st)
     = if Num.gtb (score c) confidenceThreshold && (stableThreshold <=? count)%nat
       then match gestureCommand (categoryName c) with
            | Some cmd => cmd
            | None => sceneState a
            end
       else sceneState a.
Proof.
  intros Hl.
  destruct (frameStep_labelled debugMode r a c f Hl) as (Hg & Hc & Hs).
  destruct (gestureUpdate_refs debugMode r c) as (Hg1 & Hc1).
  simpl in *. rewrite Hg, Hc, Hs, Hg1, Hc1.
  rewrite gestureUpdate_scene, Hc1. auto.
Qed.

(** A frame whose label differs from the last one is silent. *)
Lemma flicker_silent r a name f :
  named name f -> lastGesture r <> name ->
  let st := frameStep debugMode (r, a) f in
  lastGesture (fst st) = name
  /\ gestureStableCount (fst st) = 0%nat
  /\ sceneState (snd st) = sceneState a.
Proof.
  intros (c & Hn & Hl) Hne.
  destruct (labelled_step r a c f Hl) as (Hg & Hc & Hs).
  assert (E : String.eqb (categoryName c) (lastGesture r) = false).
  { apply String.eqb_neq. congruence. }
  rewrite E in Hc, Hs. simpl in *.
  rewrite andb_false_r in Hs. subst name. auto.
Qed.

(** The second frame in a row of a label is silent too. *)
Lemma repeat_silent r a name f :
  named name f -> lastGesture r = name -> gestureStableCount r = 0%nat ->
  let st := frameStep debugMode (r, a) f in
  lastGesture (fst st) = name
  /\ gestureStableCount (fst st) = 1%nat
  /\ sceneState (snd st) = sceneState a.
Proof.
  intros (c & Hn & Hl) He H0.
  destruct (labelled_step r a c f Hl) as (Hg & Hc & Hs).
  assert (E : String.eqb (categoryName c) (lastGesture r) = true).
  { apply String.eqb_eq. congruence. }
  rewrite E, H0 in Hc, Hs. simpl in *.
  rewrite andb_false_r in Hs. subst name. auto.
Qed.

(** From the third frame in a row on, a confident label sets the scene. *)
Lemma stable_emits r a c f cmd :
  labelled c f -> lastGesture r = categoryName c ->
  (1 <= gestureStableCount r)%nat ->
  confidenceThreshold < score c ->
  gestureCommand (categoryName c) = Some cmd ->
  let st := frameStep debugMode (r, a) f in
  lastGesture (fst st) = categoryName c
  /\ gestureStableCount (fst st) = S (gestureStableCount r)
  /\ sceneState (snd st) = cmd.
Proof.
  intros Hl He H1 Hsc Hcmd.
  destruct (labelled_step r a c f Hl) as (Hg & Hc & Hs).
  assert (E : String.eqb (categoryName c) (lastGesture r) = true).
  { apply String.eqb_eq. congruence. }
  rewrite E in Hc, Hs. rewrite Hcmd in Hs. simpl in *.
  assert (G : Num.gtb (score c) confidenceThreshold = true).
  { unfold Num.gtb. apply Num_ltb_spec. exact Hsc. }
  rewrite G in Hs.
  destruct (gestureStableCount r) as [|n]; [lia|].
  simpl in Hs. auto.
Qed.

(** A frame named [name] leaves the scene state or sets what [name] asks. *)
Lemma named_scene r a name f :
  named name f ->
  let st := frameStep debugMode (r, a) f in
  lastGesture (fst st) = name
  /\ (sceneState (snd st) = sceneState a
      \/ gestureCommand name = Some (sceneState (snd st))).
Proof.
  intros (c & Hn & Hl).
  destruct (labelled_step r a c f Hl) as (Hg & Hc & Hs).
  simpl in *. subst name. split; [exact Hg|].
  rewrite Hs. destruct (_ && _); [|left; reflexivity].
  destruct (gestureCommand (categoryName c)); [right|left]; reflexivity.
Qed.

(** Frames of a label whose command (if any) is the current scene state
    never change the scene state. *)
Lemma named_run_constant name frames : forall st,
  Forall (named name) frames ->
  (forall cmd, gestureCommand name = Some cmd -> cmd = sceneState (snd st)) ->
  sceneTrace debugMode st frames
  = repeat (sceneState (snd st)) (List.length frames).
Proof.
  induction frames as [|f rest IH]; intros [r a] Hall Hcmd; simpl; [reflexivity|].
  inversion Hall as [|? ? Hf Hrest]; subst.
  destruct (named_scene r a name f Hf) as (_ & Hs). simpl in Hs, Hcmd.
  assert (E : sceneState (snd (frameStep debugMode (r, a) f)) = sceneState a).
  { destruct Hs as [Hs | Hs]; [exact Hs|]. apply Hcmd. exact Hs. }
  rewrite IH; [rewrite E; reflexivity | exact Hrest |].
  intros cmd Hc. rewrite E. apply Hcmd. exact Hc.
Qed.

Lemma toggles_repeat s n : toggles s (repeat s n) = 0%nat.
Proof.
  induction n as [|n IH]; simpl; [reflexivity|].
  rewrite IH. destruct s; reflexivity.
Qed.

(** One frame of another label amid frames of a label whose command is in
    force: the scene state stays as it is, frame after frame. *)
Lemma flicker_amid r a nameA nameB fB post :
  lastGesture r = nameA -> nameA <> nameB ->
  named nameB fB -> Forall (named nameA) post ->
  (forall cmd, gestureCommand nameA = Some cmd -> cmd = sceneState a) ->
  sceneTrace debugMode (r, a) (fB :: post)
  = repeat (sceneState a) (S (List.length post)).
Proof.
  intros Hlast Hne HB Hpost Hcmd.
  destruct (flicker_silent r a nameB fB HB) as (_ & _ & Hs); [congruence|].
  simpl in *. rewrite Hs. f_equal.
  rewrite named_run_constant with (name := nameA); [rewrite Hs; reflexivity | exact Hpost |].
  rewrite Hs. exact Hcmd.
Qed.

End DebounceRuns.

(** Three frames in a row of a new label, the third one confident. *)
Lemma three_frame_trace (debugMode : bool) (r : Gesture.Refs) (a : Gesture.App)
      (name : string) (cmd : SceneState)
      (c1 c2 c3 : Gesture.Category) (f1 f2 f3 : Gesture.Frame)
      (more : list Gesture.Frame) :
  Gesture.gestureCommand name = Some cmd ->
  Gesture.lastGesture r <> name ->
  Gesture.categoryName c1 = name ->
  Gesture.categoryName c2 = name ->
  Gesture.categoryName c3 = name ->
  Gesture.labelled c1 f1 -> Gesture.labelled c2 f2 -> Gesture.labelled c3 f3 ->
  Gesture.confidenceThreshold < Gesture.score c3 ->
  Forall (Gesture.named name) more ->
  Gesture.sceneTrace debugMode (r, a) (f1 :: f2 :: f3 :: more)
  = Gesture.sceneState a :: Gesture.sceneState a
      :: repeat cmd (S (List.length more)).
Proof.
  intros Hcmd Hne E1 E2 E3 L1 L2 L3 Hsc Hmore.
  simpl.
  destruct (flicker_silent debugMode r a name f1) as (Hg1 & Hc1 & Hs1);
    [exists c1; auto | exact Hne |].
  destruct (Gesture.frameStep debugMode (r, a) f1) as [r1 a1]. simpl in *.
  destruct (repeat_silent debugMode r1 a1 name f2) as (Hg2 & Hc2 & Hs2);
    [exists c2; auto | exact Hg1 | exact Hc1 |].
  destruct (Gesture.frameStep debugMode (r1, a1) f2) as [r2 a2]. simpl in *.
  destruct (stable_emits debugMode r2 a2 c3 f3 cmd) as (Hg3 & Hc3 & Hs3);
    [exact L3 | congruence | lia | exact Hsc | congruence |].
  destruct (Gesture.frameStep debugMode (r2, a2) f3) as [r3 a3] eqn:F3. simpl in *.
  rewrite Hs1, Hs2, Hs1, Hs3. do 3 f_equal.
  rewrite named_run_constant with (name := name); simpl.
  - rewrite Hs3; reflexivity.
  - exact Hmore.
  - intros cmd' Hc'. rewrite Hs3. congruence.
Qed.

(** C3 (as amended): a frame whose label differs from the label of the
    frame before never changes the scene state, and one such frame amid
    frames of a label whose command is in force leaves the scene state as it
    is; of a new label [Open_Palm] or [Closed_Fist] the first two frames in
    a row change nothing and the third one, with a score above 0.35, sets
    the scene state, which then stays: the stable count of 2 is reached on
    the third frame, and the scene state changes once (or not at all when it
    is already the one asked for). *)
Theorem gesture_debounce (debugMode : bool) (r : Gesture.Refs) (a : Gesture.App)
        (name : string) (cmd : SceneState)
        (c1 c2 c3 : Gesture.Category) (f1 f2 f3 : Gesture.Frame)
        (more : list Gesture.Frame) :
  Gesture.gestureCommand name = Some cmd ->
  Gesture.lastGesture r <> name ->
  Gesture.categoryName c1 = name ->
  Gesture.categoryName c2 = name ->
  Gesture.categoryName c3 = name ->
  Gesture.labelled c1 f1 -> Gesture.labelled c2 f2 -> Gesture.labelled c3 f3 ->
  Gesture.confidenceThreshold < Gesture.score c3 ->
  Forall (Gesture.named name) more ->
  Gesture.sceneTrace debugMode (r, a) (f1 :: f2 :: f3 :: more)
  = Gesture.sceneState a :: Gesture.sceneState a
      :: repeat cmd (S (List.length more))
  /\ Gesture.toggles (Gesture.sceneState a)
       (Gesture.sceneTrace debugMode (r, a) (f1 :: f2 :: f3 :: more))
     = (if SceneState_eqb (Gesture.sceneState a) cmd then 0 else 1)%nat
  /\ (forall r0 a0 nameB fB,
        Gesture.named nameB fB -> Gesture.lastGesture r0 <> nameB ->
        Gesture.sceneState (snd (Gesture.frameStep debugMode (r0, a0) fB))
        = Gesture.sceneState a0)
  /\ (forall r0 a0 nameA nameB fB post,
        Gesture.lastGesture r0 = nameA -> nameA <> nameB ->
        Gesture.named nameB fB -> Forall (Gesture.named nameA) post ->
        (forall cmdA, Gesture.gestureCommand nameA = Some cmdA ->
                      cmdA = Gesture.sceneState a0) ->
        Gesture.sceneTrace debugMode (r0, a0) (fB :: post)
        = repeat (Gesture.sceneState a0) (S (List.length post))).
Proof.
  intros Hcmd Hne E1 E2 E3 L1 L2 L3 Hsc Hmore.
  pose proof (three_frame_trace debugMode r a name cmd c1 c2 c3 f1 f2 f3 more
                                Hcmd Hne E1 E2 E3 L1 L2 L3 Hsc Hmore) as Htrace.
  split; [exact Htrace|].
  split.
  - rewrite Htrace. simpl.
    rewrite toggles_repeat.
    destruct (Gesture.sceneState a), cmd; reflexivity.
  - split.
    + intros r0 a0 nameB fB HB Hn0.
      apply (flicker_silent debugMode r0 a0 nameB fB HB Hn0).
    + intros r0 a0 nameA nameB fB post.
      apply flicker_amid.
Qed.

Lemma gestureFrame_labelled name sc :
  Gesture.labelled {| Gesture.categoryName := name; Gesture.score := sc |}
                   (Gesture.gestureFrame name sc).
Proof.
  split; [reflexivity|].
  exists [], [], (Some [Gesture.sampleHand]). split; [reflexivity|].
  right. unfold Gesture.sampleHand. rewrite length_map, length_seq. lia.
Qed.

Lemma gesture_debounce_witness :
  Gesture.sceneTrace false (Gesture.initialRefs, Gesture.appIn FORMED)
    [Gesture.palmFrame; Gesture.palmFrame; Gesture.palmFrame; Gesture.palmFrame]
  = [FORMED; FORMED; CHAOS; CHAOS]
  /\ Gesture.toggles FORMED
       (Gesture.sceneTrace false (Gesture.initialRefs, Gesture.appIn FORMED)
          [Gesture.palmFrame; Gesture.palmFrame; Gesture.palmFrame; Gesture.palmFrame])
     = 1%nat.
Proof.
  pose proof (gestureFrame_labelled "Open_Palm" 0.9) as HL.
  destruct (gesture_debounce false Gesture.initialRefs (Gesture.appIn FORMED)
              "Open_Palm" CHAOS
              {| Gesture.categoryName := "Open_Palm"; Gesture.score := 0.9 |}
              {| Gesture.categoryName := "Open_Palm"; Gesture.score := 0.9 |}
              {| Gesture.categoryName := "Open_Palm"; Gesture.score := 0.9 |}
              Gesture.palmFrame Gesture.palmFrame Gesture.palmFrame
              [Gesture.palmFrame]) as (Ht & Hn & _).
  - reflexivity.
  - simpl; discriminate.
  - reflexivity.
  - reflexivity.
  - reflexivity.
  - exact HL.
  - exact HL.
  - exact HL.
  - unfold Gesture.confidenceThreshold; simpl; lra.
  - apply Forall_cons; [|apply Forall_nil].
    eexists; split; [|exact HL]; reflexivity.
  - split; [exact Ht | exact Hn].
Defined.

(** C3 (as stated) fails with N the stable count of the code, 2: from the
    start two frames in a row of [Open_Palm] with score 0.9 leave the scene
    state [FORMED]; it is the third frame that sets [CHAOS]. *)
Lemma two_stable_frames_do_not_toggle :
  Gesture.stableThreshold = 2%nat
  /\ Gesture.sceneTrace false (Gesture.initialRefs, Gesture.appIn FORMED)
       (repeat Gesture.palmFrame Gesture.stableThreshold)
     = [FORMED; FORMED]
  /\ Gesture.sceneTrace false (Gesture.initialRefs, Gesture.appIn FORMED)
       (repeat Gesture.palmFrame 3)
     = [FORMED; FORMED; CHAOS].
Proof.
  set (c := {| Gesture.categoryName := "Open_Palm"; Gesture.score := 0.9 |}).
  pose proof (gestureFrame_labelled "Open_Palm" 0.9) as HL. fold c in HL.
  assert (Hsc : Gesture.confidenceThreshold < Gesture.score c).
  { unfold Gesture.confidenceThreshold; simpl; lra. }
  assert (Hne : Gesture.lastGesture Gesture.initialRefs <> "Open_Palm"%string).
  { simpl; discriminate. }
  pose proof (three_frame_trace false Gesture.initialRefs (Gesture.appIn FORMED)
                "Open_Palm" CHAOS c c c _ _ _ [] eq_refl Hne
                eq_refl eq_refl eq_refl HL HL HL Hsc (Forall_nil _)) as H3.
  split; [reflexivity|]. split; [|exact H3].
  change (repeat Gesture.palmFrame Gesture.stableThreshold)
    with [Gesture.palmFrame; Gesture.palmFrame].
  assert (HN : Gesture.named "Open_Palm" Gesture.palmFrame).
  { exists c; split; [reflexivity | exact HL]. }
  destruct (flicker_silent false Gesture.initialRefs (Gesture.appIn FORMED)
              "Open_Palm" Gesture.palmFrame HN Hne) as (Hg1 & Hc1 & Hs1).
  simpl Gesture.sceneTrace.
  destruct (Gesture.frameStep false (Gesture.initialRefs, Gesture.appIn FORMED)
              Gesture.palmFrame) as [r1 a1].
  destruct (repeat_silent false r1 a1 "Open_Palm" Gesture.palmFrame HN Hg1 Hc1)
    as (_ & _ & Hs2).
  simpl in Hs1, Hs2 |- *. rewrite Hs2, Hs1. reflexivity.
Qed.

(** ** Nearest photos *)

Section Nearest.

Import Experience.

Lemma insert_perm x l : Permutation (insert x l) (x :: l).
Proof.
  induction l as [|y l IH]; simpl; [apply Permutation_refl|].
  destruct (Num.leb (pd_distance x) (pd_distance y)); [apply Permutation_refl|].
  eapply Permutation_trans; [apply perm_skip, IH | apply perm_swap].
Qed.

Lemma sortByDistance_perm l : Permutation (sortByDistance l) l.
Proof.
  induction l as [|x l IH]; simpl; [apply perm_nil|].
  eapply Permutation_trans; [apply insert_perm | apply perm_skip, IH].
Qed.

Lemma sortByDistance_length l : List.length (sortByDistance l) = List.length l.
Proof. apply Permutation_length, sortByDistance_perm. Qed.





Lemma nearestPhotos_firstn sorted : nearestPhotos sorted = firstn 5 sorted.
Proof.
  unfold nearestPhotos.
  destruct (Nat.le_ge_cases 5 (List.length sorted)) as [H | H].
  - rewrite Nat.min_l by exact H. reflexivity.
  - rewrite Nat.min_r by exact H.
    rewrite firstn_all. symmetry. apply firstn_all2. exact H.
Qed.

Lemma photoDistances_length cam children n :
  List.length (photoDistances cam children n) = List.length children.
Proof.
  unfold photoDistances.
  rewrite length_map, length_combine, length_seq. apply Nat.min_id.
Qed.

(** Each entry stands for the child of its index. *)
Lemma photoDistances_entry cam children n p :
  In p (photoDistances cam children n) ->
  exists g, nth_error children (pd_index p) = Some g
            /\ pd_distance p = distanceTo cam g
            /\ pd_textureIndex p = Nat.modulo (pd_index p) n.
Proof.
  unfold photoDistances. intros H. apply in_map_iff in H.
  destruct H as ([k g] & <- & Hin). simpl.
  exists g. split; [|split; reflexivity].
  apply In_nth_error in Hin. destruct Hin as [m Hm].
  assert (Hlen : (m < List.length (combine (seq 0 (List.length children)) children))%nat).
  { apply nth_error_Some. congruence. }
  rewrite length_combine, length_seq, Nat.min_id in Hlen.
  rewrite (nth_error_nth' _ (0%nat, g)) in Hm
    by (rewrite length_combine, length_seq, Nat.min_id; exact Hlen).
  rewrite combine_nth in Hm by apply length_seq.
  injection Hm as Hk Hg.
  rewrite seq_nth in Hk by exact Hlen. simpl in Hk. subst k.
  rewrite <- Hg. apply nth_error_nth'. exact Hlen.
Qed.

Lemma candidatePhotos_cases recent nearest :
  (candidatePhotos recent nearest
   = filter (fun photo => negb (recentlyViewed recent photo)) nearest
   /\ exists p, In p nearest /\ recentlyViewed recent p = false)
  \/ (candidatePhotos recent nearest = nearest
      /\ forall p, In p nearest -> recentlyViewed recent p = true).
Proof.
  unfold candidatePhotos.
  destruct (filter _ nearest) as [|p rest] eqn:E; simpl.
  - right. split; [reflexivity|]. intros p Hp.
    destruct (recentlyViewed recent p) eqn:V; [reflexivity|].
    assert (Hin : In p (filter (fun photo => negb (recentlyViewed recent photo)) nearest)).
    { apply filter_In. split; [exact Hp | rewrite V; reflexivity]. }
    rewrite E in Hin. contradiction.
  - left. split; [reflexivity|]. exists p.
    assert (Hin : In p (filter (fun photo => negb (recentlyViewed recent photo)) nearest)).
    { rewrite E. left; reflexivity. }
    apply filter_In in Hin. destruct Hin as [Hin Hv].
    split; [exact Hin|]. destruct (recentlyViewed recent p); [discriminate|reflexivity].
Qed.

Lemma candidatePhotos_nonempty recent nearest :
  nearest <> [] -> candidatePhotos recent nearest <> [].
Proof.
  intros Hn. unfold candidatePhotos.
  destruct (filter _ nearest) as [|p rest]; simpl; [exact Hn | discriminate].
Qed.

Lemma candidatesOf_nonempty i children st :
  children <> [] -> candidatesOf i children st <> [].
Proof.
  intros Hc. unfold candidatesOf, sortedOf. apply candidatePhotos_nonempty.
  rewrite nearestPhotos_firstn.
  set (sorted := sortByDistance _).
  assert (Hl : List.length sorted = List.length children).
  { unfold sorted. rewrite sortByDistance_length. apply photoDistances_length. }
  destruct sorted as [|x rest]; simpl; [|discriminate].
  destruct children; [contradiction | discriminate].
Qed.

End Nearest.

(** ** Weighted choice among the candidates *)

Section WeightedChoice.

Import Experience.

Variable n : nat.




Lemma cumWeight_le j k : (j <= k)%nat -> cumWeight n j <= cumWeight n k.
Proof.
  induction 1 as [|k Hjk IH]; [lra|].
  simpl. pose proof (pos_INR (n - k)). lra.
Qed.

Lemma weight_pos j : (j < n)%nat -> 0 < INR (n - j).
Proof. intros H. apply lt_0_INR. lia. Qed.

Lemma cumWeight_lt j : (j < n)%nat -> cumWeight n j < cumWeight n (S j).
Proof. intros H. simpl. pose proof (weight_pos j H). lra. Qed.

(** Where the loop breaks, if it breaks. *)
Lemma pickIndex_sound X : forall remaining i j,
  pickIndex n remaining i (X - cumWeight n i) = Some j ->
  (i <= j < i + remaining)%nat
  /\ X <= cumWeight n (S j)
  /\ ((i < j)%nat -> cumWeight n j < X).
Proof.
  induction remaining as [|rem IH]; intros i j H; simpl in H; [discriminate|].
  replace (X - cumWeight n i - INR (n - i)) with (X - cumWeight n (S i)) in H
    by (simpl; lra).
  destruct (Num.leb (X - cumWeight n (S i)) 0) eqn:E.
  - injection H as <-. apply Num_leb_spec in E.
    split; [lia|]. split; [lra | lia].
  - apply Num_leb_false in E. apply IH in H.
    destruct H as (Hr & Hu & Hl).
    split; [lia|]. split; [exact Hu|].
    intros Hij. destruct (Nat.eq_dec j (S i)) as [-> | Hne]; [lra|].
    apply Hl. lia.
Qed.

(** It does break as long as the value does not exceed the weights left. *)
Lemma pickIndex_complete X : forall remaining i,
  (0 < remaining)%nat -> X <= cumWeight n (i + remaining) ->
  exists j, pickIndex n remaining i (X - cumWeight n i) = Some j.
Proof.
  induction remaining as [|rem IH]; intros i Hpos Hle; [lia|].
  simpl.
  replace (X - cumWeight n i - INR (n - i)) with (X - cumWeight n (S i))
    by (simpl; lra).
  destruct (Num.leb (X - cumWeight n (S i)) 0) eqn:E; [eexists; reflexivity|].
  apply Num_leb_false in E.
  replace (i + S rem)%nat with (S i + rem)%nat in Hle by lia.
  destruct rem as [|rem'].
  - rewrite Nat.add_0_r in Hle. lra.
  - apply IH; [lia | exact Hle].
Qed.

(** The rank chosen for the value [X] is the one whose interval of
    cumulated weights holds [X]. *)
Lemma pickIndex_iff X j :
  pickIndex n n 0 X = Some j
  <-> (j < n)%nat /\ X <= cumWeight n (S j) /\ ((0 < j)%nat -> cumWeight n j < X).
Proof.
  replace X with (X - cumWeight n 0) at 1 by (simpl; lra).
  split.
  - intros H. apply pickIndex_sound in H. destruct H as (Hr & Hu & Hl).
    split; [lia|]. split; assumption.
  - intros (Hj & Hu & Hl).
    destruct (pickIndex_complete X n 0) as [j' Hj']; [lia | |].
    + simpl. apply Rle_trans with (cumWeight n (S j)); [exact Hu|].
      apply cumWeight_le. lia.
    + rewrite Hj'. f_equal.
      apply pickIndex_sound in Hj'. destruct Hj' as (Hr' & Hu' & Hl').
      destruct (Nat.lt_trichotomy j' j) as [Hlt | [Heq | Hgt]]; [|exact Heq|].
      * exfalso.
        assert (cumWeight n (S j') <= cumWeight n j) by (apply cumWeight_le; lia).
        assert (cumWeight n j < X) by (apply Hl; lia). lra.
      * exfalso.
        assert (cumWeight n (S j) <= cumWeight n j') by (apply cumWeight_le; lia).
        assert (cumWeight n j' < X) by (apply Hl'; lia). lra.
Qed.


End WeightedChoice.


(** ** Recently viewed photos *)

Section RecentHistory.

Import Experience.





Lemma closeBlock_fields i w st :
  isLightboxOpen (closeBlock i w st) = isLightboxOpen st
  /\ lightboxPhotoIndex (closeBlock i w st) = lightboxPhotoIndex st
  /\ pinchCooldownUntil (closeBlock i w st) = pinchCooldownUntil st
  /\ recentlyViewedPhotos (closeBlock i w st) = recentlyViewedPhotos st.
Proof. unfold closeBlock. destruct (negb _); simpl; auto. Qed.

Lemma selectPhoto_total u (candidates : list PhotoDistance) :
  candidates <> [] -> exists sel, selectPhoto u candidates = Some sel.
Proof.
  intros Hne. unfold selectPhoto.
  set (n := List.length candidates).
  assert (Hn : (0 < n)%nat).
  { unfold n. destruct candidates; [contradiction | simpl; lia]. }
  destruct (pickIndex n n 0 (u * totalWeight n)) as [j|] eqn:E.
  - replace (u * totalWeight n) with (u * totalWeight n - cumWeight n 0) in E
      by (simpl; lra).
    apply pickIndex_sound in E. destruct E as (Hr & _).
    destruct (nth_error candidates j) as [sel|] eqn:Ej; [exists sel; reflexivity|].
    apply nth_error_None in Ej. fold n in Ej. lia.
  - destruct candidates as [|c rest]; [contradiction|]. exists c; reflexivity.
Qed.

Lemma openGuard_true t h st :
  openGuard t h st = true
  <-> (pinchCooldownUntil st <= t)%Z /\ pinchIntent h = true
      /\ isLightboxOpen st = false /\ hasPinched st = false.
Proof.
  unfold openGuard. rewrite !andb_true_iff, !negb_true_iff, Z.leb_le. tauto.
Qed.

(** The frame that does not pass the guard. *)
Lemma useFrame_guard_false i st :
  openGuard (now i) (hand i) st = false ->
  useFrame i st = Some (closeBlock i (isLightboxOpen st) st).
Proof. intros H. unfold useFrame, openBlock. rewrite H. reflexivity. Qed.


(** The frame that passes the guard in front of the photo group. *)
Lemma useFrame_mounted i st children :
  openGuard (now i) (hand i) st = true ->
  photoGroup i = Some children -> children <> [] ->
  exists sel st1,
    selectPhoto (draw i) (candidatesOf i children st) = Some sel
    /\ useFrame i st = Some st1
    /\ isLightboxOpen st1 = true
    /\ lightboxPhotoIndex st1 = Some (pd_textureIndex sel)
    /\ hasPinched st1 = true
    /\ lightboxOpacity st1 = 0
    /\ pinchCooldownUntil st1 = pinchCooldownUntil st
    /\ recentlyViewedPhotos st1
       = pushRecent (recentlyViewedPhotos st) (pd_textureIndex sel).
Proof.
  intros H Hg Hne.
  destruct (selectPhoto_total (draw i) (candidatesOf i children st)) as [sel Hsel].
  { apply candidatesOf_nonempty. exact Hne. }
  unfold useFrame, openBlock. rewrite H, Hg, Hsel.
  apply openGuard_true in H. destruct H as (_ & Hp & _).
  unfold closeBlock. rewrite Hp. simpl.
  exists sel. eexists. split; [reflexivity|]. split; [reflexivity|].
  simpl. repeat split.
Qed.



End RecentHistory.

(** ** The lightbox *)




(** ** Cooldown after the mount *)

Section Cooldown.

Import Experience.

Variable t0 : Z.

Lemma early_step st e :
  still_cooling t0 st -> early t0 e ->
  exists st1, step st e = Some st1 /\ still_cooling t0 st1.
Proof.
  intros (Hc & Hi & Hu) He. destruct e as [i | t s | | |]; simpl in *.
  - assert (G : openGuard (now i) (hand i) st = false).
    { destruct (openGuard (now i) (hand i) st) eqn:G; [|reflexivity].
      apply openGuard_true in G. destruct G as (G & _). lia. }
    rewrite (useFrame_guard_false i st G). eexists; split; [reflexivity|].
    destruct (closeBlock_fields i (isLightboxOpen st) st) as (E1 & E2 & E3 & _).
    unfold still_cooling. rewrite E1, E2, E3. auto.
  - eexists; split; [reflexivity|]. unfold still_cooling; simpl.
    repeat split; auto. lia.
  - eexists; split; [reflexivity|]. unfold still_cooling, fadeOutFires.
    destruct (fadeOutTimer st); simpl; auto.
  - eexists; split; [reflexivity|]. unfold still_cooling; simpl; auto.
  - eexists; split; [reflexivity|]. unfold still_cooling; simpl; auto.
Qed.

Lemma early_run events : forall st,
  still_cooling t0 st -> Forall (early t0) events ->
  exists st1, run st events = Some st1 /\ still_cooling t0 st1.
Proof.
  induction events as [|e rest IH]; intros st Hst Hall; simpl.
  - exists st; auto.
  - inversion Hall as [|? ? He Hrest]; subst.
    destruct (early_step st e Hst He) as (st0 & E & Hst0).
    rewrite E. apply IH; assumption.
Qed.

End Cooldown.

(** C10: the cooldown is armed by the mount itself: after a mount at [t0]
    the cooldown ends at [t0 + 650]; whatever happens during the first
    650 ms (frames with any hand, pinching or not, scene changes, timers),
    the lightbox is closed and no photo is selected at the end; the pinch
    that is refused at [t0 + 649] opens the lightbox at [t0 + 650]. *)
Theorem mount_arms_cooldown (t0 : Z) (s : SceneState)
        (events : list Experience.Event) :
  Forall (Experience.early t0) events ->
  Experience.pinchCooldownUntil (Experience.mount t0 s) = (t0 + 650)%Z
  /\ (exists st,
        Experience.run (Experience.mount t0 s) events = Some st
        /\ Experience.isLightboxOpen st = false
        /\ Experience.lightboxPhotoIndex st = None)
  /\ ~ Experience.opens (Experience.mount t0 s)
         (Experience.useFrame (Experience.pinchAtOrnament (t0 + 649))
                              (Experience.mount t0 s))
  /\ Experience.opens (Experience.mount t0 s)
       (Experience.useFrame (Experience.pinchAtOrnament (t0 + 650))
                            (Experience.mount t0 s)).
Proof.
  intros Hearly.
  split; [reflexivity|].
  split.
  - destruct (early_run t0 events (Experience.mount t0 s)) as (st & Hrun & Hc & Hi & _).
    + unfold Experience.still_cooling; simpl. repeat split; auto. lia.
    + exact Hearly.
    + exists st; auto.
  - split.
    + intros (_ & st1 & Hres & Hopen).
      rewrite useFrame_guard_false in Hres.
      * injection Hres as <-.
        rewrite (proj1 (closeBlock_fields _ _ _)) in Hopen.
        simpl in Hopen. discriminate.
      * destruct (Experience.openGuard _ _ _) eqn:G; [|reflexivity].
        apply openGuard_true in G. destruct G as (G & _).
        simpl in G. unfold Experience.pinchCooldown in G. lia.
    + split; [reflexivity|].
      destruct (useFrame_mounted (Experience.pinchAtOrnament (t0 + 650))
                  (Experience.mount t0 s) [mkVector3 0 0 0])
        as (sel & st1 & _ & Hres & Hopen & _).
      * apply openGuard_true. simpl. unfold Experience.pinchCooldown.
        repeat split; auto. lia.
      * reflexivity.
      * discriminate.
      * exists st1; auto.
Qed.

Lemma mount_arms_cooldown_witness :
  Experience.pinchCooldownUntil (Experience.mount 0 CHAOS) = (0 + 650)%Z
  /\ (exists st,
        Experience.run (Experience.mount 0 CHAOS)
          [Experience.Frame (Experience.pinchAtOrnament 100);
           Experience.Frame (Experience.pinchAtOrnament 649)] = Some st
        /\ Experience.isLightboxOpen st = false
        /\ Experience.lightboxPhotoIndex st = None)
  /\ ~ Experience.opens (Experience.mount 0 CHAOS)
         (Experience.useFrame (Experience.pinchAtOrnament (0 + 649))
                              (Experience.mount 0 CHAOS))
  /\ Experience.opens (Experience.mount 0 CHAOS)
       (Experience.useFrame (Experience.pinchAtOrnament (0 + 650))
                            (Experience.mount 0 CHAOS)).
Proof.
  apply (mount_arms_cooldown 0 CHAOS
           [Experience.Frame (Experience.pinchAtOrnament 100);
            Experience.Frame (Experience.pinchAtOrnament 649)]).
  apply Forall_cons; [|apply Forall_cons; [|apply Forall_nil]];
    simpl; unfold Experience.pinchCooldown; lia.
Defined.

(** ** Order of the candidates and closed form of the weights *)

Section CandidateOrder.

Import Experience.








End CandidateOrder.

(** ** Choice of the photo *)



(** ** Ambient fireworks *)

Section Bursts.

Import Particles.

(** In photo mode a firework lives between 2.62 and 3.24 seconds. *)
Lemma createFirework_lifetime now d :
  unit_draws d ->
  2.62 <= lifetime (createFirework true now d) < 3.24.
Proof.
  unfold unit_draws, Num.unit_draw. intros (_ & Hy & _ & Hh & Hs). simpl.
  replace (5 + (fd_launchY d - 0.5) * 10 + 3 + fd_height d * 8
           - (5 + (fd_launchY d - 0.5) * 10))
    with (3 + fd_height d * 8) by lra.
  rewrite Rabs_right by lra.
  assert (Hpos : 0 < 15 + fd_speed d * 10) by lra.
  assert (Hlow : 3 / 25 <= (3 + fd_height d * 8) / (15 + fd_speed d * 10)).
  { apply Rmult_le_reg_r with (15 + fd_speed d * 10); [exact Hpos|].
    replace ((3 + fd_height d * 8) / (15 + fd_speed d * 10) * (15 + fd_speed d * 10))
      with (3 + fd_height d * 8) by (field; lra).
    nra. }
  assert (Hup : (3 + fd_height d * 8) / (15 + fd_speed d * 10) < 11 / 15).
  { apply Rmult_lt_reg_r with (15 + fd_speed d * 10); [exact Hpos|].
    replace ((3 + fd_height d * 8) / (15 + fd_speed d * 10) * (15 + fd_speed d * 10))
      with (3 + fd_height d * 8) by (field; lra).
    nra. }
  lra.
Qed.

Lemma createFirework_alive now d :
  unit_draws d -> alive now (createFirework true now d) = true.
Proof.
  intros Hd. unfold alive. apply Num_ltb_spec.
  pose proof (createFirework_lifetime now d Hd) as Hl.
  replace (startTime (createFirework true now d)) with now by reflexivity.
  rewrite Z.sub_diag. simpl IZR. lra.
Qed.

Lemma alive_spec now b :
  alive now b = true <-> IZR (now - startTime b) / 1000 < lifetime b.
Proof. unfold alive. apply Num_ltb_spec. Qed.

Lemma spawns_spec isPhotoOpen now st :
  spawns isPhotoOpen now st = true
  <-> isPhotoOpen = true /\ (nextSpawnTime st <= now)%Z
      /\ (List.length (particleBatches st) < maxBatches)%nat.
Proof.
  unfold spawns. rewrite !andb_true_iff, Z.leb_le, Nat.ltb_lt. tauto.
Qed.

(** The frame that spawns. *)
Lemma useFrame_spawn now d st :
  isActive st = true -> unit_draws d -> spawns true now st = true ->
  useFrame true true now d st
  = {| particleBatches :=
         filter (alive now) (particleBatches st) ++ [createFirework true now d];
       nextSpawnTime := (now + spawnInterval)%Z;
       isActive := true; effectStart := effectStart st |}.
Proof.
  intros Ha Hd Hs. unfold useFrame, spawnBlock. rewrite Ha, Hs. simpl.
  rewrite filter_app. simpl filter.
  rewrite (createFirework_alive now d Hd). try rewrite Ha. reflexivity.
Qed.

(** The frame that does not spawn. *)
Lemma useFrame_skip isPhotoOpen now d st :
  isActive st = true -> spawns isPhotoOpen now st = false ->
  useFrame true isPhotoOpen now d st
  = {| particleBatches := filter (alive now) (particleBatches st);
       nextSpawnTime := nextSpawnTime st;
       isActive := true; effectStart := effectStart st |}.
Proof.
  intros Ha Hs. unfold useFrame, spawnBlock. rewrite Ha, Hs. simpl.
  try rewrite Ha. reflexivity.
Qed.

Lemma filter_length_le (A : Type) (f : A -> bool) l :
  (List.length (filter f l) <= List.length l)%nat.
Proof.
  induction l as [|x l IH]; simpl; [lia|]. destruct (f x); simpl; lia.
Qed.

Lemma filter_all (A : Type) (f : A -> bool) l :
  Forall (fun x => f x = true) l -> filter f l = l.
Proof.
  induction 1 as [|x l Hx _ IH]; simpl; [reflexivity|]. rewrite Hx, IH. reflexivity.
Qed.

End Bursts.

Section CrowdedSky.

Import Particles.

Lemma halfFirework_unit : unit_draws halfFirework.
Proof. unfold unit_draws, Num.unit_draw; simpl. repeat split; lra. Qed.

Lemma halfFirework_lifetime t :
  lifetime (createFirework true t halfFirework) = 2.85.
Proof.
  simpl.
  replace (5 + (1 / 2 - 0.5) * 10 + 3 + 1 / 2 * 8 - (5 + (1 / 2 - 0.5) * 10))
    with 7 by lra.
  rewrite Rabs_right by lra. lra.
Qed.

Lemma halfFirework_alive now t :
  (now - t < 2850)%Z -> alive now (createFirework true t halfFirework) = true.
Proof.
  intros H. apply alive_spec. rewrite halfFirework_lifetime.
  replace (startTime (createFirework true t halfFirework)) with t by reflexivity.
  apply IZR_lt in H. lra.
Qed.

Lemma stateWith_alive now starts :
  Forall (fun t => (now - t < 2850)%Z) starts ->
  filter (alive now) (particleBatches (stateWith starts 0))
  = particleBatches (stateWith starts 0).
Proof.
  intros H. apply filter_all. simpl.
  apply Forall_map. eapply Forall_impl; [|exact H].
  intros t Ht. apply halfFirework_alive. exact Ht.
Qed.

(** A frame in front of young batches, with room for one more. *)
Lemma stateWith_spawn starts next now :
  (next <= now)%Z -> (List.length starts < maxBatches)%nat ->
  Forall (fun t => (now - t < 2850)%Z) starts ->
  useFrame true true now halfFirework (stateWith starts next)
  = stateWith (starts ++ [now]) (now + spawnInterval).
Proof.
  intros Hn Hl Hy.
  rewrite useFrame_spawn; [| reflexivity | exact halfFirework_unit |].
  - change (particleBatches (stateWith starts next))
      with (particleBatches (stateWith starts 0)).
    rewrite (stateWith_alive now starts Hy).
    unfold stateWith; simpl. rewrite map_app. reflexivity.
  - apply spawns_spec. simpl. rewrite length_map. auto.
Qed.

(** A frame in front of eight young batches. *)
Lemma stateWith_full starts next now :
  List.length starts = maxBatches ->
  Forall (fun t => (now - t < 2850)%Z) starts ->
  useFrame true true now halfFirework (stateWith starts next)
  = stateWith starts next.
Proof.
  intros Hl Hy.
  rewrite useFrame_skip; [| reflexivity |].
  - change (particleBatches (stateWith starts next))
      with (particleBatches (stateWith starts 0)).
    rewrite (stateWith_alive now starts Hy). reflexivity.
  - destruct (spawns true now (stateWith starts next)) eqn:E; [|reflexivity].
    apply spawns_spec in E. destruct E as (_ & _ & E).
    simpl in E. rewrite length_map in E. lia.
Qed.

Lemma crowded_state :
  crowded = stateWith [0; 0; 300; 600; 900; 1200; 1500; 1800]%Z 2100.
Proof.
  unfold crowded, ambientFrames. cbn [fold_left].
  change (photoEffect true false 0 halfFirework initialState)
    with (stateWith [0%Z] 0).
  repeat (rewrite stateWith_spawn;
          [ cbn [app]
          | unfold spawnInterval; lia
          | cbn [app List.length]; unfold maxBatches; lia
          | cbn [app]; repeat (apply Forall_cons; [lia|]); apply Forall_nil ]).
  reflexivity.
Qed.

End CrowdedSky.

(** C6 (as amended): on an ambient frame (photo open, effect active) a
    batch is spawned exactly when the spawn time has come and fewer than 8
    batches are held; the next spawn time is then 300 ms later and no frame
    before it spawns.  With 8 batches held the frame spawns nothing and
    evicts nothing.  Every frame keeps exactly the batches with
    [(now - startTime) / 1000 < lifetime], in their order, so that never
    more than 8 are held. *)
Theorem ambient_bursts (now : Z) (d : Particles.FireworkDraws) (st : Particles.State) :
  Particles.isActive st = true ->
  Particles.unit_draws d ->
  (List.length (Particles.particleBatches st) <= Particles.maxBatches)%nat ->
  (List.length (Particles.particleBatches (Particles.useFrame true true now d st))
   <= Particles.maxBatches)%nat
  /\ (forall b,
        In b (Particles.particleBatches (Particles.useFrame true true now d st)) ->
        IZR (now - Particles.startTime b) / 1000 < Particles.lifetime b)
  /\ (forall b,
        In b (Particles.particleBatches st) ->
        (In b (Particles.particleBatches (Particles.useFrame true true now d st))
         <-> IZR (now - Particles.startTime b) / 1000 < Particles.lifetime b))
  /\ (Particles.spawns true now st = true
      <-> (Particles.nextSpawnTime st <= now)%Z
          /\ (List.length (Particles.particleBatches st) < Particles.maxBatches)%nat)
  /\ (Particles.spawns true now st = true ->
      Particles.particleBatches (Particles.useFrame true true now d st)
      = filter (Particles.alive now) (Particles.particleBatches st)
          ++ [Particles.createFirework true now d]
      /\ Particles.nextSpawnTime (Particles.useFrame true true now d st)
         = (now + Particles.spawnInterval)%Z
      /\ forall now2,
           (now2 < now + Particles.spawnInterval)%Z ->
           Particles.spawns true now2 (Particles.useFrame true true now d st) = false)
  /\ (Particles.spawns true now st = false ->
      Particles.particleBatches (Particles.useFrame true true now d st)
      = filter (Particles.alive now) (Particles.particleBatches st)
      /\ Particles.nextSpawnTime (Particles.useFrame true true now d st)
         = Particles.nextSpawnTime st).
Proof.
  intros Ha Hd Hcap.
  pose proof (filter_length_le _ (Particles.alive now) (Particles.particleBatches st)) as Hf.
  destruct (Particles.spawns true now st) eqn:S.
  - rewrite (useFrame_spawn now d st Ha Hd S). simpl.
    pose proof S as S'. apply spawns_spec in S'. destruct S' as (_ & Hn & Hl).
    split; [rewrite length_app; simpl; lia|].
    split.
    { intros b Hb. apply in_app_or in Hb. destruct Hb as [Hb | [<- | []]].
      - apply filter_In in Hb. apply alive_spec. apply Hb.
      - apply alive_spec. apply createFirework_alive. exact Hd. }
    split.
    { intros b Hb. rewrite <- alive_spec. split.
      - intros Hin. apply in_app_or in Hin. destruct Hin as [Hin | [<- | []]].
        + apply filter_In in Hin. apply Hin.
        + apply createFirework_alive. exact Hd.
      - intros Hal. apply in_or_app. left. apply filter_In. auto. }
    split; [split; auto|].
    split.
    { intros _. split; [reflexivity|]. split; [reflexivity|].
      intros now2 H2. unfold Particles.spawns; simpl.
      destruct (Z.leb_spec (now + Particles.spawnInterval) now2); [lia|reflexivity]. }
    intros H; discriminate.
  - rewrite (useFrame_skip true now d st Ha S). simpl.
    split; [lia|].
    split.
    { intros b Hb. apply filter_In in Hb. apply alive_spec. apply Hb. }
    split.
    { intros b Hb. rewrite <- alive_spec. split.
      - intros Hin. apply filter_In in Hin. apply Hin.
      - intros Hal. apply filter_In. auto. }
    split.
    { split; [intros H; discriminate|].
      intros (Hn & Hl).
      assert (E : Particles.spawns true now st = true) by (apply spawns_spec; auto).
      congruence. }
    split; [intros H; discriminate|].
    intros _. split; reflexivity.
Qed.

Lemma ambient_bursts_witness :
  (List.length
     (Particles.particleBatches
        (Particles.useFrame true true 0 Particles.halfFirework
                            (Particles.stateWith [0%Z] 0)))
   <= Particles.maxBatches)%nat.
Proof.
  apply (ambient_bursts 0 Particles.halfFirework (Particles.stateWith [0%Z] 0)).
  - reflexivity.
  - exact halfFirework_unit.
  - simpl. unfold Particles.maxBatches. lia.
Defined.

(** C6 (as stated) fails: with the photo open since time 0 and a frame
    every 300 ms, eight batches are held at 1800 ms, started at 0, 0, 300,
    ..., 1800.  At 2100 ms the next spawn is due and the oldest batch is
    2.1 s old, with 2.85 s to live: the frame starts no batch and evicts
    none. *)
Lemma full_sky_skips_spawn :
  map Particles.startTime (Particles.particleBatches Particles.crowded)
  = [0; 0; 300; 600; 900; 1200; 1500; 1800]%Z
  /\ Particles.nextSpawnTime Particles.crowded = 2100%Z
  /\ List.length (Particles.particleBatches Particles.crowded) = Particles.maxBatches
  /\ map Particles.startTime
       (Particles.particleBatches
          (Particles.useFrame true true 2100 Particles.halfFirework Particles.crowded))
     = [0; 0; 300; 600; 900; 1200; 1500; 1800]%Z.
Proof.
  rewrite crowded_state.
  rewrite stateWith_full.
  - repeat split; reflexivity.
  - reflexivity.
  - repeat (apply Forall_cons; [lia|]); apply Forall_nil.
Qed.

(** ** Missing photos *)

(** C8: given no photo list or an empty one, [PhotoOrnaments] returns
    [null], asks for no texture and builds no entity, and the photo group
    stays unmounted; given photos, it asks for the texture of every photo
    and builds the 200 ornaments. *)
Theorem empty_photos_render_nothing (draws : nat -> Animator.OrnamentDraws) :
  PhotoOrnamentsComponent.PhotoOrnaments None draws
  = {| PhotoOrnamentsComponent.element := PhotoOrnamentsComponent.Null;
       PhotoOrnamentsComponent.texturesRequested := [];
       PhotoOrnamentsComponent.entitiesBuilt := 0 |}
  /\ PhotoOrnamentsComponent.PhotoOrnaments (Some []) draws
     = {| PhotoOrnamentsComponent.element := PhotoOrnamentsComponent.Null;
          PhotoOrnamentsComponent.texturesRequested := [];
          PhotoOrnamentsComponent.entitiesBuilt := 0 |}
  /\ PhotoOrnamentsComponent.photoGroupOf
       (PhotoOrnamentsComponent.PhotoOrnaments None draws) = None
  /\ PhotoOrnamentsComponent.photoGroupOf
       (PhotoOrnamentsComponent.PhotoOrnaments (Some []) draws) = None
  /\ (forall p ps,
        PhotoOrnamentsComponent.texturesRequested
          (PhotoOrnamentsComponent.PhotoOrnaments (Some (p :: ps)) draws) = p :: ps
        /\ PhotoOrnamentsComponent.entitiesBuilt
             (PhotoOrnamentsComponent.PhotoOrnaments (Some (p :: ps)) draws)
           = CONFIG.counts_ornaments
        /\ exists children,
             PhotoOrnamentsComponent.photoGroupOf
               (PhotoOrnamentsComponent.PhotoOrnaments (Some (p :: ps)) draws)
             = Some children
             /\ List.length children = CONFIG.counts_ornaments).
Proof.
  split; [reflexivity|]. split; [reflexivity|].
  split; [reflexivity|]. split; [reflexivity|].
  intros p ps. split; [reflexivity|].
  unfold PhotoOrnamentsComponent.PhotoOrnaments, PhotoOrnamentsComponent.photoGroupOf.
  cbn [PhotoOrnamentsComponent.entitiesBuilt PhotoOrnamentsComponent.element].
  split.
  - rewrite length_map. apply length_seq.
  - eexists. split; [reflexivity|].
    rewrite !length_map. apply length_seq.
Qed.

(** ** Small runs *)

(** The eleventh photo pushes the first one out of the history. *)
Example pushRecent_shifts :
  Experience.pushRecent [1; 2; 3; 4; 5; 6; 7; 8; 9; 10]%nat 11%nat
  = [2; 3; 4; 5; 6; 7; 8; 9; 10; 11]%nat.
Proof. reflexivity. Qed.

(** Three candidates weigh 3, 2 and 1. *)
Example three_candidates_weights :
  Experience.totalWeight 3 = 6
  /\ Experience.pickIndex 3 3 0 (1 / 4 * 6) = Some 0%nat
  /\ Experience.pickIndex 3 3 0 (3 / 4 * 6) = Some 1%nat
  /\ Experience.pickIndex 3 3 0 (9 / 10 * 6) = Some 2%nat.
Proof.
  split; [unfold Experience.totalWeight; simpl; lra|].
  repeat split; apply pickIndex_iff; simpl; repeat split; try lia; try lra;
    intros _; lra.
Qed.

(** A closed fist held for three frames forms the tree; the pinch is off. *)
Example fist_forms_tree :
  Gesture.sceneTrace false (Gesture.initialRefs, Gesture.appIn CHAOS)
    [Gesture.fistFrame; Gesture.fistFrame; Gesture.fistFrame]
  = [CHAOS; CHAOS; FORMED].
Proof.
  set (c := {| Gesture.categoryName := "Closed_Fist"; Gesture.score := 0.9 |}).
  pose proof (gestureFrame_labelled "Closed_Fist" 0.9) as HL. fold c in HL.
  apply (three_frame_trace false Gesture.initialRefs (Gesture.appIn CHAOS)
           "Closed_Fist" FORMED c c c _ _ _ []); try reflexivity; try exact HL.
  - simpl; discriminate.
  - unfold Gesture.confidenceThreshold; simpl; lra.
  - apply Forall_nil.
Qed.

(** A hand collapsed into one point has a palm size of 1e-6 and an openness
    of 0. *)
Example collapsed_hand_openness :
  Gesture.palmSizeOf Gesture.originLandmark
    (Gesture.palmBaseOf Gesture.collapsedHand Gesture.originLandmark) = 1e-6
  /\ Gesture.opennessOf Gesture.originLandmark
       (Gesture.palmBaseOf Gesture.collapsedHand Gesture.originLandmark)
       [Gesture.originLandmark; Gesture.originLandmark;
        Gesture.originLandmark; Gesture.originLandmark] = 0.
Proof.
  assert (Hp : Gesture.palmSizeOf Gesture.originLandmark
                 (Gesture.palmBaseOf Gesture.collapsedHand Gesture.originLandmark)
               = 1e-6).
  { apply palmSizeOf_coincide. repeat split. }
  split; [exact Hp|].
  unfold Gesture.opennessOf. rewrite Hp.
  assert (Ht : Gesture.tipDistance Gesture.originLandmark Gesture.originLandmark = 0).
  { unfold Gesture.tipDistance. apply hypot_zero. simpl. repeat split; lra. }
  unfold Gesture.tipSumOf. simpl. rewrite Ht. lra.
Qed.

(** * Further properties of the code *)

(** ** Foliage progress *)

Section FoliageFacts.

Import Foliage.

Lemma damp_closed x y lambda dt :
  MathUtils.damp x y lambda dt = y + (x - y) * exp (- lambda * dt).
Proof. unfold MathUtils.damp, MathUtils.lerp. ring. Qed.

Lemma exp_decay_range e : e <= 0 -> 0 < exp e <= 1.
Proof.
  intros H. split; [apply exp_pos|].
  destruct H as [H | H].
  - left. rewrite <- exp_0. apply exp_increasing. exact H.
  - rewrite H, exp_0. lra.
Qed.

Lemma targetProgress_range state : targetProgress state = 0 \/ targetProgress state = 1.
Proof. destruct state; [left | right]; reflexivity. Qed.

Lemma useFrame_progress state elapsed delta m :
  uProgress (useFrame true state elapsed delta m)
  = targetProgress state
    + (uProgress m - targetProgress state) * exp (- 1.5 * delta).
Proof.
  simpl. rewrite damp_closed.
  replace (- 1.5 * delta) with (Ropp 1.5 * delta) by lra. reflexivity.
Qed.

Lemma useFrame_bounded state elapsed delta m :
  0 <= delta -> 0 <= uProgress m <= 1 ->
  0 <= uProgress (useFrame true state elapsed delta m) <= 1.
Proof.
  intros Hd Hp. rewrite useFrame_progress.
  destruct (exp_decay_range (- 1.5 * delta)) as (He0 & He1); [lra|].
  destruct (targetProgress_range state) as [-> | ->]; nra.
Qed.

Lemma run_bounded frames : forall m,
  Forall (fun f => 0 <= f_delta f) frames ->
  0 <= uProgress m <= 1 -> 0 <= uProgress (run frames m) <= 1.
Proof.
  unfold run.
  induction frames as [|f rest IH]; intros m Hall Hp; cbn [fold_left]; [exact Hp|].
  inversion Hall as [|? ? Hf Hrest]; subst.
  apply IH; [exact Hrest|]. apply useFrame_bounded; assumption.
Qed.

Lemma run_closed_form state frames : forall m,
  Forall (fun f => f_state f = state) frames ->
  uProgress (run frames m)
  = targetProgress state
    + (uProgress m - targetProgress state) * exp (- 1.5 * totalDelta frames).
Proof.
  unfold run, totalDelta.
  induction frames as [|f rest IH]; intros m Hall; cbn [fold_left fold_right].
  - replace (- 1.5 * 0) with 0 by lra. rewrite exp_0. lra.
  - inversion Hall as [|? ? Hf Hrest]; subst.
    rewrite (IH _ Hrest), useFrame_progress.
    fold (totalDelta rest).
    replace (- 1.5 * (f_delta f + totalDelta rest))
      with (- 1.5 * f_delta f + - 1.5 * totalDelta rest) by lra.
    rewrite exp_plus. ring.
Qed.

End FoliageFacts.

(** X1: whatever the time steps (not negative) and the scene states of the
    frames, the foliage progress stays in [[0, 1]], and one frame moves it
    to a value between the old one and the target, never beyond.  (The end
    points are included: in the arithmetic of doubles the progress may rest
    short of the target or land on it.) *)
Theorem foliage_progress_never_overshoots
        (frames : list Foliage.FrameInput) (m : Foliage.Material)
        (state : SceneState) (elapsed delta : R) :
  Forall (fun f => 0 <= Foliage.f_delta f) frames ->
  0 <= Foliage.uProgress m <= 1 ->
  0 <= delta ->
  0 <= Foliage.uProgress (Foliage.run frames m) <= 1
  /\ (Foliage.uProgress m <= Foliage.targetProgress state ->
      Foliage.uProgress m
      <= Foliage.uProgress (Foliage.useFrame true state elapsed delta m)
      <= Foliage.targetProgress state)
  /\ (Foliage.targetProgress state <= Foliage.uProgress m ->
      Foliage.targetProgress state
      <= Foliage.uProgress (Foliage.useFrame true state elapsed delta m)
      <= Foliage.uProgress m).
Proof.
  intros Hall Hp Hd.
  split; [apply run_bounded; assumption|].
  rewrite useFrame_progress.
  destruct (exp_decay_range (- 1.5 * delta)) as (He0 & He1); [lra|].
  split; intros Hle; nra.
Qed.

Lemma foliage_progress_never_overshoots_witness :
  0 <= Foliage.uProgress
         (Foliage.run [ {| Foliage.f_state := FORMED; Foliage.f_elapsed := 10;
                           Foliage.f_delta := 10 |} ]
                      Foliage.initialMaterial) <= 1.
Proof.
  refine (proj1 (foliage_progress_never_overshoots
                   [ {| Foliage.f_state := FORMED; Foliage.f_elapsed := 10;
                        Foliage.f_delta := 10 |} ]
                   Foliage.initialMaterial FORMED 10 10 _ _ _)).
  - apply Forall_cons; [simpl; lra | apply Forall_nil].
  - simpl; lra.
  - lra.
Defined.

(** X2: while the scene state stays the same, the foliage progress after
    any frames depends, in exact arithmetic, on the sum of their time steps
    only: it is the target plus the initial gap times [exp(-1.5 * sum)], so
    that splitting a time span into more frames changes nothing (in doubles,
    nothing beyond the rounding of each frame). *)
Theorem foliage_progress_closed_form
        (state : SceneState) (frames : list Foliage.FrameInput)
        (m : Foliage.Material) :
  Forall (fun f => Foliage.f_state f = state) frames ->
  Foliage.uProgress (Foliage.run frames m)
  = Foliage.targetProgress state
    + (Foliage.uProgress m - Foliage.targetProgress state)
      * exp (- 1.5 * Foliage.totalDelta frames)
  /\ (forall frames2,
        Forall (fun f => Foliage.f_state f = state) frames2 ->
        Foliage.totalDelta frames2 = Foliage.totalDelta frames ->
        Foliage.uProgress (Foliage.run frames2 m)
        = Foliage.uProgress (Foliage.run frames m)).
Proof.
  intros Hall.
  pose proof (run_closed_form state frames m Hall) as Hc.
  split; [exact Hc|].
  intros frames2 H2 Hsum.
  rewrite Hc, (run_closed_form state frames2 m H2), Hsum. reflexivity.
Qed.

Lemma foliage_progress_closed_form_witness :
  Foliage.uProgress
    (Foliage.run [ {| Foliage.f_state := FORMED; Foliage.f_elapsed := 1 / 2;
                      Foliage.f_delta := 1 / 2 |};
                   {| Foliage.f_state := FORMED; Foliage.f_elapsed := 1;
                      Foliage.f_delta := 1 / 2 |} ]
                 Foliage.initialMaterial)
  = Foliage.uProgress
      (Foliage.run [ {| Foliage.f_state := FORMED; Foliage.f_elapsed := 1;
                        Foliage.f_delta := 1 |} ]
                   Foliage.initialMaterial).
Proof.
  refine (proj2 (foliage_progress_closed_form FORMED
                   [ {| Foliage.f_state := FORMED; Foliage.f_elapsed := 1;
                        Foliage.f_delta := 1 |} ]
                   Foliage.initialMaterial _)
            [ {| Foliage.f_state := FORMED; Foliage.f_elapsed := 1 / 2;
                 Foliage.f_delta := 1 / 2 |};
              {| Foliage.f_state := FORMED; Foliage.f_elapsed := 1;
                 Foliage.f_delta := 1 / 2 |} ] _ _).
  - apply Forall_cons; [reflexivity | apply Forall_nil].
  - apply Forall_cons; [reflexivity|]. apply Forall_cons; [reflexivity | apply Forall_nil].
  - simpl. lra.
Defined.

(** ** Positions between chaos and target *)

Section SegmentFacts.

Import AnimatorRuns.

Lemma lerp_toward_end p q s a :
  lerp (lerp p q s) q a = lerp p q (s + (1 - s) * a).
Proof. destruct p, q; unfold lerp; simpl; f_equal; ring. Qed.

Lemma lerp_toward_start p q s a :
  lerp (lerp p q s) p a = lerp p q (s * (1 - a)).
Proof. destruct p, q; unfold lerp; simpl; f_equal; ring. Qed.

Lemma on_segment_step p q x a :
  0 <= a <= 1 -> on_segment p q x ->
  on_segment p q (lerp x q a) /\ on_segment p q (lerp x p a).
Proof.
  intros Ha (s & Hs & ->). split.
  - exists (s + (1 - s) * a). split; [nra | apply lerp_toward_end].
  - exists (s * (1 - a)). split; [nra | apply lerp_toward_start].
Qed.

Lemma ornamentFrame_ok f o :
  gentle f -> ornament_ok o ->
  ornament_ok (Animator.ornamentFrame (f_state f) (f_delta f) o).
Proof.
  unfold gentle. intros Hg (Hw & Hseg). split; [exact Hw|].
  rewrite ornamentFrame_pos.
  change (Animator.o_chaosPos (Animator.ornamentFrame (f_state f) (f_delta f) o))
    with (Animator.o_chaosPos o).
  change (Animator.o_targetPos (Animator.ornamentFrame (f_state f) (f_delta f) o))
    with (Animator.o_targetPos o).
  unfold Animator.ornamentAlpha, Animator.ornamentActiveTarget.
  destruct (f_state f).
  - apply on_segment_step; [nra | exact Hseg].
  - apply on_segment_step; [nra | exact Hseg].
Qed.

Lemma elementFrame_ok f e :
  gentle f -> small_ok e ->
  small_ok (Animator.elementFrame (f_state f) (f_delta f) e).
Proof.
  unfold gentle, small_ok. intros Hg Hseg.
  rewrite elementFrame_pos.
  change (Animator.s_chaosPos (Animator.elementFrame (f_state f) (f_delta f) e))
    with (Animator.s_chaosPos e).
  change (Animator.s_targetPos (Animator.elementFrame (f_state f) (f_delta f) e))
    with (Animator.s_targetPos e).
  unfold Animator.elementAlpha, Animator.smallActiveTarget.
  destruct (f_state f); apply on_segment_step; try exact Hseg; lra.
Qed.

Lemma lightFrame_ok f e :
  gentle f -> small_ok e ->
  small_ok (Animator.lightFrame (f_state f) (f_delta f) e).
Proof.
  unfold gentle, small_ok. intros Hg Hseg.
  rewrite lightFrame_pos.
  change (Animator.s_chaosPos (Animator.lightFrame (f_state f) (f_delta f) e))
    with (Animator.s_chaosPos e).
  change (Animator.s_targetPos (Animator.lightFrame (f_state f) (f_delta f) e))
    with (Animator.s_targetPos e).
  unfold Animator.lightAlpha, Animator.smallActiveTarget.
  destruct (f_state f); apply on_segment_step; try exact Hseg; lra.
Qed.

Lemma Forall_map_step (A : Type) (P : A -> Prop) (g : A -> A) l :
  (forall x, P x -> P (g x)) -> Forall P l -> Forall P (map g l).
Proof.
  intros Hg H. induction H as [|x l Hx _ IH]; simpl; constructor; auto.
Qed.

Lemma ornamentsRun_ok frames : forall data,
  Forall gentle frames -> Forall ornament_ok data ->
  Forall ornament_ok (ornamentsRun frames data).
Proof.
  unfold ornamentsRun.
  induction frames as [|f rest IH]; intros data Hg Hd; cbn [fold_left]; [exact Hd|].
  inversion Hg as [|? ? Hf Hrest]; subst.
  apply IH; [exact Hrest|].
  unfold Animator.PhotoOrnaments_useFrame.
  apply Forall_map_step; [|exact Hd]. intros o. apply ornamentFrame_ok. exact Hf.
Qed.

Lemma elementsRun_ok frames : forall data,
  Forall gentle frames -> Forall small_ok data ->
  Forall small_ok (elementsRun frames data).
Proof.
  unfold elementsRun.
  induction frames as [|f rest IH]; intros data Hg Hd; cbn [fold_left]; [exact Hd|].
  inversion Hg as [|? ? Hf Hrest]; subst.
  apply IH; [exact Hrest|].
  unfold Animator.ChristmasElements_useFrame.
  apply Forall_map_step; [|exact Hd]. intros e. apply elementFrame_ok. exact Hf.
Qed.

Lemma lightsRun_ok frames : forall data,
  Forall gentle frames -> Forall small_ok data ->
  Forall small_ok (lightsRun frames data).
Proof.
  unfold lightsRun.
  induction frames as [|f rest IH]; intros data Hg Hd; cbn [fold_left]; [exact Hd|].
  inversion Hg as [|? ? Hf Hrest]; subst.
  apply IH; [exact Hrest|].
  unfold Animator.FairyLights_useFrame.
  apply Forall_map_step; [|exact Hd]. intros e. apply lightFrame_ok. exact Hf.
Qed.

(** The end points of an entity are never written. *)
Lemma lightsRun_ends frames : forall data,
  map Animator.s_chaosPos (lightsRun frames data) = map Animator.s_chaosPos data
  /\ map Animator.s_targetPos (lightsRun frames data) = map Animator.s_targetPos data.
Proof.
  unfold lightsRun.
  induction frames as [|f rest IH]; intros data; cbn [fold_left]; [split; reflexivity|].
  destruct (IH (Animator.FairyLights_useFrame true (f_state f) (f_delta f) data))
    as (E1 & E2).
  rewrite E1, E2. unfold Animator.FairyLights_useFrame.
  rewrite !map_map. split; apply map_ext; intros e; reflexivity.
Qed.

Lemma elementsRun_ends frames : forall data,
  map Animator.s_chaosPos (elementsRun frames data) = map Animator.s_chaosPos data
  /\ map Animator.s_targetPos (elementsRun frames data) = map Animator.s_targetPos data.
Proof.
  unfold elementsRun.
  induction frames as [|f rest IH]; intros data; cbn [fold_left]; [split; reflexivity|].
  destruct (IH (Animator.ChristmasElements_useFrame true (f_state f) (f_delta f) data))
    as (E1 & E2).
  rewrite E1, E2. unfold Animator.ChristmasElements_useFrame.
  rewrite !map_map. split; apply map_ext; intros e; reflexivity.
Qed.

Lemma ornamentsRun_ends frames : forall data,
  map Animator.o_chaosPos (ornamentsRun frames data) = map Animator.o_chaosPos data
  /\ map Animator.o_targetPos (ornamentsRun frames data) = map Animator.o_targetPos data.
Proof.
  unfold ornamentsRun.
  induction frames as [|f rest IH]; intros data; cbn [fold_left]; [split; reflexivity|].
  destruct (IH (Animator.PhotoOrnaments_useFrame true (f_state f) (f_delta f) data))
    as (E1 & E2).
  rewrite E1, E2. unfold Animator.PhotoOrnaments_useFrame.
  rewrite !map_map. split; apply map_ext; intros e; reflexivity.
Qed.

End SegmentFacts.

(** X3: as long as no time step exceeds half a second, every photo
    ornament, decoration and fairy light stays on the straight segment
    between its chaos position and its target position, however often the
    scene state toggles between the frames; the two end points themselves
    are never changed. *)
Theorem positions_stay_on_segment
        (frames : list AnimatorRuns.FrameInput)
        (ornaments : list Animator.OrnamentData)
        (elements lights : list Animator.SmallData) :
  Forall AnimatorRuns.gentle frames ->
  Forall AnimatorRuns.ornament_ok ornaments ->
  Forall AnimatorRuns.small_ok elements ->
  Forall AnimatorRuns.small_ok lights ->
  (Forall AnimatorRuns.ornament_ok (AnimatorRuns.ornamentsRun frames ornaments)
   /\ Forall AnimatorRuns.small_ok (AnimatorRuns.elementsRun frames elements)
   /\ Forall AnimatorRuns.small_ok (AnimatorRuns.lightsRun frames lights))
  /\ (map Animator.o_chaosPos (AnimatorRuns.ornamentsRun frames ornaments)
      = map Animator.o_chaosPos ornaments
      /\ map Animator.o_targetPos (AnimatorRuns.ornamentsRun frames ornaments)
         = map Animator.o_targetPos ornaments)
  /\ (map Animator.s_chaosPos (AnimatorRuns.elementsRun frames elements)
      = map Animator.s_chaosPos elements
      /\ map Animator.s_targetPos (AnimatorRuns.elementsRun frames elements)
         = map Animator.s_targetPos elements)
  /\ (map Animator.s_chaosPos (AnimatorRuns.lightsRun frames lights)
      = map Animator.s_chaosPos lights
      /\ map Animator.s_targetPos (AnimatorRuns.lightsRun frames lights)
         = map Animator.s_targetPos lights).
Proof.
  intros Hg Ho He Hl.
  split; [split; [|split]|].
  - apply ornamentsRun_ok; assumption.
  - apply elementsRun_ok; assumption.
  - apply lightsRun_ok; assumption.
  - split; [apply ornamentsRun_ends|]. split; [apply elementsRun_ends|].
    apply lightsRun_ends.
Qed.

Lemma fresh_small_ok e :
  Animator.s_currentPos e = Animator.s_chaosPos e -> AnimatorRuns.small_ok e.
Proof.
  intros E. exists 0. split; [lra|]. rewrite lerp_zero. exact E.
Qed.

Lemma positions_stay_on_segment_witness :
  Forall AnimatorRuns.small_ok
    (AnimatorRuns.lightsRun
       [ {| AnimatorRuns.f_state := FORMED; AnimatorRuns.f_delta := 1/60 |};
         {| AnimatorRuns.f_state := CHAOS; AnimatorRuns.f_delta := 1/2 |} ]
       [Animator.sample_light]).
Proof.
  refine (proj2 (proj2 (proj1 (positions_stay_on_segment
            [ {| AnimatorRuns.f_state := FORMED; AnimatorRuns.f_delta := 1/60 |};
              {| AnimatorRuns.f_state := CHAOS; AnimatorRuns.f_delta := 1/2 |} ]
            [Animator.sample_ornament] [Animator.sample_element]
            [Animator.sample_light] _ _ _ _)))).
  - apply Forall_cons; [unfold AnimatorRuns.gentle; simpl; lra|].
    apply Forall_cons; [unfold AnimatorRuns.gentle; simpl; lra | apply Forall_nil].
  - apply Forall_cons; [|apply Forall_nil]. split; [simpl; lra|].
    exists 0. split; [lra|]. rewrite lerp_zero. reflexivity.
  - apply Forall_cons; [|apply Forall_nil]. apply fresh_small_ok. reflexivity.
  - apply Forall_cons; [|apply Forall_nil]. apply fresh_small_ok. reflexivity.
Defined.

(** ** Frames of equal length *)

Section SteadyRuns.

Variable A : Type.
Variable step : A -> A.
Variables cur tgt : A -> Vector3.
Variable alpha : A -> R.
Hypothesis step_cur : forall x, cur (step x) = lerp (cur x) (tgt x) (alpha x).
Hypothesis step_tgt : forall x, tgt (step x) = tgt x.
Hypothesis step_alpha : forall x, alpha (step x) = alpha x.

(** [n] rounds of [step] over a whole population. *)
Lemma steady_population (F : Type) (f : F) n : forall data,
  Forall2 (fun x y => tgt y = tgt x /\ alpha y = alpha x
                      /\ cur y = lerp (cur x) (tgt x) (1 - (1 - alpha x) ^ n))
          data
          (fold_left (fun d (_ : F) => map step d) (repeat f n) data).
Proof.
  induction n as [|n IH]; intros data; cbn [repeat fold_left].
  - induction data as [|x data IHd]; constructor; [|exact IHd].
    split; [reflexivity|]. split; [reflexivity|].
    replace (1 - (1 - alpha x) ^ 0) with 0 by (simpl; lra).
    symmetry. apply lerp_zero.
  - specialize (IH (map step data)).
    remember (fold_left (fun d (_ : F) => map step d) (repeat f n) (map step data))
      as result eqn:E. clear E.
    revert result IH.
    induction data as [|x data IHd]; intros result H; simpl in H.
    + inversion H. constructor.
    + inversion H as [|? y ? rest (Ht & Ha & Hc) Hrest]; subst.
      constructor; [|apply IHd; exact Hrest].
      rewrite step_tgt in Ht. rewrite step_alpha in Ha.
      split; [exact Ht|]. split; [exact Ha|].
      rewrite Hc, step_cur, step_tgt, step_alpha, lerp_toward_end.
      f_equal. simpl. ring.
Qed.

End SteadyRuns.

Lemma fold_left_repeat (D F : Type) (h : D -> F -> D) (x : F) n : forall d,
  fold_left h (repeat x n) d = fold_left (fun d (_ : F) => h d x) (repeat x n) d.
Proof.
  induction n as [|n IH]; intros d; simpl; [reflexivity | apply IH].
Qed.

(** X4: after [n] frames of one time step in one scene state, every photo
    ornament, decoration and fairy light is at
    [lerp(start, target, 1 - (1 - a)^n)], [a] being its interpolation factor
    [delta * rate]: each frame multiplies what is left of the way by
    [1 - a]. *)
Theorem steady_frames_closed_form
        (state : SceneState) (delta : R) (n : nat)
        (ornaments : list Animator.OrnamentData)
        (elements lights : list Animator.SmallData) :
  Forall2 (fun o o' =>
             Animator.o_currentPos o'
             = lerp (Animator.o_currentPos o)
                    (Animator.ornamentActiveTarget state o)
                    (1 - (1 - Animator.ornamentAlpha state delta o) ^ n))
          ornaments
          (AnimatorRuns.ornamentsRun (AnimatorRuns.steady state delta n) ornaments)
  /\ Forall2 (fun e e' =>
                Animator.s_currentPos e'
                = lerp (Animator.s_currentPos e)
                       (Animator.smallActiveTarget state e)
                       (1 - (1 - Animator.elementAlpha delta) ^ n))
             elements
             (AnimatorRuns.elementsRun (AnimatorRuns.steady state delta n) elements)
  /\ Forall2 (fun l l' =>
                Animator.s_currentPos l'
                = lerp (Animator.s_currentPos l)
                       (Animator.smallActiveTarget state l)
                       (1 - (1 - Animator.lightAlpha delta) ^ n))
             lights
             (AnimatorRuns.lightsRun (AnimatorRuns.steady state delta n) lights).
Proof.
  unfold AnimatorRuns.ornamentsRun, AnimatorRuns.elementsRun, AnimatorRuns.lightsRun,
    AnimatorRuns.steady, Animator.PhotoOrnaments_useFrame,
    Animator.ChristmasElements_useFrame, Animator.FairyLights_useFrame.
  split; [|split]; rewrite fold_left_repeat;
    cbn [AnimatorRuns.f_state AnimatorRuns.f_delta].
  - eapply Forall2_impl;
      [|apply (steady_population _ (Animator.ornamentFrame state delta)
                 Animator.o_currentPos (Animator.ornamentActiveTarget state)
                 (Animator.ornamentAlpha state delta))].
    + intros o o' (_ & _ & H). exact H.
    + intros o. apply ornamentFrame_pos.
    + intros o. destruct state; reflexivity.
    + intros o. destruct state; reflexivity.
  - eapply Forall2_impl;
      [|apply (steady_population _ (Animator.elementFrame state delta)
                 Animator.s_currentPos (Animator.smallActiveTarget state)
                 (fun _ => Animator.elementAlpha delta))].
    + intros e e' (_ & _ & H). exact H.
    + intros e. apply elementFrame_pos.
    + intros e. destruct state; reflexivity.
    + intros e. reflexivity.
  - eapply Forall2_impl;
      [|apply (steady_population _ (Animator.lightFrame state delta)
                 Animator.s_currentPos (Animator.smallActiveTarget state)
                 (fun _ => Animator.lightAlpha delta))].
    + intros e e' (_ & _ & H). exact H.
    + intros e. apply lightFrame_pos.
    + intros e. destruct state; reflexivity.
    + intros e. reflexivity.
Qed.

(** ** Layers of the tree *)

Lemma radial2_on_cone radius y theta :
  AnimatorRuns.radial2 (Layout.on_cone radius y theta) = radius * radius.
Proof. unfold AnimatorRuns.radial2, Layout.on_cone; simpl. apply unit_circle_radius. Qed.

(** X5: at one height of the tree, whatever the angles, a foliage point and
    a decoration are closer to the axis than the local radius of the cone,
    a fairy light is farther out than that, and a photo ornament farther
    out than any fairy light: photos are never buried in the foliage. *)
Theorem tree_layers (u_y u_r t_foliage t_element t_light t_ornament : R) :
  Num.unit_draw u_y -> Num.unit_draw u_r ->
  (vy (Layout.getTreePosition u_y t_foliage u_r) = Layout.height_of u_y
   /\ vy (Layout.elementTarget u_y t_element) = Layout.height_of u_y
   /\ vy (Layout.lightTarget u_y t_light) = Layout.height_of u_y
   /\ vy (Layout.ornamentTarget u_y t_ornament) = Layout.height_of u_y)
  /\ AnimatorRuns.radial2 (Layout.getTreePosition u_y t_foliage u_r)
     < Layout.localRadius (Layout.height_of u_y) * Layout.localRadius (Layout.height_of u_y)
  /\ AnimatorRuns.radial2 (Layout.elementTarget u_y t_element)
     < Layout.localRadius (Layout.height_of u_y) * Layout.localRadius (Layout.height_of u_y)
  /\ Layout.localRadius (Layout.height_of u_y) * Layout.localRadius (Layout.height_of u_y)
     < AnimatorRuns.radial2 (Layout.lightTarget u_y t_light)
  /\ AnimatorRuns.radial2 (Layout.lightTarget u_y t_light)
     < AnimatorRuns.radial2 (Layout.ornamentTarget u_y t_ornament).
Proof.
  intros Hy Hr.
  destruct (conical_ranges u_y 0 Hy) as (_ & _ & HR & _);
    [unfold Num.unit_draw; lra|].
  set (R0 := Layout.localRadius (Layout.height_of u_y)) in *.
  split; [repeat split|].
  change (Layout.getTreePosition u_y t_foliage u_r)
    with (Layout.on_cone (u_r * R0) (Layout.height_of u_y) (Layout.angle_of t_foliage)).
  change (Layout.elementTarget u_y t_element)
    with (Layout.on_cone (R0 * 0.95) (Layout.height_of u_y) (Layout.angle_of t_element)).
  change (Layout.lightTarget u_y t_light)
    with (Layout.on_cone (R0 + 0.3) (Layout.height_of u_y) (Layout.angle_of t_light)).
  change (Layout.ornamentTarget u_y t_ornament)
    with (Layout.on_cone (R0 + 0.5) (Layout.height_of u_y) (Layout.angle_of t_ornament)).
  rewrite !radial2_on_cone. unfold Num.unit_draw in Hr.
  clearbody R0. destruct HR as (HR0 & _).
  assert (H1 : 0 <= u_r * R0 < R0) by nra.
  repeat split; nra.
Qed.

Lemma tree_layers_witness :
  AnimatorRuns.radial2 (Layout.lightTarget (1/2) (1/3))
  < AnimatorRuns.radial2 (Layout.ornamentTarget (1/2) (2/3)).
Proof.
  refine (proj2 (proj2 (proj2 (proj2 (tree_layers (1/2) (1/2) 0 0 (1/3) (2/3) _ _)))));
    unfold Num.unit_draw; lra.
Defined.

(** ** Construction of a photo ornament *)

(** X6: a photo ornament built from draws of [Math.random()] starts at its
    chaos position inside the cube of side 70 around the origin, its height
    there never above the height an unsquared draw would give; its target
    lies between the heights -16 and 16 at most 13.5 from the axis; it is
    drawn larger in chaos (scale at least 1.2) than on the tree (scale below
    0.5); its weight is in [[0.8, 2)] and its photo index is below the
    number of photos. *)
Theorem ornament_construction (n i : nat) (d : Animator.OrnamentDraws) :
  (0 < n)%nat -> AnimatorRuns.unit_ornament_draws d ->
  Animator.o_currentPos (Animator.mkOrnament n i d)
  = Animator.o_chaosPos (Animator.mkOrnament n i d)
  /\ (-35 <= vx (Animator.o_chaosPos (Animator.mkOrnament n i d)) < 35
      /\ -35 <= vy (Animator.o_chaosPos (Animator.mkOrnament n i d)) < 35
      /\ -35 <= vz (Animator.o_chaosPos (Animator.mkOrnament n i d)) < 35)
  /\ vy (Animator.o_chaosPos (Animator.mkOrnament n i d))
     <= -35 + Animator.od_yRandom d * 70
  /\ (-16 <= vy (Animator.o_targetPos (Animator.mkOrnament n i d)) < 16
      /\ AnimatorRuns.radial2 (Animator.o_targetPos (Animator.mkOrnament n i d))
         <= 13.5 * 13.5)
  /\ (0.3 <= Animator.o_formedScale (Animator.mkOrnament n i d) < 0.5
      /\ 1.2 <= Animator.o_chaosScale (Animator.mkOrnament n i d) < 3.7)
  /\ 0.8 <= Animator.o_weight (Animator.mkOrnament n i d) < 2
  /\ (Animator.o_textureIndex (Animator.mkOrnament n i d) < n)%nat.
Proof.
  unfold AnimatorRuns.unit_ornament_draws, Num.unit_draw.
  intros Hn (Hyr & Hcx & Hcz & Hy & Ht & Hfs & Hw & _).
  split; [reflexivity|].
  split; [simpl; repeat split; nra|].
  split; [simpl; nra|].
  split.
  { destruct (conical_ranges (Animator.od_y d) 0) as (Hh & _ & HR & _);
      [exact Hy | unfold Num.unit_draw; lra |].
    unfold CONFIG.tree_height, CONFIG.tree_radius in *.
    split; [simpl; unfold CONFIG.tree_height; lra|].
    change (Animator.o_targetPos (Animator.mkOrnament n i d))
      with (Layout.on_cone (Layout.localRadius (Layout.height_of (Animator.od_y d)) + 0.5)
                           (Layout.height_of (Animator.od_y d))
                           (Layout.angle_of (Animator.od_theta d))).
    rewrite radial2_on_cone. nra. }
  split; [simpl; repeat split; lra|].
  split; [simpl; lra|].
  simpl. apply Nat.mod_upper_bound. lia.
Qed.

Lemma ornament_construction_witness :
  0.8 <= Animator.o_weight Animator.sample_ornament < 2.
Proof.
  refine (proj1 (proj2 (proj2 (proj2 (proj2 (proj2
            (ornament_construction 35 0 Animator.half_ornament_draws _ _))))))).
  - lia.
  - unfold AnimatorRuns.unit_ornament_draws, Num.unit_draw; simpl.
    repeat split; lra.
Defined.

(** ** Particles of a firework *)

Section ParticleFacts.

Import Particles ParticleRuns.

(** Time a firework takes to reach its explosion point. *)
Lemma timeToExplode_bounds mode now d :
  unit_draws d ->
  exists T, 3 / 25 <= T
            /\ lifetime (createFirework mode now d) = T + (if mode then 2.5 else 3.0)
            /\ (mode = false -> 6 / 7 <= T)
            /\ explosionTime (createFirework mode now d)
               = map (fun i => T + pd_delay (fd_particles d i) * 0.15)
                     (seq 0 (particleCount mode))
            /\ vy (launchPos (createFirework mode now d))
               < vy (explosionPos (createFirework mode now d))
            /\ vx (launchPos (createFirework mode now d))
               = vx (explosionPos (createFirework mode now d))
            /\ vz (launchPos (createFirework mode now d))
               = vz (explosionPos (createFirework mode now d)).
Proof.
  unfold unit_draws, Num.unit_draw. intros (_ & Hy & _ & Hh & Hs).
  destruct mode.
  - exists ((3 + fd_height d * 8) / (15 + fd_speed d * 10)).
    assert (Hpos : 0 < 15 + fd_speed d * 10) by lra.
    assert (E : Rabs (5 + (fd_launchY d - 0.5) * 10 + 3 + fd_height d * 8
                      - (5 + (fd_launchY d - 0.5) * 10))
                = 3 + fd_height d * 8).
    { replace (5 + (fd_launchY d - 0.5) * 10 + 3 + fd_height d * 8
               - (5 + (fd_launchY d - 0.5) * 10))
        with (3 + fd_height d * 8) by lra.
      apply Rabs_right. lra. }
    split.
    { apply Rmult_le_reg_r with (15 + fd_speed d * 10); [exact Hpos|].
      replace ((3 + fd_height d * 8) / (15 + fd_speed d * 10) * (15 + fd_speed d * 10))
        with (3 + fd_height d * 8) by (field; lra).
      nra. }
    split; [simpl; rewrite E; reflexivity|].
    split; [intros H; discriminate|].
    split; [simpl; rewrite E; reflexivity|].
    simpl. repeat split; lra.
  - exists ((30 + fd_height d * 15) / (20 + fd_speed d * 15)).
    assert (Hpos : 0 < 20 + fd_speed d * 15) by lra.
    assert (E : Rabs (15 + fd_height d * 15 - -15) = 30 + fd_height d * 15).
    { replace (15 + fd_height d * 15 - -15) with (30 + fd_height d * 15) by lra.
      apply Rabs_right. lra. }
    assert (H67 : 6 / 7 <= (30 + fd_height d * 15) / (20 + fd_speed d * 15)).
    { apply Rmult_le_reg_r with (20 + fd_speed d * 15); [exact Hpos|].
      replace ((30 + fd_height d * 15) / (20 + fd_speed d * 15) * (20 + fd_speed d * 15))
        with (30 + fd_height d * 15) by (field; lra).
      nra. }
    split; [lra|].
    split; [simpl; rewrite E; reflexivity|].
    split; [intros _; exact H67|].
    split; [simpl; rewrite E; reflexivity|].
    simpl. repeat split; lra.
Qed.

Lemma particlePosition_launch b elapsed v tE :
  0 < tE -> elapsed < tE ->
  vx (launchPos b) = vx (explosionPos b) ->
  vz (launchPos b) = vz (explosionPos b) ->
  particlePosition b elapsed v tE
  = Some (lerp (launchPos b) (explosionPos b) (elapsed / tE)).
Proof.
  intros HtE Hlt Hx Hz. unfold particlePosition.
  assert (E : Num.ltb elapsed tE = true) by (apply Num_ltb_spec; exact Hlt).
  rewrite E. f_equal. unfold lerp. f_equal.
  - rewrite <- Hx. lra.
  - field. lra.
  - rewrite <- Hz. lra.
Qed.

Lemma particlePosition_at_explosion b v tE :
  particlePosition b tE v tE = Some (explosionPos b).
Proof.
  unfold particlePosition.
  assert (E : Num.ltb tE tE = false) by (apply Num_ltb_false; lra).
  rewrite E.
  assert (E3 : Num.ltb (tE - tE) 3.0 = true) by (apply Num_ltb_spec; lra).
  rewrite E3. f_equal. destruct (explosionPos b) as [x y z]; simpl.
  f_equal; replace (tE - tE) with 0 by lra; lra.
Qed.

Lemma particlePosition_some b elapsed v tE :
  elapsed - tE < 3 ->
  exists p, particlePosition b elapsed v tE = Some p.
Proof.
  intros H. unfold particlePosition.
  destruct (Num.ltb elapsed tE); [eexists; reflexivity|].
  assert (E3 : Num.ltb (elapsed - tE) 3.0 = true) by (apply Num_ltb_spec; lra).
  rewrite E3. eexists; reflexivity.
Qed.

Lemma flat_map_singletons (X Y : Type) (f : X -> list Y) l :
  Forall (fun x => exists y, f x = [y]) l ->
  List.length (flat_map f l) = List.length l.
Proof.
  induction 1 as [|x l (y & Hy) _ IH]; simpl; [reflexivity|].
  rewrite Hy. simpl. rewrite IH. reflexivity.
Qed.

End ParticleFacts.

(** X7: as long as a batch is held (its age below its lifetime), every one
    of its particles is in the position buffer, 400 for a firework of the
    open photo and 600 for the firework of the formed tree: the bound of 3
    seconds after the explosion is never reached within the lifetime. *)
Theorem live_batch_fully_drawn (mode : bool) (t now : Z)
        (d : Particles.FireworkDraws) :
  Particles.unit_draws d -> ParticleRuns.unit_particles d ->
  Particles.alive now (Particles.createFirework mode t d) = true ->
  List.length (Particles.allPositions now [Particles.createFirework mode t d])
  = ParticleRuns.particleCount mode.
Proof.
  intros Hd Hp Hal.
  destruct (timeToExplode_bounds mode t d Hd) as (T & HT & Hlife & _ & Hexp & _).
  apply alive_spec in Hal. rewrite Hlife in Hal.
  unfold Particles.allPositions. cbn [flat_map]. rewrite app_nil_r.
  rewrite flat_map_singletons.
  - rewrite length_combine, Hexp, !length_map.
    change (Particles.velocities (Particles.createFirework mode t d))
      with (map (fun i => (fun p : Particles.ParticleDraws =>
                   let theta := Particles.pd_theta p * PI * 2 in
                   let phi := Particles.pd_phi p * PI in
                   let explosionSpeed :=
                     if mode then 12 + Particles.pd_speed p * 20
                     else 8 + Particles.pd_speed p * 15 in
                   mkVector3 (sin phi * cos theta * explosionSpeed)
                             (cos phi * explosionSpeed * (if mode then 0.4 else 0.3))
                             (sin phi * sin theta * explosionSpeed))
                  (Particles.fd_particles d i))
                (seq 0 (if mode then 400%nat else 600%nat))).
    rewrite length_map, !length_seq.
    destruct mode; reflexivity.
  - apply Forall_forall. intros [v tE] Hin.
    apply in_combine_r in Hin. rewrite Hexp in Hin.
    apply in_map_iff in Hin. destruct Hin as (i & <- & _).
    specialize (Hp i). unfold Num.unit_draw in Hp.
    destruct (particlePosition_some (Particles.createFirework mode t d)
                (IZR (now - Particles.startTime (Particles.createFirework mode t d)) / 1000)
                v (T + Particles.pd_delay (Particles.fd_particles d i) * 0.15))
      as (p & Hpos).
    + destruct mode; lra.
    + exists p. cbn [fst snd]. rewrite Hpos. reflexivity.
Qed.

Lemma halfFirework_particles : ParticleRuns.unit_particles Particles.halfFirework.
Proof. intros i. unfold Num.unit_draw; simpl. lra. Qed.

Lemma live_batch_fully_drawn_witness :
  List.length
    (Particles.allPositions 1000 [Particles.createFirework true 0 Particles.halfFirework])
  = ParticleRuns.particleCount true.
Proof.
  apply (live_batch_fully_drawn true 0 1000 Particles.halfFirework).
  - exact halfFirework_unit.
  - exact halfFirework_particles.
  - apply halfFirework_alive. lia.
Defined.

(** X8: before its explosion time a particle is on the straight way up
    from the launch point to the explosion point, at the share
    [elapsed / explosionTime] of it, and at its explosion time it is at the
    explosion point, which lies above the launch point: the trajectory has
    no jump between the two phases. *)
Theorem launch_phase_trajectory (mode : bool) (t : Z)
        (d : Particles.FireworkDraws) (i : nat) (v : Vector3) (elapsed : R) :
  Particles.unit_draws d -> ParticleRuns.unit_particles d ->
  (i < ParticleRuns.particleCount mode)%nat ->
  exists tE,
    nth_error (Particles.explosionTime (Particles.createFirework mode t d)) i = Some tE
    /\ 0 < tE
    /\ (elapsed < tE ->
        Particles.particlePosition (Particles.createFirework mode t d) elapsed v tE
        = Some (lerp (Particles.launchPos (Particles.createFirework mode t d))
                     (Particles.explosionPos (Particles.createFirework mode t d))
                     (elapsed / tE)))
    /\ Particles.particlePosition (Particles.createFirework mode t d) tE v tE
       = Some (Particles.explosionPos (Particles.createFirework mode t d))
    /\ vy (Particles.launchPos (Particles.createFirework mode t d))
       < vy (Particles.explosionPos (Particles.createFirework mode t d)).
Proof.
  intros Hd Hp Hi.
  destruct (timeToExplode_bounds mode t d Hd) as (T & HT & _ & _ & Hexp & Hup & Hx & Hz).
  exists (T + Particles.pd_delay (Particles.fd_particles d i) * 0.15).
  specialize (Hp i). unfold Num.unit_draw in Hp.
  assert (HtE : 0 < T + Particles.pd_delay (Particles.fd_particles d i) * 0.15) by lra.
  split.
  { rewrite Hexp, nth_error_map, nth_error_nth' with (d := 0%nat)
      by (rewrite length_seq; exact Hi).
    rewrite seq_nth by exact Hi. reflexivity. }
  split; [exact HtE|].
  split; [intros Hlt; apply particlePosition_launch; assumption|].
  split; [apply particlePosition_at_explosion | exact Hup].
Qed.

Lemma launch_phase_trajectory_witness :
  exists tE,
    nth_error (Particles.explosionTime
                 (Particles.createFirework true 0 Particles.halfFirework)) 7
    = Some tE
    /\ 0 < tE.
Proof.
  destruct (launch_phase_trajectory true 0 Particles.halfFirework 7
              (mkVector3 0 0 0) 0)
    as (tE & H1 & H2 & _).
  - exact halfFirework_unit.
  - exact halfFirework_particles.
  - simpl; lia.
  - exists tE. split; assumption.
Defined.

(** ** Life of a batch *)

Section BatchLife.

Import Particles ParticleRuns.

Lemma alive_earlier now1 now2 b :
  (now1 <= now2)%Z -> alive now2 b = true -> alive now1 b = true.
Proof.
  intros Hle H. apply alive_spec in H. apply alive_spec.
  assert (IZR (now1 - startTime b) <= IZR (now2 - startTime b)) by (apply IZR_le; lia).
  lra.
Qed.

(** The batches after a frame that runs. *)
Lemma useFrame_batches o now d st :
  isActive st = true ->
  particleBatches (useFrame true o now d st)
  = filter (alive now) (particleBatches (spawnBlock o now d st))
  /\ isActive (useFrame true o now d st) = true.
Proof.
  intros Ha. unfold useFrame. rewrite Ha. simpl.
  split; [reflexivity|].
  unfold spawnBlock. destruct (spawns o now st); simpl; exact Ha.
Qed.

Lemma spawnBlock_keeps o now d st b :
  In b (particleBatches st) -> In b (particleBatches (spawnBlock o now d st)).
Proof.
  intros H. unfold spawnBlock. destruct (spawns o now st); simpl; [|exact H].
  apply in_or_app. left; exact H.
Qed.

Lemma run_active frames : forall st,
  isActive st = true -> isActive (run frames st) = true.
Proof.
  unfold run. induction frames as [|f rest IH]; intros st Ha; cbn [fold_left]; [exact Ha|].
  apply IH. apply useFrame_batches. exact Ha.
Qed.

(** What is held after the last frame is alive at its time. *)
Lemma run_all_alive frames : forall st b,
  frames <> [] -> isActive st = true ->
  In b (particleBatches (run frames st)) -> alive (lastTime frames) b = true.
Proof.
  unfold run, lastTime.
  induction frames as [|f rest IH]; intros st b Hne Ha Hin; [contradiction|].
  cbn [fold_left] in Hin.
  destruct rest as [|f2 rest'].
  - cbn [fold_left] in Hin. simpl.
    destruct (useFrame_batches (f_open f) (f_now f) (f_draws f) st Ha) as (E & _).
    rewrite E in Hin. apply filter_In in Hin. apply Hin.
  - change (last (map f_now (f :: f2 :: rest')) 0%Z)
      with (last (map f_now (f2 :: rest')) 0%Z).
    apply (IH (useFrame true (f_open f) (f_now f) (f_draws f) st)).
    + discriminate.
    + apply useFrame_batches. exact Ha.
    + exact Hin.
Qed.

(** A batch alive at the time of every frame is kept through them. *)
Lemma run_keeps_alive frames : forall st b,
  isActive st = true ->
  Forall (fun f => alive (f_now f) b = true) frames ->
  In b (particleBatches st) -> In b (particleBatches (run frames st)).
Proof.
  unfold run.
  induction frames as [|f rest IH]; intros st b Ha Hall Hin; cbn [fold_left]; [exact Hin|].
  inversion Hall as [|? ? Hf Hrest]; subst.
  apply IH; [apply useFrame_batches; exact Ha | exact Hrest |].
  destruct (useFrame_batches (f_open f) (f_now f) (f_draws f) st Ha) as (E & _).
  rewrite E. apply filter_In. split; [apply spawnBlock_keeps; exact Hin | exact Hf].
Qed.

(** With the photo closed no frame adds a batch. *)
Lemma closed_run_subset frames : forall st b,
  Forall (fun f => f_open f = false) frames ->
  In b (particleBatches (run frames st)) -> In b (particleBatches st).
Proof.
  unfold run.
  induction frames as [|f rest IH]; intros st b Hall Hin; cbn [fold_left] in Hin;
    [exact Hin|].
  inversion Hall as [|? ? Hf Hrest]; subst.
  apply IH in Hin; [|exact Hrest].
  unfold useFrame in Hin. rewrite Hf in Hin.
  destruct (negb true || negb (isActive st)); [exact Hin|].
  simpl in Hin. apply filter_In in Hin. apply Hin.
Qed.

End BatchLife.

(** X9: along frames whose clock never exceeds the clock of the last one,
    a batch held at the start is still held after the last frame if and
    only if its age at that frame is below its lifetime; and whatever is
    held then, old or new, is of an age below its lifetime. *)
Theorem batch_lifecycle (frames : list ParticleRuns.FrameInput)
        (st : Particles.State) (b : Particles.Batch) :
  frames <> [] ->
  Particles.isActive st = true ->
  Forall (fun f => (ParticleRuns.f_now f <= ParticleRuns.lastTime frames)%Z) frames ->
  In b (Particles.particleBatches st) ->
  (In b (Particles.particleBatches (ParticleRuns.run frames st))
   <-> IZR (ParticleRuns.lastTime frames - Particles.startTime b) / 1000
       < Particles.lifetime b)
  /\ (forall b2,
        In b2 (Particles.particleBatches (ParticleRuns.run frames st)) ->
        IZR (ParticleRuns.lastTime frames - Particles.startTime b2) / 1000
        < Particles.lifetime b2).
Proof.
  intros Hne Ha Htimes Hin.
  split.
  - rewrite <- alive_spec. split.
    + apply run_all_alive; assumption.
    + intros Hal. apply run_keeps_alive; [exact Ha | | exact Hin].
      eapply Forall_impl; [|exact Htimes].
      intros f Hf. apply (alive_earlier _ _ b Hf Hal).
  - intros b2 H2. apply alive_spec. apply (run_all_alive frames st b2 Hne Ha H2).
Qed.

Lemma batch_lifecycle_witness :
  In (Particles.createFirework true 0 Particles.halfFirework)
     (Particles.particleBatches
        (ParticleRuns.run
           [ {| ParticleRuns.f_open := true; ParticleRuns.f_now := 1000;
                ParticleRuns.f_draws := Particles.halfFirework |} ]
           (Particles.stateWith [0%Z] 0)))
  <-> IZR (ParticleRuns.lastTime
             [ {| ParticleRuns.f_open := true; ParticleRuns.f_now := 1000;
                  ParticleRuns.f_draws := Particles.halfFirework |} ]
           - Particles.startTime (Particles.createFirework true 0 Particles.halfFirework))
      / 1000
      < Particles.lifetime (Particles.createFirework true 0 Particles.halfFirework).
Proof.
  refine (proj1 (batch_lifecycle
            [ {| ParticleRuns.f_open := true; ParticleRuns.f_now := 1000;
                 ParticleRuns.f_draws := Particles.halfFirework |} ]
            (Particles.stateWith [0%Z] 0)
            (Particles.createFirework true 0 Particles.halfFirework) _ _ _ _)).
  - discriminate.
  - reflexivity.
  - apply Forall_cons; [|apply Forall_nil]. unfold ParticleRuns.lastTime.
    cbn [map last ParticleRuns.f_now]. lia.
  - left. reflexivity.
Defined.

(** X10: the firework of the formed tree does not live to explode.  When
    the trigger rises with the photo closed, one batch is launched; when
    the trigger falls again, the effect of the open photo runs with both
    props false, empties the batch list and switches the component off.
    [Experience] lowers the trigger 100 ms after raising it, and no
    particle of that batch explodes before 6/7 of a second: at every frame
    in between all its particles are still on the way up. *)
Theorem formation_firework_cut_short
        (t : Z) (d1 d2 d3 d4 : Particles.FireworkDraws)
        (frames : list ParticleRuns.FrameInput) (st : Particles.State)
        (i : nat) (tE elapsed : R) (v : Vector3) :
  Particles.unit_draws d1 -> ParticleRuns.unit_particles d1 ->
  Forall (fun f => ParticleRuns.f_open f = false) frames ->
  nth_error (Particles.explosionTime (Particles.createFirework false t d1)) i = Some tE ->
  elapsed <= IZR ParticleRuns.triggerPulse / 1000 ->
  Particles.particleBatches (ParticleRuns.propsEffect true false t d1 d2 st)
  = [Particles.createFirework false t d1]
  /\ Particles.isActive (ParticleRuns.propsEffect true false t d1 d2 st) = true
  /\ (forall b,
        In b (Particles.particleBatches
                (ParticleRuns.run frames
                   (ParticleRuns.propsEffect true false t d1 d2 st))) ->
        b = Particles.createFirework false t d1)
  /\ (6 / 7 <= tE
      /\ Particles.particlePosition (Particles.createFirework false t d1) elapsed v tE
         = Some (lerp (Particles.launchPos (Particles.createFirework false t d1))
                      (Particles.explosionPos (Particles.createFirework false t d1))
                      (elapsed / tE)))
  /\ Particles.particleBatches
       (ParticleRuns.propsEffect false false (t + ParticleRuns.triggerPulse) d3 d4
          (ParticleRuns.run frames (ParticleRuns.propsEffect true false t d1 d2 st)))
     = []
  /\ Particles.isActive
       (ParticleRuns.propsEffect false false (t + ParticleRuns.triggerPulse) d3 d4
          (ParticleRuns.run frames (ParticleRuns.propsEffect true false t d1 d2 st)))
     = false.
Proof.
  intros Hd Hp Hclosed Hnth Hel.
  split; [reflexivity|]. split; [reflexivity|].
  split.
  { intros b Hb. apply closed_run_subset in Hb; [|exact Hclosed].
    simpl in Hb. destruct Hb as [<- | []]. reflexivity. }
  split.
  { destruct (timeToExplode_bounds false t d1 Hd)
      as (T & _ & _ & H67 & Hexp & _ & Hx & Hz).
    specialize (H67 eq_refl).
    rewrite Hexp in Hnth. rewrite nth_error_map in Hnth.
    destruct (nth_error (seq 0 (ParticleRuns.particleCount false)) i) as [k|];
      [|discriminate].
    simpl in Hnth. injection Hnth as <-.
    specialize (Hp k). unfold Num.unit_draw in Hp.
    unfold ParticleRuns.triggerPulse in Hel.
    split; [lra|].
    apply particlePosition_launch; [lra | lra | exact Hx | exact Hz]. }
  split; reflexivity.
Qed.

Lemma formation_firework_cut_short_witness :
  Particles.particleBatches
    (ParticleRuns.propsEffect false false (0 + ParticleRuns.triggerPulse)
       Particles.halfFirework Particles.halfFirework
       (ParticleRuns.run
          [ {| ParticleRuns.f_open := false; ParticleRuns.f_now := 16;
               ParticleRuns.f_draws := Particles.halfFirework |} ]
          (ParticleRuns.propsEffect true false 0 Particles.halfFirework
             Particles.halfFirework Particles.initialState)))
  = [].
Proof.
  refine (proj1 (proj2 (proj2 (proj2 (proj2
            (formation_firework_cut_short 0 Particles.halfFirework
               Particles.halfFirework Particles.halfFirework Particles.halfFirework
               [ {| ParticleRuns.f_open := false; ParticleRuns.f_now := 16;
                    ParticleRuns.f_draws := Particles.halfFirework |} ]
               Particles.initialState 0
               ((30 + 1 / 2 * 15) / (20 + 1 / 2 * 15) + 1 / 2 * 0.15)
               0 (mkVector3 0 0 0) _ _ _ _ _)))))).
  - exact halfFirework_unit.
  - exact halfFirework_particles.
  - apply Forall_cons; [reflexivity | apply Forall_nil].
  - destruct (timeToExplode_bounds false 0 Particles.halfFirework halfFirework_unit)
      as (T & _ & Hlife & _ & Hexp & _).
    rewrite Hexp. cbn [ParticleRuns.particleCount seq map nth_error].
    f_equal.
    assert (HT : T = (30 + 1 / 2 * 15) / (20 + 1 / 2 * 15)).
    { simpl in Hlife.
      replace (15 + 1 / 2 * 15 - -15) with (30 + 1 / 2 * 15) in Hlife by lra.
      rewrite Rabs_right in Hlife by lra. lra. }
    rewrite HT. reflexivity.
  - unfold ParticleRuns.triggerPulse. lra.
Defined.

(** ** Life of the lightbox *)

Section LightboxFacts.

Import Experience Lightbox.

Lemma openBlock_cases i st :
  (openBlock i st = Some st)
  \/ (openBlock i st = None)
  \/ (exists children sel,
        openGuard (now i) (hand i) st = true
        /\ photoGroup i = Some children
        /\ selectPhoto (draw i) (candidatesOf i children st) = Some sel
        /\ openBlock i st
           = Some {| isLightboxOpen := true;
                     lightboxPhotoIndex := Some (pd_textureIndex sel);
                     hasPinched := true;
                     pinchCooldownUntil := pinchCooldownUntil st;
                     fireworkTrigger := fireworkTrigger st;
                     prevSceneState := prevSceneState st;
                     fadeOutTimer := false;
                     recentlyViewedPhotos :=
                       pushRecent (recentlyViewedPhotos st) (pd_textureIndex sel);
                     lightboxOpacity := 0 |}).
Proof.
  unfold openBlock.
  destruct (openGuard (now i) (hand i) st) eqn:G; [|left; reflexivity].
  destruct (photoGroup i) as [children|] eqn:Eg; [|left; reflexivity].
  destruct (selectPhoto (draw i) (candidatesOf i children st)) as [sel|] eqn:Es.
  - right; right. exists children, sel. auto.
  - right; left; reflexivity.
Qed.





End LightboxFacts.



Section LightboxHold.

Import Experience Lightbox.

(** With the latch set and no close timer pending, an event during which
    the hand keeps pinching changes nothing of the lightbox. *)
Lemma held_step st e :
  hasPinched st = true -> fadeOutTimer st = false -> pinchHeld e ->
  exists st1,
    step st e = Some st1
    /\ hasPinched st1 = true /\ fadeOutTimer st1 = false
    /\ isLightboxOpen st1 = isLightboxOpen st
    /\ lightboxPhotoIndex st1 = lightboxPhotoIndex st
    /\ recentlyViewedPhotos st1 = recentlyViewedPhotos st.
Proof.
  intros Hp Ht He. destruct e as [i | t s | | |]; simpl in *.
  - assert (G : openGuard (now i) (hand i) st = false).
    { unfold openGuard. rewrite Hp. simpl. apply andb_false_r. }
    rewrite (useFrame_guard_false i st G).
    unfold closeBlock. rewrite He. simpl. exists st. repeat split; assumption.
  - eexists. split; [reflexivity|]. simpl. repeat split; assumption.
  - unfold fadeOutFires. rewrite Ht. exists st. repeat split; assumption.
  - eexists. split; [reflexivity|]. simpl. repeat split; assumption.
  - eexists. split; [reflexivity|]. simpl. repeat split; assumption.
Qed.

Lemma held_run events : forall st,
  hasPinched st = true -> fadeOutTimer st = false -> Forall pinchHeld events ->
  exists st1,
    run st events = Some st1
    /\ hasPinched st1 = true /\ fadeOutTimer st1 = false
    /\ isLightboxOpen st1 = isLightboxOpen st
    /\ lightboxPhotoIndex st1 = lightboxPhotoIndex st
    /\ recentlyViewedPhotos st1 = recentlyViewedPhotos st.
Proof.
  induction events as [|e rest IH]; intros st Hp Ht Hall.
  - exists st. simpl. repeat split; assumption.
  - inversion Hall as [|? ? He Hrest]; subst.
    destruct (held_step st e Hp Ht He) as (st0 & Hs & Hp0 & Ht0 & Ho0 & Hi0 & Hr0).
    destruct (IH st0 Hp0 Ht0 Hrest) as (st1 & Hr & Hp1 & Ht1 & Ho1 & Hi1 & Hr1).
    exists st1. simpl. rewrite Hs.
    split; [exact Hr|]. repeat split; congruence.
Qed.

(** While the lightbox closes, a frame changes nothing of it, whatever the
    hand does. *)
Lemma closing_frame i st :
  isLightboxOpen st = true -> fadeOutTimer st = true ->
  exists st1,
    useFrame i st = Some st1
    /\ isLightboxOpen st1 = true /\ fadeOutTimer st1 = true
    /\ lightboxPhotoIndex st1 = lightboxPhotoIndex st
    /\ recentlyViewedPhotos st1 = recentlyViewedPhotos st
    /\ lightboxOpacity st1 = lightboxOpacity st.
Proof.
  intros Ho Ht.
  assert (G : openGuard (now i) (hand i) st = false).
  { unfold openGuard. rewrite Ho. simpl. rewrite andb_false_r. reflexivity. }
  rewrite (useFrame_guard_false i st G).
  eexists. split; [reflexivity|].
  unfold closeBlock. destruct (negb (pinchIntent (hand i))).
  - simpl. rewrite Ho, Ht. simpl. repeat split; assumption.
  - repeat split; assumption.
Qed.

Lemma closing_frames events : forall st,
  isLightboxOpen st = true -> fadeOutTimer st = true -> Forall isFrame events ->
  exists st1,
    run st events = Some st1
    /\ isLightboxOpen st1 = true /\ fadeOutTimer st1 = true
    /\ lightboxPhotoIndex st1 = lightboxPhotoIndex st
    /\ recentlyViewedPhotos st1 = recentlyViewedPhotos st
    /\ lightboxOpacity st1 = lightboxOpacity st.
Proof.
  induction events as [|e rest IH]; intros st Ho Ht Hall.
  - exists st. simpl. repeat split; assumption.
  - inversion Hall as [|? ? He Hrest]; subst.
    destruct e as [i | | | |]; simpl in He; try contradiction.
    destruct (closing_frame i st Ho Ht) as (st0 & Hs & Ho0 & Ht0 & Hi0 & Hr0 & Hl0).
    destruct (IH st0 Ho0 Ht0 Hrest) as (st1 & Hr & Ho1 & Ht1 & Hi1 & Hr1 & Hl1).
    exists st1. simpl. rewrite Hs.
    split; [exact Hr|]. repeat split; congruence.
Qed.

Lemma selectPhoto_in u candidates sel :
  selectPhoto u candidates = Some sel -> In sel candidates.
Proof.
  unfold selectPhoto. cbv zeta.
  destruct (pickIndex _ _ _ _) as [j|]; intros H; eapply nth_error_In; exact H.
Qed.

Lemma in_firstn_in (A : Type) k (l : list A) q : In q (firstn k l) -> In q l.
Proof.
  intros H. rewrite <- (firstn_skipn k l). apply in_or_app. left; exact H.
Qed.

(** A candidate stands for one of the children, with its photo index. *)
Lemma candidate_entry i children st p :
  In p (candidatesOf i children st) ->
  In p (nearestPhotos (sortedOf i children))
  /\ In p (photoDistances (camera i) children (photosLength i)).
Proof.
  intros H. unfold candidatesOf in H.
  assert (Hn : In p (nearestPhotos (sortedOf i children))).
  { destruct (candidatePhotos_cases (recentlyViewedPhotos st)
                (nearestPhotos (sortedOf i children))) as [(E & _) | (E & _)];
      rewrite E in H; [|exact H].
    apply filter_In in H. apply H. }
  split; [exact Hn|].
  rewrite nearestPhotos_firstn in Hn. apply in_firstn_in in Hn.
  unfold sortedOf in Hn.
  eapply Permutation_in; [apply sortByDistance_perm | exact Hn].
Qed.

Lemma Forall_tl (A : Type) (P : A -> Prop) l : Forall P l -> Forall P (tl l).
Proof. intros H. destruct l; simpl; [constructor | inversion H; assumption]. Qed.

Lemma pushRecent_below n recent t :
  Forall (fun k => (k < n)%nat) recent -> (t < n)%nat ->
  Forall (fun k => (k < n)%nat) (pushRecent recent t).
Proof.
  intros Hr Ht. unfold pushRecent. cbv zeta.
  assert (H : Forall (fun k => (k < n)%nat) (recent ++ [t])).
  { apply Forall_app. split; [exact Hr | constructor; [exact Ht | constructor]]. }
  destruct (_ <? _)%nat; [apply Forall_tl|]; exact H.
Qed.

Lemma step_below n st e st1 :
  (0 < n)%nat -> photosAre n e -> indexesBelow n st ->
  step st e = Some st1 -> indexesBelow n st1.
Proof.
  unfold indexesBelow. intros Hn He (Hi & Hr) Hs.
  destruct e as [i | t s | | |]; simpl in *.
  - unfold useFrame in Hs.
    destruct (openBlock_cases i st) as [E | [E | (children & sel & G & Hg & Hsel & E)]];
      rewrite E in Hs; [| discriminate |]; injection Hs as <-;
      match goal with
      | |- context [closeBlock ?a ?b ?c] =>
          destruct (closeBlock_fields a b c) as (_ & -> & _ & ->)
      end.
    + split; assumption.
    + simpl.
      assert (Hlt : (pd_textureIndex sel < n)%nat).
      { apply selectPhoto_in in Hsel. apply candidate_entry in Hsel.
        destruct Hsel as (_ & Hin). apply photoDistances_entry in Hin.
        destruct Hin as (g & _ & _ & ->). rewrite He.
        apply Nat.mod_upper_bound. lia. }
      split.
      * intros k Hk. injection Hk as <-. exact Hlt.
      * apply pushRecent_below; assumption.
  - injection Hs as <-. simpl. split; assumption.
  - injection Hs as <-. unfold fadeOutFires.
    destruct (fadeOutTimer st); [|split; assumption].
    simpl. split; [intros k Hk; discriminate | exact Hr].
  - injection Hs as <-. simpl. split; assumption.
  - injection Hs as <-. simpl. split; assumption.
Qed.

Lemma run_below n events : forall st st1,
  (0 < n)%nat -> Forall (photosAre n) events -> indexesBelow n st ->
  run st events = Some st1 -> indexesBelow n st1.
Proof.
  induction events as [|e rest IH]; intros st st1 Hn Hall Hb Hr; simpl in Hr.
  - injection Hr as <-. exact Hb.
  - inversion Hall as [|? ? He Hrest]; subst.
    destruct (step st e) as [st0|] eqn:E; [|discriminate].
    apply (IH st0 st1 Hn Hrest); [|exact Hr].
    apply (step_below n st e st0 Hn He Hb E).
Qed.

End LightboxHold.

(** X12: a pinch that opens the lightbox shows one photo for as long as it
    is held: whatever happens while the hand keeps pinching (frames, scene
    changes, timers), the lightbox stays open on the photo selected first,
    and the history of viewed photos gets that one entry only. *)
Theorem held_pinch_shows_one_photo (i : Experience.FrameInput)
        (st : Experience.State) (children : list Vector3)
        (events : list Experience.Event) :
  Experience.openGuard (Experience.now i) (Experience.hand i) st = true ->
  Experience.photoGroup i = Some children -> children <> [] ->
  Forall Lightbox.pinchHeld events ->
  exists sel st1 st2,
    Experience.selectPhoto (Experience.draw i) (Experience.candidatesOf i children st)
    = Some sel
    /\ Experience.useFrame i st = Some st1
    /\ Experience.run st1 events = Some st2
    /\ Experience.isLightboxOpen st2 = true
    /\ Experience.lightboxPhotoIndex st2 = Some (Experience.pd_textureIndex sel)
    /\ Experience.recentlyViewedPhotos st2
       = Experience.pushRecent (Experience.recentlyViewedPhotos st)
                               (Experience.pd_textureIndex sel).
Proof.
  intros G Hg Hne Hall.
  destruct (selectPhoto_total (Experience.draw i) (Experience.candidatesOf i children st))
    as [sel Hsel].
  { apply candidatesOf_nonempty. exact Hne. }
  pose proof G as G'. apply openGuard_true in G'. destruct G' as (_ & Hp & _).
  assert (Hu : exists st1,
             Experience.useFrame i st = Some st1
             /\ Experience.hasPinched st1 = true
             /\ Experience.fadeOutTimer st1 = false
             /\ Experience.isLightboxOpen st1 = true
             /\ Experience.lightboxPhotoIndex st1 = Some (Experience.pd_textureIndex sel)
             /\ Experience.recentlyViewedPhotos st1
                = Experience.pushRecent (Experience.recentlyViewedPhotos st)
                                        (Experience.pd_textureIndex sel)).
  { unfold Experience.useFrame, Experience.openBlock. rewrite G, Hg, Hsel.
    unfold Experience.closeBlock. rewrite Hp. simpl.
    eexists. split; [reflexivity|]. simpl. repeat split. }
  destruct Hu as (st1 & Hs1 & Hp1 & Ht1 & Ho1 & Hi1 & Hr1).
  destruct (held_run events st1 Hp1 Ht1 Hall) as (st2 & Hr & _ & _ & Ho2 & Hi2 & Hr2).
  exists sel, st1, st2.
  split; [exact Hsel|]. split; [exact Hs1|]. split; [exact Hr|].
  repeat split; congruence.
Qed.

Lemma held_pinch_shows_one_photo_witness :
  exists sel st1 st2,
    Experience.selectPhoto 0
      (Experience.candidatesOf (Experience.pinchAtOrnament 1000) [mkVector3 0 0 0]
                               (Experience.mount 0 CHAOS)) = Some sel
    /\ Experience.useFrame (Experience.pinchAtOrnament 1000) (Experience.mount 0 CHAOS)
       = Some st1
    /\ Experience.run st1 [Experience.Frame (Experience.pinchAtOrnament 1016);
                           Experience.FadeInFires; Experience.FadeOutFires;
                           Experience.SceneChange 1020 FORMED;
                           Experience.Frame (Experience.pinchAtOrnament 1032)]
       = Some st2
    /\ Experience.isLightboxOpen st2 = true
    /\ Experience.lightboxPhotoIndex st2 = Some (Experience.pd_textureIndex sel)
    /\ Experience.recentlyViewedPhotos st2
       = Experience.pushRecent
           (Experience.recentlyViewedPhotos (Experience.mount 0 CHAOS))
           (Experience.pd_textureIndex sel).
Proof.
  apply (held_pinch_shows_one_photo (Experience.pinchAtOrnament 1000)
           (Experience.mount 0 CHAOS) [mkVector3 0 0 0]).
  - simpl. reflexivity.
  - reflexivity.
  - discriminate.
  - repeat (apply Forall_cons; [simpl; auto|]). apply Forall_nil.
Defined.

(** X13: once the hand stops pinching while a photo is shown, the close
    cannot be stopped: the release frame sets the opacity to 0, arms the
    close timer and resets the latch; during the frames that follow,
    whatever the hand does (a new pinch included), the same photo stays
    selected and no other is chosen; and when the timer fires the lightbox
    is closed with no photo selected. *)
Theorem release_closes_lightbox (i : Experience.FrameInput) (st : Experience.State)
        (frames : list Experience.Event) :
  Experience.isLightboxOpen st = true ->
  Experience.fadeOutTimer st = false ->
  Experience.pinchIntent (Experience.hand i) = false ->
  Forall Lightbox.isFrame frames ->
  exists st1 st2 st3,
    Experience.useFrame i st = Some st1
    /\ (Experience.fadeOutTimer st1 = true
        /\ Experience.lightboxOpacity st1 = 0
        /\ Experience.hasPinched st1 = false)
    /\ Experience.run st1 frames = Some st2
    /\ (Experience.isLightboxOpen st2 = true
        /\ Experience.lightboxPhotoIndex st2 = Experience.lightboxPhotoIndex st
        /\ Experience.lightboxOpacity st2 = 0)
    /\ Experience.step st2 Experience.FadeOutFires = Some st3
    /\ Experience.isLightboxOpen st3 = false
    /\ Experience.lightboxPhotoIndex st3 = None
    /\ Experience.recentlyViewedPhotos st3 = Experience.recentlyViewedPhotos st.
Proof.
  intros Ho Ht Hp Hall.
  assert (G : Experience.openGuard (Experience.now i) (Experience.hand i) st = false).
  { unfold Experience.openGuard. rewrite Hp, andb_false_r. reflexivity. }
  assert (Hu : exists st1,
             Experience.useFrame i st = Some st1
             /\ Experience.fadeOutTimer st1 = true
             /\ Experience.lightboxOpacity st1 = 0
             /\ Experience.hasPinched st1 = false
             /\ Experience.isLightboxOpen st1 = true
             /\ Experience.lightboxPhotoIndex st1 = Experience.lightboxPhotoIndex st
             /\ Experience.recentlyViewedPhotos st1
                = Experience.recentlyViewedPhotos st).
  { rewrite (useFrame_guard_false i st G). eexists. split; [reflexivity|].
    unfold Experience.closeBlock. rewrite Hp, Ho, Ht. simpl.
    repeat split; try assumption. }
  destruct Hu as (st1 & Hs1 & Ht1 & Hl1 & Hp1 & Ho1 & Hi1 & Hr1).
  destruct (closing_frames frames st1 Ho1 Ht1 Hall)
    as (st2 & Hr & Ho2 & Ht2 & Hi2 & Hr2 & Hl2).
  exists st1, st2, (Experience.fadeOutFires st2).
  split; [exact Hs1|]. split; [repeat split; assumption|].
  split; [exact Hr|]. split; [repeat split; congruence|].
  split; [reflexivity|].
  unfold Experience.fadeOutFires. rewrite Ht2. simpl.
  repeat split. congruence.
Qed.

Lemma release_closes_lightbox_witness :
  exists st1 st2 st3,
    Experience.useFrame (Lightbox.noHand 2000) Lightbox.showing = Some st1
    /\ (Experience.fadeOutTimer st1 = true
        /\ Experience.lightboxOpacity st1 = 0
        /\ Experience.hasPinched st1 = false)
    /\ Experience.run st1 [Experience.Frame (Experience.pinchAtOrnament 2016);
                           Experience.Frame (Lightbox.noHand 2032)] = Some st2
    /\ (Experience.isLightboxOpen st2 = true
        /\ Experience.lightboxPhotoIndex st2
           = Experience.lightboxPhotoIndex Lightbox.showing
        /\ Experience.lightboxOpacity st2 = 0)
    /\ Experience.step st2 Experience.FadeOutFires = Some st3
    /\ Experience.isLightboxOpen st3 = false
    /\ Experience.lightboxPhotoIndex st3 = None
    /\ Experience.recentlyViewedPhotos st3
       = Experience.recentlyViewedPhotos Lightbox.showing.
Proof.
  apply (release_closes_lightbox (Lightbox.noHand 2000) Lightbox.showing).
  - reflexivity.
  - reflexivity.
  - reflexivity.
  - repeat (apply Forall_cons; [simpl; auto|]). apply Forall_nil.
Defined.

(** X14: as long as the frames see the same positive number [n] of photos,
    the photo index the lightbox shows and every entry of the history of
    viewed photos is a valid index of the photo list, in every state the
    component reaches after its mount. *)
Theorem shown_photo_index_valid (n : nat) (t0 : Z) (s : SceneState)
        (events : list Experience.Event) (st : Experience.State) :
  (0 < n)%nat ->
  Forall (Lightbox.photosAre n) events ->
  Experience.run (Experience.mount t0 s) events = Some st ->
  Lightbox.indexesBelow n st.
Proof.
  intros Hn Hall Hr.
  apply (run_below n events (Experience.mount t0 s) st Hn Hall); [|exact Hr].
  unfold Lightbox.indexesBelow. simpl.
  split; [intros k Hk; discriminate | constructor].
Qed.

Lemma shown_photo_index_valid_witness :
  exists st,
    Experience.run (Experience.mount 0 CHAOS)
                   [Experience.Frame (Experience.pinchAtOrnament 1000)] = Some st
    /\ Lightbox.indexesBelow 35 st.
Proof.
  destruct (useFrame_mounted (Experience.pinchAtOrnament 1000)
              (Experience.mount 0 CHAOS) [mkVector3 0 0 0])
    as (sel & st1 & _ & Hs & _).
  - simpl. reflexivity.
  - reflexivity.
  - discriminate.
  - exists st1.
    assert (Hr : Experience.run (Experience.mount 0 CHAOS)
                   [Experience.Frame (Experience.pinchAtOrnament 1000)] = Some st1).
    { simpl Experience.run. unfold Experience.step. rewrite Hs. reflexivity. }
    split; [exact Hr|].
    apply (shown_photo_index_valid 35 0 CHAOS
             [Experience.Frame (Experience.pinchAtOrnament 1000)] st1).
    + lia.
    + apply Forall_cons; [reflexivity | apply Forall_nil].
    + exact Hr.
Defined.

(** ** What the gesture loop reports *)

Section GestureReports.

Import Gesture GestureRuns.

Lemma dispatch_speed evs : forall a,
  rotationSpeed (fold_left dispatch evs a) = fold_left speedOf evs (rotationSpeed a).
Proof.
  induction evs as [|e rest IH]; intros a; simpl; [reflexivity|].
  rewrite IH. destruct e; reflexivity.
Qed.

Lemma dispatch_hand evs : forall a,
  handPosition (fold_left dispatch evs a) = fold_left handOf evs (handPosition a).
Proof.
  induction evs as [|e rest IH]; intros a; simpl; [reflexivity|].
  rewrite IH. destruct e; reflexivity.
Qed.

Lemma dispatch_status evs : forall a,
  aiStatus (fold_left dispatch evs a) = fold_left statusOf evs (aiStatus a).
Proof.
  induction evs as [|e rest IH]; intros a; simpl; [reflexivity|].
  rewrite IH. destruct e; reflexivity.
Qed.

Lemma labels_speed d evs : Forall (labelEvent d) evs ->
  forall v, fold_left speedOf evs v = v.
Proof.
  induction 1 as [|e rest He _ IH]; intros v; simpl; [reflexivity|].
  rewrite IH. destruct e; simpl in *; try reflexivity; contradiction.
Qed.

Lemma labels_hand d evs : Forall (labelEvent d) evs ->
  forall h, fold_left handOf evs h = h.
Proof.
  induction 1 as [|e rest He _ IH]; intros h; simpl; [reflexivity|].
  rewrite IH. destruct e; simpl in *; try reflexivity; contradiction.
Qed.

Lemma labels_status evs : Forall (labelEvent false) evs ->
  forall m, fold_left statusOf evs m = m.
Proof.
  induction 1 as [|e rest He _ IH]; intros m; simpl; [reflexivity|].
  rewrite IH. destruct e; simpl in *; try reflexivity; try contradiction.
  discriminate.
Qed.

Lemma gestureUpdate_labels d r c :
  Forall (labelEvent d) (snd (gestureUpdate d r c))
  /\ pinchState (fst (gestureUpdate d r c)) = pinchState r
  /\ lastRuntimeError (fst (gestureUpdate d r c)) = lastRuntimeError r.
Proof.
  unfold gestureUpdate. cbv zeta.
  destruct (_ && _); simpl.
  - split.
    + repeat (apply Forall_app; split).
      * destruct (String.eqb _ _); repeat constructor.
      * destruct (String.eqb _ _); repeat constructor.
      * destruct d; repeat constructor.
    + destruct (String.eqb _ (lastGesture r)); split; reflexivity.
  - split; [constructor|].
    destruct (String.eqb _ (lastGesture r)); split; reflexivity.
Qed.

Lemma pinchUpdate_error name sc dist ok r :
  lastRuntimeError (pinchUpdate name sc dist ok r) = lastRuntimeError r.
Proof.
  unfold pinchUpdate. cbv zeta.
  destruct (_ || _); [reflexivity|].
  destruct (Bool.eqb _ _); [reflexivity|].
  destruct (_ <=? _)%nat; reflexivity.
Qed.

(** The two ways the hand branch ends. *)
Lemma handStage_cases name sc r l wrist :
  (exists r1 h,
      handStage name sc r l wrist
      = Done tt r1
          [OnMove (if Num.gtb (Rabs ((0.5 - lm_x wrist) * 0.15)) 0.01
                   then (0.5 - lm_x wrist) * 0.15 else 0);
           OnHandPosition h]
      /\ isPinching h = pinchState r1 /\ hp_visible h = true
      /\ lastRuntimeError r1 = lastRuntimeError r)
  \/ (exists v, handStage name sc r l wrist = Thrown typeErrorMessage r [OnMove v]).
Proof.
  unfold handStage. cbv zeta.
  destruct (nth_error l 8) as [t8|]; [|right; eexists; reflexivity].
  destruct (nth_error l 4) as [t4|]; [|right; eexists; reflexivity].
  destruct (opennessTips l) as [tips|]; [|right; eexists; reflexivity].
  left. eexists; eexists. split; [reflexivity|].
  simpl. split; [reflexivity|]. split; [reflexivity|]. apply pinchUpdate_error.
Qed.

(** The ways the [try] block ends. *)
Lemma tryBlock_cases d r results :
  match tryBlock d r results with
  | Done _ r1 evs =>
      lastRuntimeError r1 = lastRuntimeError r
      /\ exists labels tail,
          evs = labels ++ tail /\ Forall (labelEvent d) labels
          /\ ((exists w h,
                  wristOfResults results = Some w
                  /\ tail = [OnMove (if Num.gtb (Rabs ((0.5 - lm_x w) * 0.15)) 0.01
                                     then (0.5 - lm_x w) * 0.15 else 0);
                             OnHandPosition h]
                  /\ isPinching h = pinchState r1 /\ hp_visible h = true)
              \/ (exists name labels2,
                     pinchState r1 = false
                     /\ tail = [OnMove 0; OnHandPosition (hiddenHand name)] ++ labels2
                     /\ Forall (labelEvent d) labels2))
  | Thrown msg r1 evs =>
      lastRuntimeError r1 = lastRuntimeError r
      /\ exists labels pre,
          evs = labels ++ pre /\ Forall (labelEvent d) labels
          /\ (pre = [] \/ exists v, pre = [OnMove v])
  end.
Proof.
  unfold tryBlock.
  assert (Hstage :
            (exists msg, gestureStage d r (gestures results) = Thrown msg r [])
            \/ (exists name sc r1 labels,
                   gestureStage d r (gestures results) = Done (name, sc) r1 labels
                   /\ Forall (labelEvent d) labels
                   /\ pinchState r1 = pinchState r
                   /\ lastRuntimeError r1 = lastRuntimeError r)).
  { unfold gestureStage. destruct (gestures results) as [|[|c cs] others].
    - right. exists EmptyString, 0, r, []. repeat split. constructor.
    - left. eexists; reflexivity.
    - right. destruct (gestureUpdate_labels d r c) as (Hl & Hp & He).
      destruct (gestureUpdate d r c) as [r1 evs]. simpl in *.
      exists (categoryName c), (score c), r1, evs. repeat split; assumption. }
  destruct Hstage as [[msg ->] | (name & sc & r1 & labels & -> & Hl & Hp & He)].
  - split; [reflexivity|]. exists [], []. split; [reflexivity|].
    split; [constructor | left; reflexivity].
  - unfold wristOfResults.
    destruct (landmarks results) as [[|[|wrist l'] ls]|].
    + (* no hand in the list *)
      unfold noHandStage. cbv zeta.
      destruct (match gestures results with [] => true | _ => false end).
      * split; [exact He|]. exists labels. eexists. split; [reflexivity|].
        split; [exact Hl|]. right. exists name. eexists.
        split; [reflexivity|]. split; [reflexivity|].
        destruct d; repeat constructor.
      * split; [exact He|]. exists labels. eexists. split; [reflexivity|].
        split; [exact Hl|]. right. exists name, [].
        split; [reflexivity|]. split; [reflexivity | constructor].
    + unfold noHandStage. cbv zeta.
      destruct (match gestures results with [] => true | _ => false end).
      * split; [exact He|]. exists labels. eexists. split; [reflexivity|].
        split; [exact Hl|]. right. exists name. eexists.
        split; [reflexivity|]. split; [reflexivity|].
        destruct d; repeat constructor.
      * split; [exact He|]. exists labels. eexists. split; [reflexivity|].
        split; [exact Hl|]. right. exists name, [].
        split; [reflexivity|]. split; [reflexivity | constructor].
    + destruct (handStage_cases name sc r1 (wrist :: l') wrist)
        as [(r2 & h & -> & Hh & Hv & He2) | (v & ->)].
      * split; [congruence|]. exists labels. eexists. split; [reflexivity|].
        split; [exact Hl|]. left. exists wrist, h. repeat split; assumption.
      * split; [exact He|]. exists labels, [OnMove v]. split; [reflexivity|].
        split; [exact Hl|]. right. exists v. reflexivity.
    + unfold noHandStage. cbv zeta.
      destruct (match gestures results with [] => true | _ => false end).
      * split; [exact He|]. exists labels. eexists. split; [reflexivity|].
        split; [exact Hl|]. right. exists name. eexists.
        split; [reflexivity|]. split; [reflexivity|].
        destruct d; repeat constructor.
      * split; [exact He|]. exists labels. eexists. split; [reflexivity|].
        split; [exact Hl|]. right. exists name, [].
        split; [reflexivity|]. split; [reflexivity | constructor].
Qed.

Lemma catchBlock_refs msg r msg0 :
  lastRuntimeError r = msg0 ->
  catchBlock msg r
  = (failedRefs msg,
     (if negb (String.eqb msg0 msg)
      then [OnStatus (String.append "ERROR: " msg)] else [])
     ++ [OnMove 0; OnHandPosition (hiddenHand EmptyString)]).
Proof.
  intros <-. unfold catchBlock, failedRefs. cbv zeta.
  destruct (String.eqb (lastRuntimeError r) msg) eqn:E; simpl; [|reflexivity].
  apply String.eqb_eq in E. rewrite E. reflexivity.
Qed.

(** The three ways a ready frame ends. *)
Lemma predictWebcam_ready d r f :
  videoReady f = true ->
  exists r1 labels tail,
    predictWebcam d r f = (r1, labels ++ tail)
    /\ Forall (labelEvent d) labels
    /\ ((failure d r f = None
         /\ lastRuntimeError r1 = lastRuntimeError r
         /\ exists w h,
             wristOf f = Some w
             /\ tail = [OnMove (if Num.gtb (Rabs ((0.5 - lm_x w) * 0.15)) 0.01
                                then (0.5 - lm_x w) * 0.15 else 0);
                        OnHandPosition h]
             /\ isPinching h = pinchState r1 /\ hp_visible h = true)
        \/ (failure d r f = None
            /\ lastRuntimeError r1 = lastRuntimeError r
            /\ exists name labels2,
                pinchState r1 = false
                /\ tail = [OnMove 0; OnHandPosition (hiddenHand name)] ++ labels2
                /\ Forall (labelEvent d) labels2)
        \/ (exists msg pre,
               failure d r f = Some msg
               /\ r1 = failedRefs msg
               /\ (pre = [] \/ exists v, pre = [OnMove v])
               /\ tail = pre
                         ++ (if negb (String.eqb (lastRuntimeError r) msg)
                             then [OnStatus (String.append "ERROR: " msg)] else [])
                         ++ [OnMove 0; OnHandPosition (hiddenHand EmptyString)])).
Proof.
  intros Hv. unfold predictWebcam, failure, wristOf. rewrite Hv.
  destruct (recognition f) as [results | msg].
  - pose proof (tryBlock_cases d r results) as H.
    destruct (tryBlock d r results) as [u r1 evs | msg r1 evs].
    + destruct H as (He & labels & tail & -> & Hl & Hcases).
      exists r1, labels, tail. split; [reflexivity|]. split; [exact Hl|].
      destruct Hcases as [(w & h & Hw & Ht & Hp & Hvis) | (name & l2 & Hp & Ht & Hl2)].
      * left. split; [reflexivity|]. split; [exact He|].
        exists w, h. repeat split; assumption.
      * right; left. split; [reflexivity|]. split; [exact He|].
        exists name, l2. repeat split; assumption.
    + destruct H as (He & labels & pre & -> & Hl & Hpre).
      rewrite (catchBlock_refs msg r1 (lastRuntimeError r) He).
      exists (failedRefs msg), labels. eexists.
      split; [rewrite <- app_assoc; reflexivity|]. split; [exact Hl|].
      right; right. exists msg, pre. repeat split. exact Hpre.
  - rewrite (catchBlock_refs msg r (lastRuntimeError r) eq_refl).
    exists (failedRefs msg), []. eexists. split; [reflexivity|].
    split; [constructor|]. right; right. exists msg, [].
    repeat split. left; reflexivity.
Qed.

End GestureReports.

(** X15: the rotation speed a ready frame leaves in the application is
    either 0 or the speed (0.5 - x) * 0.15 of a wrist at abscissa x that
    lies outside the dead zone (more than 0.01 in absolute value); the
    scene then turns towards the side of the hand, and for a wrist inside
    the image (x in [0, 1]) by at most 0.075 per frame. *)
Theorem rotation_speed_dead_zone (debugMode : bool) (r : Gesture.Refs)
        (a : Gesture.App) (f : Gesture.Frame) :
  Gesture.videoReady f = true ->
  let v := Gesture.rotationSpeed (snd (Gesture.frameStep debugMode (r, a) f)) in
  v = 0
  \/ exists w,
      GestureRuns.wristOf f = Some w
      /\ v = (0.5 - Gesture.lm_x w) * 0.15
      /\ 0.01 < Rabs v
      /\ (0 < v <-> Gesture.lm_x w < 0.5)
      /\ (0 <= Gesture.lm_x w <= 1 -> Rabs v <= 0.075).
Proof.
  intros Hv v. subst v. unfold Gesture.frameStep. simpl fst; simpl snd.
  destruct (predictWebcam_ready debugMode r f Hv) as (r1 & labels & tail & -> & Hl & Hc).
  cbv beta iota; simpl fst; simpl snd.
  rewrite dispatch_speed, fold_left_app, (labels_speed debugMode labels Hl).
  destruct Hc as [(_ & _ & w & h & Hw & -> & _) | [(_ & _ & name & l2 & _ & -> & Hl2)
                                                  | (msg & pre & _ & _ & _ & ->)]].
  - simpl. destruct (Num.gtb _ _) eqn:E; [|left; reflexivity].
    right. exists w. split; [exact Hw|]. split; [reflexivity|].
    unfold Num.gtb in E. apply Num_ltb_spec in E.
    split; [exact E|]. split; [split; intros H; lra|].
    intros Hx. apply Rabs_le. lra.
  - left. rewrite fold_left_app. simpl. apply (labels_speed debugMode l2 Hl2).
  - left. rewrite !fold_left_app. reflexivity.
Qed.

Lemma rotation_speed_dead_zone_witness :
  Gesture.rotationSpeed
    (snd (Gesture.frameStep false (Gesture.initialRefs, Gesture.initialApp)
                            Gesture.palmFrame)) = 0
  \/ exists w,
      GestureRuns.wristOf Gesture.palmFrame = Some w
      /\ Gesture.rotationSpeed
           (snd (Gesture.frameStep false (Gesture.initialRefs, Gesture.initialApp)
                                   Gesture.palmFrame))
         = (0.5 - Gesture.lm_x w) * 0.15
      /\ 0.01 < Rabs (Gesture.rotationSpeed
                        (snd (Gesture.frameStep false
                                (Gesture.initialRefs, Gesture.initialApp)
                                Gesture.palmFrame)))
      /\ (0 < Gesture.rotationSpeed
                (snd (Gesture.frameStep false
                        (Gesture.initialRefs, Gesture.initialApp)
                        Gesture.palmFrame))
          <-> Gesture.lm_x w < 0.5)
      /\ (0 <= Gesture.lm_x w <= 1 ->
          Rabs (Gesture.rotationSpeed
                  (snd (Gesture.frameStep false
                          (Gesture.initialRefs, Gesture.initialApp)
                          Gesture.palmFrame))) <= 0.075).
Proof.
  apply (rotation_speed_dead_zone false Gesture.initialRefs Gesture.initialApp
           Gesture.palmFrame).
  reflexivity.
Defined.

Section PinchLink.

Import Gesture GestureRuns.

Lemma frameStep_linked d st f : linked st -> linked (frameStep d st f).
Proof.
  destruct st as [r a]. unfold linked, frameStep. simpl fst; simpl snd.
  intros (Hp & Hh).
  destruct (videoReady f) eqn:Hv.
  - destruct (predictWebcam_ready d r f Hv) as (r1 & labels & tail & -> & Hl & Hc).
    cbv beta iota; simpl fst; simpl snd.
    rewrite dispatch_hand, fold_left_app, (labels_hand d labels Hl).
    destruct Hc as [(_ & _ & w & h & _ & -> & Hh1 & Hv1)
                   | [(_ & _ & name & l2 & Hp1 & -> & Hl2)
                     | (msg & pre & _ & -> & _ & ->)]].
    + simpl. split; [exact Hh1 | intros H; congruence].
    + rewrite fold_left_app. simpl. rewrite (labels_hand d l2 Hl2). simpl.
      split; [symmetry; exact Hp1 | reflexivity].
    + rewrite !fold_left_app. simpl. split; reflexivity.
  - unfold predictWebcam. rewrite Hv. simpl. split; assumption.
Qed.

Lemma runFrames_linked d fs : forall st, linked st -> linked (runFrames d st fs).
Proof.
  unfold runFrames.
  induction fs as [|f rest IH]; intros st H; simpl; [exact H|].
  apply IH. apply frameStep_linked. exact H.
Qed.

Lemma frameStep_status r a f :
  let st := frameStep false (r, a) f in
  (aiStatus (snd st) = aiStatus a /\ lastRuntimeError (fst st) = lastRuntimeError r)
  \/ (aiStatus (snd st) = String.append "ERROR: " (lastRuntimeError (fst st))
      /\ lastRuntimeError (fst st) <> lastRuntimeError r).
Proof.
  unfold frameStep. simpl fst; simpl snd.
  destruct (videoReady f) eqn:Hv.
  - destruct (predictWebcam_ready false r f Hv) as (r1 & labels & tail & -> & Hl & Hc).
    cbv beta iota; simpl fst; simpl snd.
    rewrite dispatch_status, fold_left_app, (labels_status labels Hl).
    destruct Hc as [(_ & He & w & h & _ & -> & _)
                   | [(_ & He & name & l2 & _ & -> & Hl2)
                     | (msg & pre & _ & -> & Hpre & ->)]].
    + left. simpl. split; [reflexivity | exact He].
    + left. rewrite fold_left_app. simpl. rewrite (labels_status l2 Hl2).
      split; [reflexivity | exact He].
    + rewrite !fold_left_app.
      assert (Hq : fold_left statusOf pre (aiStatus a) = aiStatus a).
      { destruct Hpre as [-> | [v ->]]; reflexivity. }
      rewrite Hq. simpl lastRuntimeError.
      destruct (String.eqb (lastRuntimeError r) msg) eqn:E; simpl.
      * left. apply String.eqb_eq in E. split; [reflexivity | congruence].
      * right. apply String.eqb_neq in E. split; [reflexivity | congruence].
  - unfold predictWebcam. rewrite Hv. simpl. left. split; reflexivity.
Qed.

End PinchLink.

(** X16: along any stream of frames from the start of the loop, the pinch
    flag the application receives with the hand position is the pinch
    state the controller holds, and a hand reported as not visible is
    never reported as pinching. *)
Theorem reported_pinch_is_committed (debugMode : bool) (fs : list Gesture.Frame) :
  GestureRuns.linked
    (Gesture.runFrames debugMode (Gesture.initialRefs, Gesture.initialApp) fs).
Proof.
  apply runFrames_linked. unfold GestureRuns.linked. simpl. split; reflexivity.
Qed.

(** X17: a frame on which the recognizer or the processing of its result
    throws resets the controller: all refs are back to their initial
    values except the remembered error message, the rotation speed is 0
    and the hand is reported as hidden and not pinching, whatever was
    reported earlier in the frame; the error is written to the status when
    its message differs from the remembered one, and with debug mode off
    the status keeps its value when the message is the same. *)
Theorem failing_frame_resets (debugMode : bool) (r : Gesture.Refs)
        (a : Gesture.App) (f : Gesture.Frame) (msg : string) :
  GestureRuns.failure debugMode r f = Some msg ->
  let st := Gesture.frameStep debugMode (r, a) f in
  fst st = GestureRuns.failedRefs msg
  /\ Gesture.rotationSpeed (snd st) = 0
  /\ Gesture.handPosition (snd st) = Gesture.hiddenHand EmptyString
  /\ (Gesture.lastRuntimeError r <> msg ->
      Gesture.aiStatus (snd st) = String.append "ERROR: " msg)
  /\ (Gesture.lastRuntimeError r = msg -> debugMode = false ->
      Gesture.aiStatus (snd st) = Gesture.aiStatus a).
Proof.
  intros Hf st. subst st.
  assert (Hv : Gesture.videoReady f = true).
  { unfold GestureRuns.failure in Hf. destruct (Gesture.videoReady f);
      [reflexivity | discriminate]. }
  unfold Gesture.frameStep. simpl fst; simpl snd.
  destruct (predictWebcam_ready debugMode r f Hv) as (r1 & labels & tail & -> & Hl & Hc).
  cbv beta iota; simpl fst; simpl snd.
  destruct Hc as [(Hn & _) | [(Hn & _) | (msg' & pre & Hm & -> & Hpre & ->)]];
    try congruence.
  assert (msg' = msg) by congruence. subst msg'.
  split; [reflexivity|].
  rewrite dispatch_speed, dispatch_hand, dispatch_status, !fold_left_app.
  split; [reflexivity|].
  split; [reflexivity|].
  split.
  - intros Hne. apply String.eqb_neq in Hne. rewrite Hne. reflexivity.
  - intros He Hd. subst debugMode. apply String.eqb_eq in He. rewrite He. simpl.
    rewrite (labels_status labels Hl).
    destruct Hpre as [-> | [v ->]]; reflexivity.
Qed.

Lemma failing_frame_resets_witness :
  fst (Gesture.frameStep false (Gesture.pinching, Gesture.initialApp)
                         (GestureRuns.brokenFrame "camera lost"%string))
  = GestureRuns.failedRefs "camera lost"%string
  /\ Gesture.rotationSpeed
       (snd (Gesture.frameStep false (Gesture.pinching, Gesture.initialApp)
                               (GestureRuns.brokenFrame "camera lost"%string))) = 0
  /\ Gesture.handPosition
       (snd (Gesture.frameStep false (Gesture.pinching, Gesture.initialApp)
                               (GestureRuns.brokenFrame "camera lost"%string)))
     = Gesture.hiddenHand EmptyString
  /\ (Gesture.lastRuntimeError Gesture.pinching <> "camera lost"%string ->
      Gesture.aiStatus
        (snd (Gesture.frameStep false (Gesture.pinching, Gesture.initialApp)
                                (GestureRuns.brokenFrame "camera lost"%string)))
      = String.append "ERROR: "%string "camera lost"%string)
  /\ (Gesture.lastRuntimeError Gesture.pinching = "camera lost"%string -> false = false ->
      Gesture.aiStatus
        (snd (Gesture.frameStep false (Gesture.pinching, Gesture.initialApp)
                                (GestureRuns.brokenFrame "camera lost"%string)))
      = Gesture.aiStatus Gesture.initialApp).
Proof.
  apply (failing_frame_resets false Gesture.pinching Gesture.initialApp
           (GestureRuns.brokenFrame "camera lost"%string) "camera lost"%string).
  reflexivity.
Defined.

(** X18: with debug mode off, the frame loop writes the status only to
    report an error whose message differs from the one it remembers: after
    any stream of frames the status is the one before the stream, or the
    report of the error remembered last.  A repeated error is silent, and
    frames that succeed after an error do not clear its report. *)
Theorem status_only_reports_new_errors (st : Gesture.Refs * Gesture.App)
        (fs : list Gesture.Frame) :
  let st1 := Gesture.runFrames false st fs in
  (Gesture.aiStatus (snd st1) = Gesture.aiStatus (snd st)
   /\ Gesture.lastRuntimeError (fst st1) = Gesture.lastRuntimeError (fst st))
  \/ Gesture.aiStatus (snd st1)
     = String.append "ERROR: " (Gesture.lastRuntimeError (fst st1)).
Proof.
  unfold Gesture.runFrames.
  assert (H : forall fs st0,
             (Gesture.aiStatus (snd st0) = Gesture.aiStatus (snd st)
              /\ Gesture.lastRuntimeError (fst st0) = Gesture.lastRuntimeError (fst st))
             \/ Gesture.aiStatus (snd st0)
                = String.append "ERROR: " (Gesture.lastRuntimeError (fst st0)) ->
             let st1 := fold_left (Gesture.frameStep false) fs st0 in
             (Gesture.aiStatus (snd st1) = Gesture.aiStatus (snd st)
              /\ Gesture.lastRuntimeError (fst st1) = Gesture.lastRuntimeError (fst st))
             \/ Gesture.aiStatus (snd st1)
                = String.append "ERROR: " (Gesture.lastRuntimeError (fst st1))).
  { clear fs. induction fs as [|f rest IH]; intros st0 H0; simpl; [exact H0|].
    apply IH. destruct st0 as [r0 a0].
    destruct (frameStep_status r0 a0 f) as [(Hs & He) | (Hs & _)].
    - simpl in H0. destruct H0 as [(H1 & H2) | H1].
      + left. split; congruence.
      + right. rewrite Hs, He. exact H1.
    - right. exact Hs. }
  apply H. left. split; reflexivity.
Qed.

(** ** Photos on the ornaments *)

Section Coverage.

Import PhotoOrnamentsComponent PhotoCoverage.

Lemma ornamentsOf_photos p ps draws :
  ornamentsOf (PhotoOrnaments (Some (p :: ps)) draws)
  = map (fun i => Animator.mkOrnament (List.length (p :: ps)) i (draws i))
        (seq 0 CONFIG.counts_ornaments).
Proof. reflexivity. Qed.

Lemma ornament_nth p ps draws i :
  (i < CONFIG.counts_ornaments)%nat ->
  nth_error (ornamentsOf (PhotoOrnaments (Some (p :: ps)) draws)) i
  = Some (Animator.mkOrnament (List.length (p :: ps)) i (draws i)).
Proof.
  intros Hi. rewrite ornamentsOf_photos.
  rewrite nth_error_map.
  rewrite (nth_error_nth' _ 0%nat) by (rewrite length_seq; exact Hi).
  rewrite seq_nth by exact Hi. reflexivity.
Qed.

Lemma mkOrnament_texture n i d :
  Animator.o_textureIndex (Animator.mkOrnament n i d) = Nat.modulo i n.
Proof. reflexivity. Qed.

End Coverage.

(** X19: with a non-empty photo list of [n] photos, every ornament carries
    a valid photo index, and the photo of index [k] is on some ornament
    exactly when [k] is below both [n] and the number of ornaments (200):
    up to 200 photos each one is on the tree, and of a longer list the
    photos from index 200 on are on no ornament. *)
Theorem photos_on_ornaments (photos : list string)
        (draws : nat -> Animator.OrnamentDraws) :
  photos <> [] ->
  let r := PhotoOrnamentsComponent.PhotoOrnaments (Some photos) draws in
  (forall o, In o (PhotoCoverage.ornamentsOf r) ->
             (Animator.o_textureIndex o < List.length photos)%nat)
  /\ (forall k, PhotoCoverage.shown r k
                <-> (k < Nat.min (List.length photos) CONFIG.counts_ornaments)%nat).
Proof.
  intros Hne r. subst r. destruct photos as [|p ps]; [contradiction|].
  rewrite ornamentsOf_photos.
  assert (Hn : (0 < List.length (p :: ps))%nat) by (simpl; lia).
  split.
  - intros o Ho. apply in_map_iff in Ho. destruct Ho as (i & <- & _).
    rewrite mkOrnament_texture. apply Nat.mod_upper_bound. lia.
  - intros k. unfold PhotoCoverage.shown. rewrite ornamentsOf_photos. split.
    + intros (o & Ho & <-). apply in_map_iff in Ho. destruct Ho as (i & <- & Hi).
      apply in_seq in Hi. rewrite mkOrnament_texture.
      apply Nat.min_glb_lt.
      * apply Nat.mod_upper_bound. lia.
      * eapply Nat.le_lt_trans; [apply Nat.Div0.mod_le | lia].
    + intros Hk. apply Nat.min_glb_lt_iff in Hk. destruct Hk as [Hk1 Hk2].
      exists (Animator.mkOrnament (List.length (p :: ps)) k (draws k)). split.
      * apply in_map_iff. exists k. split; [reflexivity|]. apply in_seq. lia.
      * rewrite mkOrnament_texture. apply Nat.mod_small. exact Hk1.
Qed.

Lemma photos_on_ornaments_witness :
  PhotoCoverage.shown
    (PhotoOrnamentsComponent.PhotoOrnaments (Some ["a.jpg"; "b.jpg"; "c.jpg"]%string)
       (fun _ => Animator.half_ornament_draws)) 2
  <-> (2 < Nat.min (List.length ["a.jpg"; "b.jpg"; "c.jpg"]%string)
                   CONFIG.counts_ornaments)%nat.
Proof.
  refine (proj2 (photos_on_ornaments ["a.jpg"; "b.jpg"; "c.jpg"]%string
                   (fun _ => Animator.half_ornament_draws) _) 2%nat).
  discriminate.
Defined.

(** X20: the photo index [Experience] computes for the child [i] of the
    photo group ([i % photos.length]) is the index of the texture the
    ornament [i] was built with, so the lightbox opens the photo that is
    on the ornament selected. *)
Theorem lightbox_photo_is_on_ornament (photos : list string)
        (draws : nat -> Animator.OrnamentDraws) (camera : Vector3)
        (children : list Vector3) (p : Experience.PhotoDistance) :
  photos <> [] ->
  List.length children = CONFIG.counts_ornaments ->
  In p (Experience.photoDistances camera children (List.length photos)) ->
  exists o,
    nth_error (PhotoCoverage.ornamentsOf
                 (PhotoOrnamentsComponent.PhotoOrnaments (Some photos) draws))
              (Experience.pd_index p) = Some o
    /\ Animator.o_textureIndex o = Experience.pd_textureIndex p.
Proof.
  intros Hne Hlen Hp. destruct photos as [|ph ps]; [contradiction|].
  destruct (photoDistances_entry camera children (List.length (ph :: ps)) p Hp)
    as (g & Hg & _ & Ht).
  assert (Hi : (Experience.pd_index p < CONFIG.counts_ornaments)%nat).
  { rewrite <- Hlen. apply nth_error_Some. congruence. }
  rewrite (ornament_nth ph ps draws _ Hi).
  eexists. split; [reflexivity|]. rewrite Ht. apply mkOrnament_texture.
Qed.

Lemma lightbox_photo_is_on_ornament_witness :
  exists o,
    nth_error (PhotoCoverage.ornamentsOf
                 (PhotoOrnamentsComponent.PhotoOrnaments
                    (Some ["a.jpg"; "b.jpg"; "c.jpg"]%string)
                    (fun _ => Animator.half_ornament_draws)))
              (Experience.pd_index
                 {| Experience.pd_index := 0;
                    Experience.pd_distance :=
                      distanceTo (mkVector3 0 8 60) (mkVector3 0 0 0);
                    Experience.pd_textureIndex := 0 |}) = Some o
    /\ Animator.o_textureIndex o
       = Experience.pd_textureIndex
           {| Experience.pd_index := 0;
              Experience.pd_distance :=
                distanceTo (mkVector3 0 8 60) (mkVector3 0 0 0);
              Experience.pd_textureIndex := 0 |}.
Proof.
  apply (lightbox_photo_is_on_ornament ["a.jpg"; "b.jpg"; "c.jpg"]%string
           (fun _ => Animator.half_ornament_draws) (mkVector3 0 8 60)
           (repeat (mkVector3 0 0 0) 200)).
  - discriminate.
  - reflexivity.
  - left. reflexivity.
Defined.

(** ** The local photo store *)

Section LocalStore.

Import LocalPhotos.

Lemma readAll_loaded urls : readAll (loaded urls) = Some urls.
Proof.
  unfold loaded.
  induction urls as [|u rest IH]; cbn [map readAll readFileAsDataUrl];
    [reflexivity|].
  rewrite IH. reflexivity.
Qed.

Lemma filter_other_absent u l :
  ~ In u l -> filter (fun v => negb (String.eqb v u)) l = l.
Proof.
  induction l as [|x l IH]; intros H; simpl; [reflexivity|].
  destruct (String.eqb x u) eqn:E.
  - apply String.eqb_eq in E. exfalso. apply H. left. exact E.
  - simpl. rewrite IH; [reflexivity|]. intros Hin. apply H. right. exact Hin.
Qed.

Lemma truthy_spec s : truthy s = true <-> s <> EmptyString.
Proof. destruct s; simpl; split; intros H; congruence. Qed.

Lemma getLocalPhotos_photos l : getLocalPhotos true (Photos l) = l.
Proof. reflexivity. Qed.

End LocalStore.

(** X21: a photo saved in the local store and deleted again leaves the
    list as it was.  With the store reachable, adding the file of a
    non-empty data URL [u] puts [u] in front of the photos kept so far;
    deleting [u] removes every copy of it and keeps the other photos in
    their order; so when [u] was not kept before, the list after the
    deletion is the one before the addition. *)
Theorem local_photo_round_trip (store : LocalPhotos.Stored) (u : string) :
  u <> EmptyString ->
  ~ In u (LocalPhotos.getLocalPhotos true store) ->
  let existing := LocalPhotos.getLocalPhotos true store in
  let added := LocalPhotos.addLocalPhotos true true (LocalPhotos.loaded [u]) store in
  let deleted := LocalPhotos.deleteLocalPhoto true true u (snd added) in
  fst added = Some (u :: existing)
  /\ LocalPhotos.getLocalPhotos true (snd added) = u :: existing
  /\ fst deleted = Some existing
  /\ LocalPhotos.getLocalPhotos true (snd deleted) = existing.
Proof.
  intros Hu Hnew existing added deleted.
  assert (Ha : added = (Some (u :: existing), LocalPhotos.Photos (u :: existing))).
  { unfold added, LocalPhotos.addLocalPhotos.
    rewrite readAll_loaded. simpl filter.
    apply truthy_spec in Hu. rewrite Hu. reflexivity. }
  assert (Hd : deleted = (Some existing, LocalPhotos.Photos existing)).
  { unfold deleted. rewrite Ha. unfold LocalPhotos.deleteLocalPhoto. simpl.
    rewrite String.eqb_refl. simpl.
    rewrite (filter_other_absent u existing Hnew). reflexivity. }
  rewrite Ha, Hd. simpl. repeat split.
Qed.

Lemma local_photo_round_trip_witness :
  LocalPhotos.getLocalPhotos true
    (snd (LocalPhotos.deleteLocalPhoto true true "data:a"%string
            (snd (LocalPhotos.addLocalPhotos true true
                    (LocalPhotos.loaded ["data:a"%string])
                    (LocalPhotos.Photos ["data:b"%string])))))
  = LocalPhotos.getLocalPhotos true (LocalPhotos.Photos ["data:b"%string]).
Proof.
  refine (proj2 (proj2 (proj2
            (local_photo_round_trip (LocalPhotos.Photos ["data:b"%string])
                                    "data:a"%string _ _)))).
  - discriminate.
  - simpl. intros [H | H]; [discriminate | exact H].
Defined.

(** X22: deleting a photo from the local store removes every copy of it
    and nothing else: whatever the store holds, after a deletion that the
    store accepts a URL is kept exactly when it was kept before and is not
    the deleted one, and deleting the same URL again changes nothing. *)
Theorem local_delete_removes_all (getOk : bool) (store : LocalPhotos.Stored)
        (u : string) :
  let deleted := LocalPhotos.deleteLocalPhoto getOk true u store in
  (forall v, In v (LocalPhotos.getLocalPhotos true (snd deleted))
             <-> In v (LocalPhotos.getLocalPhotos getOk store) /\ v <> u)
  /\ LocalPhotos.deleteLocalPhoto true true u (snd deleted) = deleted.
Proof.
  intros deleted.
  assert (Hd : deleted
               = (Some (filter (fun v => negb (String.eqb v u))
                               (LocalPhotos.getLocalPhotos getOk store)),
                  LocalPhotos.Photos
                    (filter (fun v => negb (String.eqb v u))
                            (LocalPhotos.getLocalPhotos getOk store)))).
  { reflexivity. }
  rewrite Hd. simpl snd. split.
  - intros v. rewrite getLocalPhotos_photos.
    rewrite filter_In, negb_true_iff. split.
    + intros (Hin & Hne). split; [exact Hin|]. apply String.eqb_neq. exact Hne.
    + intros (Hin & Hne). split; [exact Hin|]. apply String.eqb_neq. exact Hne.
  - unfold LocalPhotos.deleteLocalPhoto at 1. simpl.
    rewrite filter_other_absent; [reflexivity|].
    intros Hin. apply filter_In in Hin. destruct Hin as (_ & Hne).
    rewrite String.eqb_refl in Hne. discriminate.
Qed.

(** X23: failures of the local store.  An operation that is rejected (a
    file that cannot be read, a write the store refuses) leaves the store
    as it was.  A read that fails is taken for an empty list, so an
    addition whose read fails and whose write succeeds replaces the photos
    kept so far by the new ones alone; the same happens to a stored value
    that is no array. *)
Theorem local_store_failures (getOk setOk ok : bool) (files : list LocalPhotos.File)
        (u : string) (store : LocalPhotos.Stored) :
  (fst (LocalPhotos.addLocalPhotos getOk setOk files store) = None ->
   snd (LocalPhotos.addLocalPhotos getOk setOk files store) = store)
  /\ (fst (LocalPhotos.deleteLocalPhoto getOk setOk u store) = None ->
      snd (LocalPhotos.deleteLocalPhoto getOk setOk u store) = store)
  /\ (fst (LocalPhotos.resetLocalPhotos ok store) = None ->
      snd (LocalPhotos.resetLocalPhotos ok store) = store)
  /\ (In LocalPhotos.Unreadable files ->
      LocalPhotos.addLocalPhotos getOk setOk files store = (None, store))
  /\ (forall urls old,
        LocalPhotos.addLocalPhotos false true (LocalPhotos.loaded urls)
                                   (LocalPhotos.Photos old)
        = (Some (filter LocalPhotos.truthy urls),
           LocalPhotos.Photos (filter LocalPhotos.truthy urls)))
  /\ (forall urls,
        LocalPhotos.addLocalPhotos true true (LocalPhotos.loaded urls)
                                   LocalPhotos.NotAnArray
        = (Some (filter LocalPhotos.truthy urls),
           LocalPhotos.Photos (filter LocalPhotos.truthy urls))).
Proof.
  split; [|split; [|split; [|split; [|split]]]].
  - unfold LocalPhotos.addLocalPhotos.
    destruct (LocalPhotos.readAll files); [|reflexivity].
    destruct setOk; simpl; [discriminate | reflexivity].
  - unfold LocalPhotos.deleteLocalPhoto.
    destruct setOk; simpl; [discriminate | reflexivity].
  - destruct ok; simpl; [discriminate | reflexivity].
  - intros Hin. unfold LocalPhotos.addLocalPhotos.
    assert (Hr : LocalPhotos.readAll files = None).
    { induction files as [|f rest IH]; [contradiction|].
      simpl. destruct Hin as [-> | Hin]; [reflexivity|].
      rewrite (IH Hin). destruct (LocalPhotos.readFileAsDataUrl f); reflexivity. }
    rewrite Hr. reflexivity.
  - intros urls old. unfold LocalPhotos.addLocalPhotos.
    rewrite readAll_loaded. simpl. rewrite app_nil_r. reflexivity.
  - intros urls. unfold LocalPhotos.addLocalPhotos.
    rewrite readAll_loaded. simpl. rewrite app_nil_r. reflexivity.
Qed.

Lemma local_store_failures_witness :
  snd (LocalPhotos.addLocalPhotos true false (LocalPhotos.loaded ["data:a"%string])
                                  (LocalPhotos.Photos ["data:b"%string]))
  = LocalPhotos.Photos ["data:b"%string].
Proof.
  refine (proj1 (local_store_failures true false true
                   (LocalPhotos.loaded ["data:a"%string]) "data:a"%string
                   (LocalPhotos.Photos ["data:b"%string])) _).
  reflexivity.
Defined.

(** ** The photo list *)

Section PhotoListFacts.

Import PhotoList.

Lemma existsb_eqb_in x (l : list string) :
  existsb (String.eqb x) l = true <-> In x l.
Proof.
  rewrite existsb_exists. split.
  - intros (y & Hin & E). apply String.eqb_eq in E. subst y. exact Hin.
  - intros Hin. exists x. split; [exact Hin | apply String.eqb_refl].
Qed.

Lemma setAdd_in set y x : In x (setAdd set y) <-> In x set \/ x = y.
Proof.
  unfold setAdd. destruct (existsb (String.eqb y) set) eqn:E.
  - apply existsb_eqb_in in E. split; [intros H; left; exact H|].
    intros [H | ->]; assumption.
  - rewrite in_app_iff. simpl. split.
    + intros [H | [H | []]]; [left; exact H | right; symmetry; exact H].
    + intros [H | ->]; [left; exact H | right; left; reflexivity].
Qed.

Lemma setAdd_nodup set y : NoDup set -> NoDup (setAdd set y).
Proof.
  intros H. unfold setAdd. destruct (existsb (String.eqb y) set) eqn:E; [exact H|].
  assert (Hn : ~ In y set).
  { intros Hin. apply existsb_eqb_in in Hin. congruence. }
  apply NoDup_app; [exact H | constructor; [intros [] | constructor] |].
  intros x Hx [<- | []]. exact (Hn Hx).
Qed.

Lemma setAdd_extends set y : exists rest, setAdd set y = set ++ rest.
Proof.
  unfold setAdd. destruct (existsb _ _).
  - exists []. symmetry. apply app_nil_r.
  - exists [y]. reflexivity.
Qed.

Lemma setFold_in l : forall set x,
  In x (fold_left setAdd l set) <-> In x set \/ In x l.
Proof.
  induction l as [|y l IH]; intros set x; simpl.
  - tauto.
  - rewrite IH, setAdd_in. split.
    + intros [[H | H] | H]; auto.
    + intros [H | [H | H]]; auto.
Qed.

Lemma setFold_nodup l : forall set, NoDup set -> NoDup (fold_left setAdd l set).
Proof.
  induction l as [|y l IH]; intros set H; simpl; [exact H|].
  apply IH, setAdd_nodup, H.
Qed.

Lemma setFold_extends l : forall set, exists rest, fold_left setAdd l set = set ++ rest.
Proof.
  induction l as [|y l IH]; intros set; simpl.
  - exists []. symmetry. apply app_nil_r.
  - destruct (setAdd_extends set y) as [r1 E1].
    destruct (IH (setAdd set y)) as [r2 E2].
    exists (r1 ++ r2). rewrite E2, E1, app_assoc. reflexivity.
Qed.

Lemma filter_nodup (A : Type) (f : A -> bool) l : NoDup l -> NoDup (filter f l).
Proof.
  induction 1 as [|x l Hx Hl IH]; simpl; [constructor|].
  destruct (f x); [|exact IH].
  constructor; [|exact IH]. intros Hin. apply filter_In in Hin. apply Hx, Hin.
Qed.

(** What [dedupe] keeps. *)
Lemma dedupe_spec merged :
  NoDup (dedupe merged)
  /\ forall u, In u (dedupe merged) <-> u <> EmptyString /\ In u merged.
Proof.
  unfold dedupe, setFrom. split.
  - apply filter_nodup, setFold_nodup. constructor.
  - intros u. rewrite filter_In, setFold_in. simpl.
    rewrite truthy_spec. tauto.
Qed.

Lemma dedupe_prefix l1 l2 : exists rest, dedupe (l1 ++ l2) = dedupe l1 ++ rest.
Proof.
  unfold dedupe, setFrom. rewrite fold_left_app.
  destruct (setFold_extends l2 (fold_left setAdd l1 [])) as [rest E].
  rewrite E, filter_app. eexists. reflexivity.
Qed.

Lemma append_inj base : forall a b,
  String.append base a = String.append base b -> a = b.
Proof.
  induction base as [|c base IH]; intros a b H; simpl in H; [exact H|].
  injection H as H. apply IH, H.
Qed.

Lemma append_nonempty base p : p <> EmptyString -> String.append base p <> EmptyString.
Proof.
  destruct base; simpl; [intros H; exact H | intros _ H; discriminate].
Qed.

(** The default photos without the base URL. *)
Lemma bodyPhotoPaths_map base :
  bodyPhotoPaths base
  = map (asset base)
        ("backup_photos/top.jpg"%string
         :: map numberedPhoto (seq 0 TOTAL_NUMBERED_PHOTOS)).
Proof. unfold bodyPhotoPaths. cbn [map]. rewrite map_map. reflexivity. Qed.

Lemma default_names_nodup :
  NoDup ("backup_photos/top.jpg"%string
         :: map numberedPhoto (seq 0 TOTAL_NUMBERED_PHOTOS)).
Proof.
  assert (E : nodup String.string_dec
                ("backup_photos/top.jpg"%string
                 :: map numberedPhoto (seq 0 TOTAL_NUMBERED_PHOTOS))
              = "backup_photos/top.jpg"%string
                :: map numberedPhoto (seq 0 TOTAL_NUMBERED_PHOTOS)).
  { vm_compute. reflexivity. }
  rewrite <- E. apply NoDup_nodup.
Qed.

Lemma bodyPhotoPaths_nodup base : NoDup (bodyPhotoPaths base).
Proof.
  rewrite bodyPhotoPaths_map.
  apply NoDup_map_NoDup_ForallPairs; [|apply default_names_nodup].
  intros a b _ _ H. apply (append_inj base), H.
Qed.

Lemma bodyPhotoPaths_nonempty base p : In p (bodyPhotoPaths base) -> p <> EmptyString.
Proof.
  unfold bodyPhotoPaths. intros [<- | H].
  - apply append_nonempty. discriminate.
  - apply in_map_iff in H. destruct H as (i & <- & _).
    apply append_nonempty. discriminate.
Qed.

Lemma bodyPhotoPaths_length base : List.length (bodyPhotoPaths base) = 35%nat.
Proof.
  unfold bodyPhotoPaths. cbn [List.length]. rewrite length_map, length_seq.
  reflexivity.
Qed.

End PhotoListFacts.

(** X24: whatever the server answers and whatever the local store holds,
    the photo list [fetchPhotos] sets has no duplicate and no empty entry,
    holds every one of the 35 default photos (so it is never empty and the
    ornaments are always rendered), holds every non-empty local photo, and
    starts with the local photos in their order. *)
Theorem fetched_photo_list (BASE_URL : string) (response : PhotoList.Response)
        (timestamp : nat) (getOk : bool) (store : LocalPhotos.Stored) :
  let photos := PhotoList.fetchPhotos BASE_URL response timestamp getOk store in
  NoDup photos
  /\ ~ In EmptyString photos
  /\ incl (PhotoList.bodyPhotoPaths BASE_URL) photos
  /\ (35 <= List.length photos)%nat
  /\ (forall u, u <> EmptyString ->
                In u (LocalPhotos.getLocalPhotos getOk store) -> In u photos)
  /\ exists rest,
      photos = PhotoList.dedupe (LocalPhotos.getLocalPhotos getOk store) ++ rest.
Proof.
  intros photos.
  assert (H : exists others,
             photos = PhotoList.dedupe
                        (LocalPhotos.getLocalPhotos getOk store
                         ++ others ++ PhotoList.bodyPhotoPaths BASE_URL)).
  { unfold photos, PhotoList.fetchPhotos. destruct response as [|files].
    - exists []. reflexivity.
    - eexists. reflexivity. }
  destruct H as [others E]. rewrite E. clear E photos.
  destruct (dedupe_spec (LocalPhotos.getLocalPhotos getOk store
                         ++ others ++ PhotoList.bodyPhotoPaths BASE_URL))
    as (Hnd & Hin).
  assert (Hbody : incl (PhotoList.bodyPhotoPaths BASE_URL)
                       (PhotoList.dedupe
                          (LocalPhotos.getLocalPhotos getOk store
                           ++ others ++ PhotoList.bodyPhotoPaths BASE_URL))).
  { intros p Hp. apply Hin. split; [apply (bodyPhotoPaths_nonempty BASE_URL p Hp)|].
    apply in_or_app; right. apply in_or_app; right. exact Hp. }
  split; [exact Hnd|]. split.
  { intros H0. apply Hin in H0. destruct H0 as (H0 & _). apply H0. reflexivity. }
  split; [exact Hbody|]. split.
  { rewrite <- (bodyPhotoPaths_length BASE_URL).
    apply NoDup_incl_length; [apply bodyPhotoPaths_nodup | exact Hbody]. }
  split.
  { intros u Hu Hl. apply Hin. split; [exact Hu|]. apply in_or_app; left; exact Hl. }
  apply dedupe_prefix.
Qed.

(** ** Deleting photos *)

Section DeleteFacts.

Import PhotoManager.

Lemma includes_append base s sub :
  includes s sub = true -> includes (String.append base s) sub = true.
Proof.
  intros H. induction base as [|c base IH]; [exact H|].
  cbn [String.append includes]. rewrite IH.
  destruct (String.prefix sub (String c (String.append base s))); reflexivity.
Qed.

Lemma string_append_assoc a : forall b c,
  String.append (String.append a b) c = String.append a (String.append b c).
Proof.
  induction a as [|x a IH]; intros b c; simpl; [reflexivity|].
  rewrite IH. reflexivity.
Qed.

Lemma split_nonempty c s : split c s <> [].
Proof.
  destruct s as [|a s]; simpl; [discriminate|].
  destruct (Ascii.eqb a c); [discriminate|].
  destruct (split c s); discriminate.
Qed.

(** Splitting at the first separator after [a]. *)
Lemma split_append c a : forall b,
  split c (String.append a (String c b)) = split c a ++ split c b.
Proof.
  induction a as [|x a IH]; intros b; simpl.
  - rewrite Ascii.eqb_refl. reflexivity.
  - destruct (Ascii.eqb x c).
    + rewrite IH. reflexivity.
    + rewrite IH. destruct (split c a) as [|h t] eqn:E.
      * exfalso. exact (split_nonempty c a E).
      * reflexivity.
Qed.

Lemma split_without c s : without c s -> split c s = [s].
Proof.
  induction s as [|a s IH]; simpl; [reflexivity|].
  intros (Hne & Hs). apply Ascii.eqb_neq in Hne. rewrite Hne, (IH Hs). reflexivity.
Qed.

Lemma without_append c a b :
  without c a -> without c b -> without c (String.append a b).
Proof.
  induction a as [|x a IH]; simpl; [intros _ H; exact H|].
  intros (Hx & Ha) Hb. split; [exact Hx | apply IH; assumption].
Qed.

Lemma last_app_nonempty (A : Type) (l1 l2 : list A) d :
  l2 <> [] -> last (l1 ++ l2) d = last l2 d.
Proof.
  intros H. induction l1 as [|x l1 IH]; simpl; [reflexivity|].
  destruct (l1 ++ l2) eqn:E; [|exact IH].
  apply app_eq_nil in E. destruct E as (_ & E). contradiction.
Qed.

(** The name [filenameOf] reads from the URL of a file on the server. *)
Lemma filenameOf_serverUrl base dir f query :
  without "?" base -> without "?" dir -> without "?" f -> without "/" f ->
  filenameOf (serverUrl base dir f query) = f.
Proof.
  intros Hb Hd Hf Hs. unfold filenameOf, serverUrl.
  replace (String.append base
             (String.append dir (String "/" (String.append f (String "?" query)))))
    with (String.append
            (String.append base (String.append dir (String "/" f)))
            (String "?" query)).
  - rewrite split_append.
    rewrite (split_without "?" (String.append base (String.append dir (String "/" f)))).
    + cbn [app hd].
      replace (String.append base (String.append dir (String "/" f)))
        with (String.append (String.append base dir) (String "/" f))
        by apply string_append_assoc.
      rewrite split_append, last_app_nonempty by apply split_nonempty.
      rewrite (split_without "/" f Hs). reflexivity.
    + apply without_append; [exact Hb|]. apply without_append; [exact Hd|].
      simpl. split; [discriminate | exact Hf].
  - rewrite !string_append_assoc. simpl. reflexivity.
Qed.

End DeleteFacts.

(** X25: the default photos cannot be deleted from the photo manager: for
    every base URL, [handleDelete] on any of the 35 default photos refuses
    at once, before it asks for a confirmation and without a request to the
    store or to the server. *)
Theorem default_photos_protected (BASE_URL : string) (confirm : bool) (p : string) :
  In p (PhotoList.bodyPhotoPaths BASE_URL) ->
  PhotoManager.handleDelete confirm p = PhotoManager.DefaultPhotoRefused.
Proof.
  intros Hp. unfold PhotoManager.handleDelete.
  assert (H : PhotoManager.includes p "backup_photos" = true).
  { unfold PhotoList.bodyPhotoPaths in Hp. destruct Hp as [<- | Hp].
    - apply includes_append. reflexivity.
    - apply in_map_iff in Hp. destruct Hp as (i & <- & _).
      apply includes_append. reflexivity. }
  rewrite H. reflexivity.
Qed.

Lemma default_photos_protected_witness :
  PhotoManager.handleDelete true "/backup_photos/top.jpg"
  = PhotoManager.DefaultPhotoRefused.
Proof.
  apply (default_photos_protected "/" true "/backup_photos/top.jpg").
  left. reflexivity.
Defined.

(** X26: the URL [fetchPhotos] builds for a file of the server leads the
    photo manager back to the name of the file: when neither the base URL
    nor the directory nor the name holds a question mark and the name holds
    no slash, is not empty and the URL is not taken for a default photo or
    a local one, a confirmed [handleDelete] reads exactly that name from
    the URL and sends its request to
    [BASE_URL + "api/photos?filename=" + name], the name put into the query
    as it is.  Nothing is said of what the server reads from that query: the
    name is not percent-encoded, and the statement holds as well for a name
    with [&], [#], [+] or [%], which a URL parser reads differently. *)
Theorem server_photo_delete_round_trip (BASE_URL dir f query : string) :
  PhotoManager.without "?" BASE_URL ->
  PhotoManager.without "?" dir ->
  PhotoManager.without "?" f ->
  PhotoManager.without "/" f ->
  f <> EmptyString ->
  PhotoManager.includes (PhotoManager.serverUrl BASE_URL dir f query) "backup_photos"
  = false ->
  PhotoManager.includes (PhotoManager.serverUrl BASE_URL dir f query) "top.jpg"
  = false ->
  String.prefix "data:" (PhotoManager.serverUrl BASE_URL dir f query) = false ->
  PhotoManager.serverUrl BASE_URL dir f query
  = String.append BASE_URL
      (String.append (String.append dir (String "/" f)) (String "?" query))
  /\ PhotoManager.filenameOf (PhotoManager.serverUrl BASE_URL dir f query) = f
  /\ PhotoManager.handleDelete true (PhotoManager.serverUrl BASE_URL dir f query)
     = PhotoManager.ServerDelete f
  /\ PhotoManager.requestOf BASE_URL
       (PhotoManager.handleDelete true (PhotoManager.serverUrl BASE_URL dir f query))
     = Some (String.append BASE_URL (String.append "api/photos?filename=" f)).
Proof.
  intros Hb Hd Hf Hs Hne Hi1 Hi2 Hp.
  assert (Hh : PhotoManager.handleDelete true (PhotoManager.serverUrl BASE_URL dir f query)
               = PhotoManager.ServerDelete f).
  { unfold PhotoManager.handleDelete. rewrite Hi1, Hi2, Hp. simpl.
    rewrite (filenameOf_serverUrl BASE_URL dir f query Hb Hd Hf Hs).
    apply truthy_spec in Hne. rewrite Hne. reflexivity. }
  split.
  - unfold PhotoManager.serverUrl. rewrite string_append_assoc. reflexivity.
  - split; [apply (filenameOf_serverUrl BASE_URL dir f query Hb Hd Hf Hs)|].
    split; [exact Hh|]. rewrite Hh. reflexivity.
Qed.

Lemma server_photo_delete_round_trip_witness :
  PhotoManager.requestOf "/tree/"
    (PhotoManager.handleDelete true
       (PhotoManager.serverUrl "/tree/" "photos" "me&you #1.jpg" "t=1700000000000"))
  = Some "/tree/api/photos?filename=me&you #1.jpg"%string.
Proof.
  refine (proj2 (proj2 (proj2
            (server_photo_delete_round_trip "/tree/" "photos" "me&you #1.jpg"
               "t=1700000000000" _ _ _ _ _ _ _ _)))).
  - simpl. repeat split; discriminate.
  - simpl. repeat split; discriminate.
  - simpl. repeat split; discriminate.
  - simpl. repeat split; discriminate.
  - discriminate.
  - reflexivity.
  - reflexivity.
  - reflexivity.
Defined.

(** ** The canvas fireworks *)

Section BackdropFacts.

Import Backdrop.

Lemma particleAfter_S n p :
  particleAfter (S n) p = Particle_update (particleAfter n p).
Proof. reflexivity. Qed.

Lemma particlesAfter_S n ps :
  particlesAfter (S n) ps = particlesAfter n (updateParticles ps).
Proof. unfold particlesAfter. rewrite Nat.iter_succ_r. reflexivity. Qed.

Lemma particlesAfter_nil n : particlesAfter n [] = [].
Proof.
  induction n as [|n IH]; [reflexivity|].
  rewrite particlesAfter_S. exact IH.
Qed.

(** Particles that have enough alpha for [n] more updates all stay. *)
Lemma particles_survive n : forall ps,
  Forall (fun p => 0 <= p_decay p /\ 0 < p_alpha p - INR n * p_decay p) ps ->
  List.length (particlesAfter n ps) = List.length ps.
Proof.
  induction n as [|n IH]; intros ps H; [reflexivity|].
  rewrite particlesAfter_S.
  assert (Hstep : updateParticles ps = map Particle_update ps
                  /\ Forall (fun p => 0 <= p_decay p
                                      /\ 0 < p_alpha p - INR n * p_decay p)
                            (map Particle_update ps)).
  { unfold updateParticles. induction H as [|p ps (Hd & Ha) _ IHps]; simpl.
    - split; [reflexivity | constructor].
    - rewrite S_INR in Ha. destruct IHps as (E & F).
      assert (Hn : 0 <= INR n) by apply pos_INR.
      unfold Particle_isDead at 1. simpl.
      assert (Hv : Num.leb (p_alpha p - p_decay p) 0 = false)
        by (apply Num_leb_false; nra).
      rewrite Hv. simpl. rewrite E.
      split; [reflexivity|]. constructor; [|exact F]. simpl. split; [exact Hd | lra]. }
  destruct Hstep as (E & F). rewrite E, (IH _ F). apply length_map.
Qed.

(** Particles whose alpha is used up by [n + 1] updates are all gone. *)
Lemma particles_vanish n : forall ps,
  Forall (fun p => p_alpha p <= INR (S n) * p_decay p) ps ->
  particlesAfter (S n) ps = [].
Proof.
  induction n as [|n IH]; intros ps H.
  - rewrite particlesAfter_S. unfold particlesAfter. simpl.
    unfold updateParticles. induction H as [|p ps Ha _ IHps]; simpl; [reflexivity|].
    unfold Particle_isDead at 1. simpl in Ha |- *.
    assert (Hd : Num.leb (p_alpha p - p_decay p) 0 = true) by (apply Num_leb_spec; lra).
    rewrite Hd. simpl. exact IHps.
  - rewrite particlesAfter_S. apply IH.
    unfold updateParticles. apply Forall_forall. intros q Hq.
    apply filter_In in Hq. destruct Hq as (Hq & _).
    apply in_map_iff in Hq. destruct Hq as (p & <- & Hp).
    rewrite Forall_forall in H. specialize (H p Hp).
    rewrite !S_INR in H. unfold Particle_update. cbn [p_alpha p_decay].
    rewrite S_INR. lra.
Qed.

Lemma particles_gone n m ps :
  Forall (fun p => p_alpha p <= INR (S n) * p_decay p) ps ->
  (S n <= m)%nat ->
  particlesAfter m ps = [].
Proof.
  intros H Hle.
  replace m with ((m - S n) + S n)%nat by lia.
  generalize (m - S n)%nat as k. intros k.
  unfold particlesAfter. rewrite Nat.iter_add.
  change (Nat.iter (S n) updateParticles ps) with (particlesAfter (S n) ps).
  rewrite (particles_vanish n ps H).
  apply particlesAfter_nil.
Qed.

Lemma fireworkAfter_exploded n d f :
  f_exploded f = true ->
  f_exploded (fireworkAfter n d f) = true
  /\ f_particles (fireworkAfter n d f) = particlesAfter n (f_particles f).
Proof.
  intros He. induction n as [|n (IH1 & IH2)]; [split; [exact He | reflexivity]|].
  unfold fireworkAfter in *.
  change (Nat.iter (S n) (Firework_update d) f)
    with (Firework_update d (Nat.iter n (Firework_update d) f)).
  unfold Firework_update at 1 3. rewrite IH1. cbn [negb f_exploded f_particles].
  split; [reflexivity|]. rewrite IH2. reflexivity.
Qed.

Lemma new_firework_particles x y h d :
  f_exploded (Firework_new x y true h d) = true
  /\ List.length (f_particles (Firework_new x y true h d)) = density
  /\ Forall (fun p => p_alpha p = 1
                      /\ exists i, p_decay p = ed_decay d i * 0.02 + 0.01)
            (f_particles (Firework_new x y true h d)).
Proof.
  unfold Firework_new, explode. cbn [f_exploded f_particles app].
  split; [reflexivity|]. split.
  - rewrite length_map, length_seq. reflexivity.
  - apply Forall_forall. intros p Hp. apply in_map_iff in Hp.
    destruct Hp as (i & <- & _). simpl. split; [reflexivity|]. exists i. reflexivity.
Qed.

Lemma spawn_bounded w h d st : bounded st -> bounded (spawn w h d st).
Proof.
  unfold bounded, spawn. cbn [fireworks]. intros (Hl & Hf).
  set (pushed := fireworks st ++ [_]).
  assert (Hp : Forall (fun f => f_exploded f = true
                                /\ (List.length (f_particles f) <= density)%nat
                                /\ Forall (fun p => 0 < p_alpha p) (f_particles f))
                      pushed).
  { unfold pushed. apply Forall_app. split; [exact Hf|].
    constructor; [|constructor].
    destruct (new_firework_particles (sd_x d * w) (h * (0.15 + sd_y d * 0.6)) h
                                     (sd_explosion d)) as (He & Hn & Ha).
    split; [exact He|]. split; [rewrite Hn; apply Nat.le_refl|].
    eapply Forall_impl; [|exact Ha]. intros p (E & _). rewrite E. lra. }
  assert (Hlen : List.length pushed = S (List.length (fireworks st))).
  { unfold pushed. rewrite length_app. simpl. lia. }
  destruct (maxFireworks <? List.length pushed)%nat eqn:E.
  - split; [|apply Forall_tl; exact Hp].
    destruct pushed as [|f rest]; simpl in *; lia.
  - apply Nat.ltb_ge in E. split; [exact E | exact Hp].
Qed.

Lemma animate_bounded i st : bounded st -> bounded (animate i st).
Proof.
  intros H. unfold animate.
  set (st1 := if Num.gtb _ _ then _ else st).
  assert (H1 : bounded st1).
  { unfold st1. destruct (Num.gtb _ _); [|exact H].
    apply spawn_bounded. exact H. }
  clearbody st1. destruct H1 as (Hl & Hf). unfold bounded. cbn [fireworks]. split.
  - eapply Nat.le_trans; [apply filter_length_le|].
    rewrite length_map, length_combine, length_seq, Nat.min_id. exact Hl.
  - apply Forall_forall. intros f Hin. apply filter_In in Hin.
    destruct Hin as (Hin & _). apply in_map_iff in Hin.
    destruct Hin as ([k f0] & <- & Hk). apply in_combine_r in Hk.
    rewrite Forall_forall in Hf. destruct (Hf f0 Hk) as (He & Hn & _).
    cbn [fst snd]. unfold Firework_update. rewrite He. cbn [negb f_exploded f_particles].
    split; [reflexivity|]. unfold updateParticles. split.
    + eapply Nat.le_trans; [apply filter_length_le|]. rewrite length_map. exact Hn.
    + apply Forall_forall. intros p Hp. apply filter_In in Hp.
      destruct Hp as (_ & Ha). unfold Particle_isDead in Ha.
      apply negb_true_iff, Num_leb_false in Ha. exact Ha.
Qed.

End BackdropFacts.

(** X27: a particle of the backdrop fades linearly and falls on a
    parabola: after [n] updates its alpha is the initial one less [n]
    times its decay, its abscissa has moved [n] times the horizontal
    velocity, its vertical velocity has gained [n] times the gravity 0.12,
    and its ordinate is y + n * vy + 0.12 * n * (n + 1) / 2. *)
Theorem backdrop_particle_trajectory (n : nat) (p : Backdrop.Particle) :
  let q := Backdrop.particleAfter n p in
  Backdrop.p_alpha q = Backdrop.p_alpha p - INR n * Backdrop.p_decay p
  /\ Backdrop.p_x q = Backdrop.p_x p + INR n * Backdrop.p_vx p
  /\ Backdrop.p_vy q = Backdrop.p_vy p + INR n * Backdrop.gravity
  /\ Backdrop.p_y q
     = Backdrop.p_y p + INR n * Backdrop.p_vy p
       + Backdrop.gravity * INR n * (INR n + 1) / 2
  /\ Backdrop.p_vx q = Backdrop.p_vx p
  /\ Backdrop.p_decay q = Backdrop.p_decay p.
Proof.
  induction n as [|n IH]; intros q.
  - subst q. simpl. repeat split; lra.
  - subst q. rewrite particleAfter_S.
    destruct IH as (Ha & Hx & Hvy & Hy & Hvx & Hd).
    rewrite S_INR. unfold Backdrop.Particle_update. cbn [Backdrop.p_alpha Backdrop.p_x
      Backdrop.p_vy Backdrop.p_y Backdrop.p_vx Backdrop.p_decay].
    rewrite Ha, Hx, Hvy, Hy, Hvx, Hd. repeat split; lra.
Qed.

(** X28: a firework of the backdrop lives between 34 and 100 frames: with
    draws of [Math.random()] it starts with 160 particles, keeps all of
    them through its first 33 updates, and from its 100th update on it has
    none left and is dead, so that [animate] drops it from the list. *)
Theorem backdrop_firework_lifetime (x y h : R) (d d' : Backdrop.ExplosionDraws) :
  Backdrop.unit_explosion d ->
  let f := Backdrop.Firework_new x y true h d in
  (forall n, (n <= 33)%nat ->
             List.length (Backdrop.f_particles (Backdrop.fireworkAfter n d' f))
             = Backdrop.density
             /\ Backdrop.Firework_isDead (Backdrop.fireworkAfter n d' f) = false)
  /\ (forall n, (100 <= n)%nat ->
                Backdrop.f_particles (Backdrop.fireworkAfter n d' f) = []
                /\ Backdrop.Firework_isDead (Backdrop.fireworkAfter n d' f) = true).
Proof.
  intros Hd f.
  destruct (new_firework_particles x y h d) as (He & Hn & Hp). fold f in He, Hn, Hp.
  split.
  - intros n Hle.
    destruct (fireworkAfter_exploded n d' f He) as (He' & Hps).
    assert (Hl : List.length (Backdrop.f_particles (Backdrop.fireworkAfter n d' f))
                 = Backdrop.density).
    { rewrite Hps, <- Hn. apply particles_survive.
      eapply Forall_impl; [|exact Hp]. intros p (Ea & i & Ed).
      destruct (Hd i) as (_ & (Hu0 & Hu1)). rewrite Ea, Ed.
      assert (Hn33 : INR n <= 33).
      { assert (H33 : INR 33 = 33) by (rewrite INR_IZR_INZ; reflexivity).
        rewrite <- H33. apply le_INR. exact Hle. }
      assert (Hn0 : 0 <= INR n) by apply pos_INR.
      split; [lra | nra]. }
    split; [exact Hl|].
    unfold Backdrop.Firework_isDead. rewrite Hl. rewrite andb_comm. reflexivity.
  - intros n Hle.
    destruct (fireworkAfter_exploded n d' f He) as (He' & Hps).
    assert (Hnil : Backdrop.f_particles (Backdrop.fireworkAfter n d' f) = []).
    { rewrite Hps. apply (particles_gone 99 n); [|exact Hle].
      assert (H100 : INR 100 = 100) by (rewrite INR_IZR_INZ; reflexivity).
      rewrite H100.
      eapply Forall_impl; [|exact Hp]. intros p (Ea & i & Ed).
      destruct (Hd i) as (_ & (Hu0 & Hu1)). rewrite Ea, Ed. lra. }
    split; [exact Hnil|].
    unfold Backdrop.Firework_isDead. rewrite He', Hnil. reflexivity.
Qed.

Lemma backdrop_firework_lifetime_witness :
  Backdrop.Firework_isDead
    (Backdrop.fireworkAfter 33 Backdrop.half_explosion
       (Backdrop.Firework_new 400 300 true 800 Backdrop.half_explosion)) = false.
Proof.
  refine (proj2 (proj1 (backdrop_firework_lifetime 400 300 800 Backdrop.half_explosion
                          Backdrop.half_explosion _) 33%nat _)).
  - intros i. unfold Num.unit_draw. simpl. lra.
  - lia.
Defined.

(** X29: after the start of the backdrop and after every frame, the list
    holds at most 14 fireworks, every one of them has exploded (the launch
    phase of [Firework] is never used), holds at most 160 particles, and
    every particle held has a positive alpha. *)
Theorem backdrop_fireworks_bounded (w h : R) (d1 d2 d3 : Backdrop.SpawnDraws)
        (frames : list Backdrop.FrameInput) :
  Backdrop.bounded (Backdrop.run (Backdrop.start w h d1 d2 d3) frames).
Proof.
  unfold Backdrop.run.
  assert (H0 : Backdrop.bounded (Backdrop.start w h d1 d2 d3)).
  { unfold Backdrop.start. repeat apply spawn_bounded.
    unfold Backdrop.bounded. simpl. split; [unfold Backdrop.maxFireworks; lia | constructor]. }
  revert H0. generalize (Backdrop.start w h d1 d2 d3).
  induction frames as [|i rest IH]; intros st H; simpl; [exact H|].
  apply IH, animate_bounded, H.
Qed.

(** ** The star on top *)

Section StarFacts.

Import AnimatorRuns.


End StarFacts.


